(** * waves-lease-canceller: a shallow embedding of [canceller.go]

    The tool cancels every active lease of one account through a node's
    REST API.  The embedding follows [canceller.go] function by function.
    Everything the program does to the outside world (library calls, node
    requests, log lines, sleeps) is recorded in a trace of time-stamped
    events, so that statements about "which calls happen, in which order,
    with which arguments" are statements about lists. *)

From Stdlib Require Import ZArith List String Ascii Bool Lia Sorted.
Import ListNotations.
Local Open Scope string_scope.
Local Open Scope Z_scope.

(** ** Go data *)

(** [uint64] values are integers in [0, 2^64); Go's [+] wraps around. *)
Definition two64 : Z := 2 ^ 64.
Definition is_uint64 (z : Z) : Prop := 0 <= z < two64.
Definition add64 (a b : Z) : Z := (a + b) mod two64.

(** Go's [error] interface.  [nil] is [None] of [option goerror].  The three
    package-level sentinels of [canceller.go] are compared by identity in
    [main], so each is a constructor of its own; [wrapped] is an error whose
    [Unwrap] yields another one, which is what [errors.Is] walks. *)
Inductive goerror : Type :=
| context_Canceled
| errInvalidParameters
| errUserTermination
| errFailure
| errorString (msg : string)
| wrapped (msg : string) (inner : goerror).

(** [errors.Is(err, context.Canceled)] for a non-nil [err]. *)
Fixpoint is_Canceled (e : goerror) : bool :=
  match e with
  | context_Canceled => true
  | wrapped _ inner => is_Canceled inner
  | _ => false
  end.

(** [errors.Is(err, context.Canceled)] for any [err]; nil is no error. *)
Definition errors_Is_Canceled (err : option goerror) : bool :=
  match err with Some e => is_Canceled e | None => false end.

(** A Go call returning [(value, error)] where the value is meaningful only
    when the error is nil. *)
Inductive result (A : Type) : Type :=
| Ok (a : A)
| Err (e : goerror).
Arguments Ok {A} a.
Arguments Err {A} e.

Definition bytes := list Byte.byte.
Definition Scheme := Byte.byte.          (* proto.Scheme = byte *)
Definition SecretKey := bytes.           (* crypto.SecretKey  [32]byte *)
Definition PublicKey := bytes.           (* crypto.PublicKey  [32]byte *)
Definition Digest := bytes.              (* crypto.Digest     [32]byte *)
Definition Address := bytes.             (* proto.Address     [26]byte *)
Definition AddressSize : nat := 26.

(** [crypto.Digest{}]: the zero value [make] fills a slice with. *)
Definition zeroDigest : Digest := repeat Byte.x00 32.

(** [client.Response]: only the status code is read by the program. *)
Record Response : Type := { StatusCode : Z }.
Definition http_StatusOK : Z := 200.

(** [AddressesExtraFee], the JSON body of [/addresses/scriptInfo]. *)
Record AddressesExtraFee : Type := { ExtraFee : Z }.

(** One entry of the list [cl.Leasing.Active] returns.  [ID] is a pointer in
    the library's type (the program writes [*txs[i].ID]). *)
Record LeaseWithSig : Type := { lease_ID : option Digest; lease_Amount : Z }.

(** The block returned by [cl.Blocks.Last]; only its generator address is
    read.  The program indexes this address, so the block carries the size
    the array type gives it. *)
Record Block : Type := {
  Generator : Address;
  Generator_size : List.length Generator = AddressSize
}.

(** [proto.LeaseCancelWithProofs].  [ID] and [Proofs] are nil until [Sign]
    fills them. *)
Record LeaseCancelWithProofs : Type := {
  Version : Z;
  ChainID : Scheme;
  SenderPK : PublicKey;
  LeaseID : Digest;
  Fee : Z;
  Timestamp : Z;
  ID : option Digest;
  Proofs : option bytes
}.

(** [proto.NewUnsignedLeaseCancelWithProofs(v, chainID, senderPK, leaseID,
    fee, timestamp)] stores its arguments. *)
Definition NewUnsignedLeaseCancelWithProofs
    (v : Z) (chainID : Scheme) (senderPK : PublicKey) (leaseID : Digest)
    (fee timestamp : Z) : LeaseCancelWithProofs :=
  {| Version := v; ChainID := chainID; SenderPK := senderPK;
     LeaseID := leaseID; Fee := fee; Timestamp := timestamp;
     ID := None; Proofs := None |}.

(** [url.URL] as far as [nodeClient] looks at it, [http.Request] and
    [client.Client] (whose options carry the base URL). *)
Record URL : Type := { url_Scheme : string; url_Rest : string }.
Record Request : Type := { req_Method : string; req_URL : string }.
Record Client : Type := { BaseUrl : string }.

(** The command-line flags after [flag.Parse]. *)
Record Flags : Type := {
  nodeURL : string;
  accountSK : string;
  accountPK : string;
  dryRun : bool;
  showHelp : bool;
  showVersion : bool
}.

(** ** The libraries the program calls

    gowaves' [crypto], [proto] and [client] packages, [net/url], [net/http]
    and [encoding/json] are outside the repository: their functions are
    fields of a record the program is parameterised by. *)
Record Lib : Type := {
  NewSecretKeyFromBase58 : string -> result SecretKey;
  GeneratePublicKey : SecretKey -> PublicKey;
  NewPublicKeyFromBase58 : string -> result PublicKey;
  NewAddressFromPublicKey : Scheme -> PublicKey -> result Address;
  (* what the transaction's [Sign] method computes: identifier and proofs *)
  signBody : Scheme -> SecretKey -> LeaseCancelWithProofs -> result (Digest * bytes);
  json_Marshal : LeaseCancelWithProofs -> result string;
  url_Parse : string -> result URL;
  url_String : URL -> string;
  client_NewClient : string -> result Client;
  http_NewRequest : string -> string -> result Request;
  Address_String : Address -> string
}.

(** A node's answer to one request: how long it takes and what comes back. *)
Record Reply (A : Type) : Type := { latency : Z; payload : A }.
Arguments latency {A} r.
Arguments payload {A} r.

(** The node behind the REST API, as the methods of gowaves' client show it.
    Its answers may change from one request to the next, so every endpoint
    is indexed by the number of requests made so far.  [Transactions_Info]
    returns the response pointer and the error side by side, as the program
    inspects both.  What a method returns for a request that was abandoned is
    the client's business too: gowaves wraps the transport's error in a
    [*client.RequestError], through which [errors.Is] does not see. *)
Record Node : Type := {
  Blocks_Height : nat -> Reply (option goerror);
  Blocks_Last : nat -> Reply (result Block);
  Leasing_Active : Address -> nat -> Reply (result (list LeaseWithSig));
  client_Do : Request -> nat -> Reply (result (Response * AddressesExtraFee));
  Transactions_Broadcast : LeaseCancelWithProofs -> nat -> Reply (option goerror);
  Transactions_Info : Digest -> nat -> Reply (option Response * option goerror);
  (* the error a client method returns, with no response, for a request it
     gave up because its context was cancelled *)
  Abandoned : goerror
}.

(** [context.Context]: the instant (in nanoseconds on the model's clock) at
    which it is cancelled, if ever. *)
Record Context : Type := { doneAt : option Z }.

(** ** Events *)

(** The log lines of [canceller.go], one constructor per call site, carrying
    the values that are formatted into the line. *)
Inductive logline : Type :=
| LogUsage                                   (* showUsage *)
| LogVersion
| LogInvalidURL (u : string)
| LogInvalidSK (s : string)
| LogNoPK
| LogDryRun
| LogConnectFailed (u : string) (e : goerror)
| LogConnected (u : string)
| LogSchemeFailed (e : goerror)
| LogScheme (s : Scheme)
| LogParseSKFailed (e : goerror)
| LogParsePKFailed (e : goerror)
| LogAddressFailed (e : goerror)
| LogPublicKey (pk : PublicKey)
| LogAddress (a : Address)
| LogLeasingsFailed (e : goerror)
| LogFound (n : nat) (a : Address) (total : Z)
| LogExtraFeeFailed (a : Address) (e : goerror)
| LogExtraFee (fee : Z)
| LogNoExtraFee
| LogSignFailed (e : goerror)
| LogJSONFailed (e : goerror)
| LogTxJSON (i : Z) (json : string)
| LogTxID (i : Z) (id : Digest)
| LogBroadcastFailed (e : goerror)
| LogTrackFailed (e : goerror)
| LogCreated (n : nat)
| LogOK
| LogWaiting (id : Digest).

(** Everything observable: log lines, library calls with their results, node
    requests with what came back, and sleeps. *)
Inductive event : Type :=
| Log (l : logline)
| CallNewSecretKey (s : string) (r : result SecretKey)
| CallGeneratePublicKey (sk : SecretKey) (pk : PublicKey)
| CallNewPublicKey (s : string) (r : result PublicKey)
| CallNewAddress (sch : Scheme) (pk : PublicKey) (r : result Address)
| CallSign (sch : Scheme) (sk : SecretKey) (tx : LeaseCancelWithProofs)
    (r : result (Digest * bytes))
| CallMarshal (tx : LeaseCancelWithProofs) (r : result string)
| ReqHeight (r : option goerror)
| ReqLast (r : result Block)
| ReqActive (a : Address) (r : result (list LeaseWithSig))
| ReqDo (q : Request) (r : result (Response * AddressesExtraFee))
| ReqBroadcast (tx : LeaseCancelWithProofs) (r : option goerror)
| ReqInfo (id : Digest) (r : option Response * option goerror)
| Sleep (d : Z).

(** ** The monad: clock, request counter, trace, panics *)

Record St : Type := { clock : Z; calls : nat }.

(** How a computation ends: with a value, with a run-time panic (nil
    dereference, index out of range), or still inside the poll loop when the
    fuel given to the model is used up. *)
Inductive outcome (A : Type) : Type :=
| Val (a : A)
| Panic
| Spin.
Arguments Val {A} a.
Arguments Panic {A}.
Arguments Spin {A}.

Record Out (A : Type) : Type :=
  mkOut { res : outcome A; fin : St; evs : list (Z * event) }.
Arguments mkOut {A} res fin evs.
Arguments res {A} o.
Arguments fin {A} o.
Arguments evs {A} o.

Definition M (A : Type) : Type := St -> Out A.

Definition ret {A} (a : A) : M A := fun s => mkOut (Val a) s [].

Definition bind {A B} (m : M A) (k : A -> M B) : M B :=
  fun s =>
    match m s with
    | mkOut (Val a) s1 e1 =>
        match k a s1 with mkOut r s2 e2 => mkOut r s2 (e1 ++ e2) end
    | mkOut Panic s1 e1 => mkOut Panic s1 e1
    | mkOut Spin s1 e1 => mkOut Spin s1 e1
    end.

Definition panic {A} : M A := fun s => mkOut Panic s [].
Definition spin {A} : M A := fun s => mkOut Spin s [].

(** An event stamped with the current clock. *)
Definition emit (e : event) : M unit :=
  fun s => mkOut (Val tt) s [(clock s, e)].

Definition log (l : logline) : M unit := emit (Log l).

Declare Scope go_scope.
Delimit Scope go_scope with go.
Notation "x <- m ;; k" := (bind m (fun x => k))
  (at level 100, m at next level, right associativity) : go_scope.
Notation "m ;;; k" := (bind m (fun _ => k))
  (at level 100, right associativity) : go_scope.
Local Open Scope go_scope.

(** A local library call: recorded, takes no time. *)
Definition call {A} (ev : A -> event) (a : A) : M A :=
  emit (ev a) ;;; ret a.

(** [time.Second] in nanoseconds, the unit of the clock. *)
Definition time_Second : Z := 1000000000.

(** [time.Sleep(d)] takes no context: it returns after [d], whatever
    happens meanwhile. *)
Definition time_Sleep (d : Z) : M unit :=
  fun s => mkOut (Val tt) {| clock := clock s + Z.max 0 d; calls := calls s |}
                 [(clock s, Sleep d)].

(** A node request made through the client with context [ctx].  The client
    hands the context to [net/http]: a request whose context is cancelled
    before the reply is in is abandoned at that instant and the call returns
    [cancelled], what the client returns in that case; a context that is
    done already makes the call return at once.  Otherwise the reply
    arrives after its latency.  The node's answer is the one for the
    current request number. *)
Definition request {A} (ctx : Context) (ev : A -> event)
    (endpoint : nat -> Reply A) (cancelled : A) : M A :=
  fun s =>
    let r := endpoint (calls s) in
    let arrive := clock s + Z.max 0 (latency r) in
    let next := S (calls s) in
    match doneAt ctx with
    | Some c =>
        if c <=? arrive
        then mkOut (Val cancelled) {| clock := Z.max (clock s) c; calls := next |}
                   [(clock s, ev cancelled)]
        else mkOut (Val (payload r)) {| clock := arrive; calls := next |}
                   [(clock s, ev (payload r))]
    | None => mkOut (Val (payload r)) {| clock := arrive; calls := next |}
                    [(clock s, ev (payload r))]
    end.

(** ** Go's [strings] helpers *)

(** A Go string is a sequence of bytes ([string] here: one [ascii] per
    byte), read as UTF-8 where runes matter.  [isSpace] is the white space
    below U+0080: tab, line feed, vertical tab, form feed, carriage return
    and space. *)
Definition isSpace (c : ascii) : bool :=
  let n := N_of_ascii c in
  ((9 <=? n) && (n <=? 13) || (n =? 32))%N.

(** [unicode.IsSpace] on the rune [s] starts with: the number of bytes of
    that rune when it is white space, 0 when it is not.  Besides the ASCII
    ones the white-space runes are U+0085 and U+00A0 (two bytes, after
    0xC2), U+1680 (0xE1 0x9A 0x80), U+2000 to U+200A, U+2028, U+2029 and
    U+202F (after 0xE2 0x80), U+205F (0xE2 0x81 0x9F) and U+3000 (0xE3 0x80
    0x80).  Each starts with a byte that is never part of another rune, so
    the bytes can be matched where they stand. *)
Definition spaceWidth (s : string) : nat :=
  match s with
  | EmptyString => 0
  | String c rest =>
      if isSpace c then 1
      else
        let b0 := N_of_ascii c in
        match rest with
        | String c1 rest1 =>
            let b1 := N_of_ascii c1 in
            if ((b0 =? 194) && ((b1 =? 133) || (b1 =? 160)))%N then 2
            else
              match rest1 with
              | String c2 _ =>
                  let b2 := N_of_ascii c2 in
                  if ((b0 =? 225) && (b1 =? 154) && (b2 =? 128)
                      || (b0 =? 226) && (b1 =? 128)
                         && ((128 <=? b2) && (b2 <=? 138)
                             || (b2 =? 168) || (b2 =? 169) || (b2 =? 175))
                      || (b0 =? 226) && (b1 =? 129) && (b2 =? 159)
                      || (b0 =? 227) && (b1 =? 128) && (b2 =? 128))%N
                  then 3 else 0
              | EmptyString => 0
              end
        | EmptyString => 0
        end
  end.

(** [strings.Fields]: the maximal runs of bytes between white-space runes.
    [acc] is the field being read, [skip] the number of bytes of the current
    white-space rune still to pass. *)
Fixpoint Fields_from (skip : nat) (acc : string) (s : string) : list string :=
  match s with
  | EmptyString => if (acc =? "")%string then [] else [acc]
  | String c rest =>
      match skip with
      | S k => Fields_from k acc rest
      | O =>
          match spaceWidth s with
          | S k =>
              if (acc =? "")%string then Fields_from k "" rest
              else acc :: Fields_from k "" rest
          | O => Fields_from 0 (acc ++ String c "") rest
          end
      end
  end.
Definition strings_Fields (s : string) : list string := Fields_from 0 "" s.

(** [strings.Contains]. *)
Definition strings_Contains (s sub : string) : bool :=
  match index 0 sub s with Some _ => true | None => false end.

(** [l[i] = x] on a slice: a list update (in range wherever the program
    uses it; out of range it would panic). *)
Fixpoint update {A} (l : list A) (i : nat) (x : A) : list A :=
  match l, i with
  | [], _ => []
  | _ :: t, O => x :: t
  | h :: t, S j => h :: update t j x
  end.

(** ** The program *)

Definition defaultScheme : string := "http".
Definition standardFee : Z := 100000.

Section Canceller.

(** The libraries, the node at the other end, the wall clock at the start
    of the run ([UnixNano]) and the instant at which the operator
    interrupts the process, if ever. *)
Variable lib : Lib.
Variable node : Node.
Variable epoch : Z.
Variable interruptAt : option Z.

(** Modelled from the spec: [interruptListener] is defined in a file of the
    repository that is not among the sources.  According to the spec the
    process listens for an external interrupt request for the whole run and
    propagates it as a cancellation context: the context it returns is done
    from the instant of the interrupt on. *)
Definition interruptListener : M Context :=
  ret {| doneAt := interruptAt |}.

(** The methods of the client, as requests to [node].  Each names what it
    returns when its context is cancelled first: zero values and the
    client's error for an abandoned request. *)
Definition cl_Blocks_Height (ctx : Context) : M (option goerror) :=
  request ctx ReqHeight (Blocks_Height node) (Some (Abandoned node)).
Definition cl_Blocks_Last (ctx : Context) : M (result Block) :=
  request ctx ReqLast (Blocks_Last node) (Err (Abandoned node)).
Definition cl_Leasing_Active (ctx : Context) (addr : Address)
    : M (result (list LeaseWithSig)) :=
  request ctx (ReqActive addr) (Leasing_Active node addr) (Err (Abandoned node)).
Definition cl_Do (ctx : Context) (req : Request)
    : M (result (Response * AddressesExtraFee)) :=
  request ctx (ReqDo req) (client_Do node req) (Err (Abandoned node)).
Definition cl_Transactions_Broadcast (ctx : Context)
    (tx : LeaseCancelWithProofs) : M (option goerror) :=
  request ctx (ReqBroadcast tx) (Transactions_Broadcast node tx)
          (Some (Abandoned node)).
Definition cl_Transactions_Info (ctx : Context) (id : Digest)
    : M (option Response * option goerror) :=
  request ctx (ReqInfo id) (Transactions_Info node id)
          (None, Some (Abandoned node)).

(** [broadcast] (canceller.go 206-209). *)
Definition broadcast (ctx : Context) (cl : Client)
    (tx : LeaseCancelWithProofs) : M (option goerror) :=
  cl_Transactions_Broadcast ctx tx.

(** One turn of the loop of [track] (canceller.go 214-221): [Some r] when
    the turn executes [return r], [None] when it reaches the end of the body
    and the loop goes round again.  Reading [rsp.StatusCode] through a nil
    [rsp] panics. *)
Definition trackTurn (ctx : Context) (cl : Client) (id : Digest)
    : M (option (option goerror)) :=
  r <- cl_Transactions_Info ctx id ;;
  let '(rsp, err) := r in
  if errors_Is_Canceled err
  then ret (Some err)
  else match rsp with
       | None => panic
       | Some rsp =>
           if StatusCode rsp =? http_StatusOK
           then ret (Some None)
           else time_Sleep time_Second ;;; ret None
       end.

(** The [for { ... }] of [track]; [fuel] bounds the number of turns the
    model follows. *)
Fixpoint trackLoop (fuel : nat) (ctx : Context) (cl : Client) (id : Digest)
    : M (option goerror) :=
  match fuel with
  | O => spin
  | S fuel' =>
      r <- trackTurn ctx cl id ;;
      match r with
      | Some e => ret e
      | None => trackLoop fuel' ctx cl id
      end
  end.

(** [track] (canceller.go 211-223). *)
Definition track (fuel : nat) (ctx : Context) (cl : Client) (id : Digest)
    : M (option goerror) :=
  log (LogWaiting id) ;;;
  trackLoop fuel ctx cl id.

(** [timestamp] (canceller.go 225-227): milliseconds of the wall clock. *)
Definition timestamp : M Z :=
  fun s => mkOut (Val (((epoch + clock s) mod two64) / 1000000)) s [].

(** The loop of [getActiveLeasings] (canceller.go 241-244) from index [i]
    on, over the entries still to visit.  [*txs[i].ID] through a nil [ID]
    panics. *)
Fixpoint leasingsLoop (txs : list LeaseWithSig) (i : nat)
    (amount : Z) (r : list Digest) : outcome (list Digest * Z) :=
  match txs with
  | [] => Val (r, amount)
  | tx :: rest =>
      let amount := add64 amount (lease_Amount tx) in
      match lease_ID tx with
      | None => Panic
      | Some id => leasingsLoop rest (S i) amount (update r i id)
      end
  end.

(** [getActiveLeasings] (canceller.go 234-246). *)
Definition getActiveLeasings (ctx : Context) (cl : Client) (addr : Address)
    : M (result (list Digest * Z)) :=
  r <- cl_Leasing_Active ctx addr ;;
  match r with
  | Err err => ret (Err err)
  | Ok txs =>
      match leasingsLoop txs 0 0 (repeat zeroDigest (List.length txs)) with
      | Val ra => ret (Ok ra)
      | _ => panic
      end
  end.

(** [getExtraFee] (canceller.go 248-262). *)
Definition getExtraFee (ctx : Context) (cl : Client) (addr : Address)
    : M (result Z) :=
  match http_NewRequest lib "GET"
          (BaseUrl cl ++ "/addresses/scriptInfo/" ++ Address_String lib addr) with
  | Err err => ret (Err err)
  | Ok req =>
      r <- cl_Do ctx req ;;
      match r with
      | Err err => ret (Err err)
      | Ok (rsp, extraFee) =>
          if negb (StatusCode rsp =? http_StatusOK)
          then ret (Err (errorString "failed to get extra fee"))
          else ret (Ok (ExtraFee extraFee))
      end
  end.

(** [nodeClient] (canceller.go 264-290). *)
Definition nodeClient (ctx : Context) (s : string) : M (result Client) :=
  match (if strings_Contains s "//"
         then url_Parse lib s
         else url_Parse lib ("//" ++ s)) with
  | Err err => ret (Err err)
  | Ok u =>
      let u := if (url_Scheme u =? "")%string
               then {| url_Scheme := defaultScheme; url_Rest := url_Rest u |}
               else u in
      if negb (url_Scheme u =? "http")%string
         && negb (url_Scheme u =? "https")%string
      then ret (Err (errorString
                       ("unsupported URL scheme '" ++ url_Scheme u ++ "'")))
      else
        match client_NewClient lib (url_String lib u) with
        | Err err => ret (Err err)
        | Ok cl =>
            err <- cl_Blocks_Height ctx ;;
            match err with
            | Some err => ret (Err err)
            | None => ret (Ok cl)
            end
        end
  end.

(** [getScheme] (canceller.go 292-298): the second byte of the generator's
    address.  [Bytes()[1]] indexes a slice of the whole array of 26 bytes,
    so the index is in range. *)
Definition getScheme (ctx : Context) (cl : Client) : M (result Scheme) :=
  r <- cl_Blocks_Last ctx ;;
  match r with
  | Err err => ret (Err err)
  | Ok b => ret (Ok (nth 1 (Generator b) Byte.x00))
  end.

(** [parseSK] (canceller.go 305-316). *)
Definition parseSK (scheme : Scheme) (s : string)
    : M (result (SecretKey * PublicKey * Address)) :=
  r <- call (CallNewSecretKey s) (NewSecretKeyFromBase58 lib s) ;;
  match r with
  | Err err => ret (Err err)
  | Ok sk =>
      pk <- call (CallGeneratePublicKey sk) (GeneratePublicKey lib sk) ;;
      r <- call (CallNewAddress scheme pk) (NewAddressFromPublicKey lib scheme pk) ;;
      match r with
      | Err err => ret (Err err)
      | Ok address => ret (Ok (sk, pk, address))
      end
  end.

(** [cancel.Sign(scheme, sk)]: on success the transaction carries its
    identifier and proofs. *)
Definition Sign (scheme : Scheme) (sk : SecretKey)
    (tx : LeaseCancelWithProofs) : M (result LeaseCancelWithProofs) :=
  r <- call (CallSign scheme sk tx) (signBody lib scheme sk tx) ;;
  match r with
  | Err err => ret (Err err)
  | Ok (id, proofs) =>
      ret (Ok {| Version := Version tx; ChainID := ChainID tx;
                 SenderPK := SenderPK tx; LeaseID := LeaseID tx;
                 Fee := Fee tx; Timestamp := Timestamp tx;
                 ID := Some id; Proofs := Some proofs |})
  end.

(** What [run] does after [errors.Is(err, context.Canceled)] failed or
    succeeded on a non-nil error of a node request. *)
Definition failed (err : goerror) (l : logline) : M (option goerror) :=
  if is_Canceled err then ret (Some errUserTermination)
  else log l ;;; ret (Some errFailure).

(** The [for i, lease := range leasings] of [run] (canceller.go 167-200)
    from index [i] on.  [Some e] is [return e] out of [run]; [None] is the
    loop running to its end. *)
Fixpoint cancelLoop (fuel : nat) (ctx : Context) (cl : Client) (dry : bool)
    (scheme : Scheme) (sk : SecretKey) (pk : PublicKey) (fee : Z)
    (i : Z) (leasings : list Digest) : M (option goerror) :=
  match leasings with
  | [] => ret None
  | lease :: rest =>
      ts <- timestamp ;;
      let cancel := NewUnsignedLeaseCancelWithProofs 2 scheme pk lease fee ts in
      r <- Sign scheme sk cancel ;;
      match r with
      | Err err => log (LogSignFailed err) ;;; ret (Some errFailure)
      | Ok cancel =>
          if dry then
            b <- call (CallMarshal cancel) (json_Marshal lib cancel) ;;
            match b with
            | Err err => log (LogJSONFailed err) ;;; ret (Some errFailure)
            | Ok b =>
                log (LogTxJSON (i + 1) b) ;;;
                cancelLoop fuel ctx cl dry scheme sk pk fee (i + 1) rest
            end
          else
            match ID cancel with
            | None => panic
            | Some id =>
                log (LogTxID (i + 1) id) ;;;
                err <- broadcast ctx cl cancel ;;
                match err with
                | Some err => failed err (LogBroadcastFailed err)
                | None =>
                    err <- track fuel ctx cl id ;;
                    match err with
                    | Some err => failed err (LogTrackFailed err)
                    | None =>
                        cancelLoop fuel ctx cl dry scheme sk pk fee (i + 1) rest
                    end
                end
            end
      end
  end.

(** Step 4 of [run] (canceller.go 141-203): what [run] does once the
    connection, the scheme and the account are there.  It is the tail of
    the body of [run], given a name of its own. *)
Definition cancelLeasings (fuel : nat) (ctx : Context) (cl : Client)
    (dry : bool) (scheme : Scheme) (sk : SecretKey) (pk : PublicKey)
    (addr : Address) : M (option goerror) :=
  (* 4. Get active leasing transactions *)
  r <- getActiveLeasings ctx cl addr ;;
  match r with
  | Err err => failed err (LogLeasingsFailed err)
  | Ok (leasings, total) =>
  log (LogFound (List.length leasings) addr total) ;;;
  (* 4. Create cancel leasing transactions *)
  r <- getExtraFee ctx cl addr ;;
  match r with
  | Err err => failed err (LogExtraFeeFailed addr err)
  | Ok leaseExtraFee =>
  (if negb (leaseExtraFee =? 0) then log (LogExtraFee leaseExtraFee)
   else log LogNoExtraFee) ;;;
  let fee := add64 standardFee leaseExtraFee in
  r <- cancelLoop fuel ctx cl dry scheme sk pk fee 0 leasings ;;
  match r with
  | Some err => ret (Some err)
  | None =>
      log (LogCreated (List.length leasings)) ;;;
      log LogOK ;;;
      ret None
  end
  end
  end.

(** [run] (canceller.go 56-204), after [flag.Parse]. *)
Definition run (fuel : nat) (fl : Flags) : M (option goerror) :=
  if showHelp fl then log LogUsage ;;; ret None
  else if showVersion fl then log LogVersion ;;; ret None
  else if (nodeURL fl =? "")%string
          || (1 <? List.length (strings_Fields (nodeURL fl)))%nat
  then log (LogInvalidURL (nodeURL fl)) ;;; ret (Some errInvalidParameters)
  else if (accountSK fl =? "")%string
          || (1 <? List.length (strings_Fields (accountSK fl)))%nat
  then log (LogInvalidSK (accountSK fl)) ;;; ret (Some errInvalidParameters)
  else
    (if (accountPK fl =? "")%string
        || (1 <? List.length (strings_Fields (accountPK fl)))%nat
     then log LogNoPK else ret tt) ;;;
    (if dryRun fl then log LogDryRun else ret tt) ;;;
    ctx <- interruptListener ;;
    (* 1. Check connection to node's API *)
    r <- nodeClient ctx (nodeURL fl) ;;
    match r with
    | Err err => failed err (LogConnectFailed (nodeURL fl) err)
    | Ok cl =>
    log (LogConnected (BaseUrl cl)) ;;;
    (* 2. Acquire the network scheme *)
    r <- getScheme ctx cl ;;
    match r with
    | Err err => failed err (LogSchemeFailed err)
    | Ok scheme =>
    log (LogScheme scheme) ;;;
    (* 3. Generate public keys and addresses from given private key *)
    r <- parseSK scheme (accountSK fl) ;;
    match r with
    | Err err => log (LogParseSKFailed err) ;;; ret (Some errFailure)
    | Ok (sk, pk, addr) =>
    r <- (if negb (accountPK fl =? "")%string then
            r <- call (CallNewPublicKey (accountPK fl))
                      (NewPublicKeyFromBase58 lib (accountPK fl)) ;;
            match r with
            | Err err => log (LogParsePKFailed err) ;;; ret (Err errFailure)
            | Ok pk =>
                r <- call (CallNewAddress scheme pk)
                          (NewAddressFromPublicKey lib scheme pk) ;;
                match r with
                | Err err => log (LogAddressFailed err) ;;; ret (Err errFailure)
                | Ok addr => ret (Ok (pk, addr))
                end
            end
          else ret (Ok (pk, addr))) ;;
    match r with
    | Err err => ret (Some err)
    | Ok (pk, addr) =>
    log (LogPublicKey pk) ;;;
    log (LogAddress addr) ;;;
    cancelLeasings fuel ctx cl (dryRun fl) scheme sk pk addr
    end
    end
    end
    end.

(** [main] (canceller.go 39-54): the exit status of the process, 0 when
    [main] returns normally. *)
Definition main (fuel : nat) (fl : Flags) : M Z :=
  err <- run fuel fl ;;
  match err with
  | None => ret 0
  | Some errInvalidParameters => log LogUsage ;;; ret 2
  | Some errUserTermination => ret 130
  | Some errFailure => ret 70
  | Some _ => ret 1
  end.

End Canceller.

(** ** Sums of [uint64] amounts *)

(** [amount += x] for each [x] in turn, from [acc]. *)
Definition sum64_from (acc : Z) (l : list Z) : Z := fold_left add64 l acc.
Definition sum64 (l : list Z) : Z := sum64_from 0 l.

(** The sum in the integers. *)
Definition sumZ (l : list Z) : Z := fold_right Z.add 0 l.

(** The transactions a trace shows being built and signed, in order: every
    transaction the loop of [run] builds is handed to [Sign] at once. *)
Fixpoint builtTxs (t : list (Z * event)) : list LeaseCancelWithProofs :=
  match t with
  | [] => []
  | (_, CallSign _ _ tx _) :: t' => tx :: builtTxs t'
  | _ :: t' => builtTxs t'
  end.

(** The events of a trace without their time stamps. *)
Definition events (t : list (Z * event)) : list event := map snd t.

(** Classes of events: what submitting a transaction leaves in the trace
    (the broadcast, and the poll with its opening log line, status queries
    and sleeps), and the derivation of keys and addresses. *)
Definition isSubmission (e : event) : bool :=
  match e with
  | ReqBroadcast _ _ | ReqInfo _ _ | Sleep _ | Log (LogWaiting _) => true
  | _ => false
  end.


(** ** A small concrete world to run the program in *)

Module Demo.

Definition bytes_of_string (s : string) : bytes :=
  map byte_of_ascii (list_ascii_of_string s).
Definition string_of_bytes (b : bytes) : string :=
  string_of_list_ascii (map ascii_of_byte b).

(** The characters base58 leaves out. *)
Definition isBase58 (c : ascii) : bool :=
  let n := N_of_ascii c in
  (((49 <=? n) && (n <=? 57)) || ((65 <=? n) && (n <=? 90))
   || ((97 <=? n) && (n <=? 122)))%N
  && negb (n =? 73)%N && negb (n =? 79)%N && negb (n =? 108)%N.

Definition decode58 (s : string) : result bytes :=
  if forallb isBase58 (list_ascii_of_string s)
  then Ok (bytes_of_string s)
  else Err (errorString "invalid base58 symbol").

(** Scheme of a URL: what stands before [://], if anything. *)
Definition parseURL (s : string) : result URL :=
  match index 0 "://" s with
  | Some n => Ok {| url_Scheme := substring 0 n s;
                    url_Rest := substring (n + 1) (String.length s) s |}
  | None => Ok {| url_Scheme := ""; url_Rest := s |}
  end.

Definition lib : Lib := {|
  NewSecretKeyFromBase58 := decode58;
  GeneratePublicKey := fun sk => rev sk;
  NewPublicKeyFromBase58 := decode58;
  NewAddressFromPublicKey := fun sch pk => Ok (Byte.x01 :: sch :: pk);
  signBody := fun sch sk tx => Ok (sch :: LeaseID tx, sk);
  json_Marshal := fun tx => Ok (string_of_bytes (LeaseID tx));
  url_Parse := parseURL;
  url_String := fun u => url_Scheme u ++ ":" ++ url_Rest u;
  client_NewClient := fun s => Ok {| BaseUrl := s |};
  http_NewRequest := fun m u => Ok {| req_Method := m; req_URL := u |};
  Address_String := fun a => string_of_bytes (skipn 1 a)
|}.

Definition ms (n : Z) : Z := n * 1000000.

Definition reply {A} (a : A) : Reply A := {| latency := ms 10; payload := a |}.

Definition lease (name : string) (amount : Z) : LeaseWithSig :=
  {| lease_ID := Some (bytes_of_string name); lease_Amount := amount |}.

(** A node on chain "T" that knows [leases], asks [extra] as surcharge,
    accepts every broadcast and reports a transaction as known on the
    [k]-th status query made for it or later ([404] before). *)
Definition nodeWith (leases : list LeaseWithSig) (extra : Z)
    (known : nat -> bool) : Node := {|
  Blocks_Height := fun _ => reply None;
  Blocks_Last := fun _ =>
    reply (Ok {| Generator := Byte.x01 :: Byte.x54 :: repeat Byte.x00 24;
                 Generator_size := eq_refl |});
  Leasing_Active := fun _ _ => reply (Ok leases);
  client_Do := fun _ _ =>
    reply (Ok ({| StatusCode := 200 |}, {| ExtraFee := extra |}));
  Transactions_Broadcast := fun _ _ => reply None;
  Transactions_Info := fun _ n =>
    reply (if known n then (Some {| StatusCode := 200 |}, None)
           else (Some {| StatusCode := 404 |},
                 Some (errorString "404 Not Found")));
  Abandoned := errorString "context canceled"
|}.

Definition node3 : Node :=
  nodeWith [lease "a" 5; lease "b" 7; lease "c" 11] 0 (fun _ => true).

(** The same node, unreachable: the height query fails. *)
Definition down (n : Node) (e : goerror) : Node := {|
  Blocks_Height := fun _ => reply (Some e);
  Blocks_Last := Blocks_Last n;
  Leasing_Active := Leasing_Active n;
  client_Do := client_Do n;
  Transactions_Broadcast := Transactions_Broadcast n;
  Transactions_Info := Transactions_Info n;
  Abandoned := Abandoned n
|}.

(** The same node with another answer to status queries. *)
Definition withInfo (n : Node)
    (info : Digest -> nat -> Reply (option Response * option goerror)) : Node := {|
  Blocks_Height := Blocks_Height n;
  Blocks_Last := Blocks_Last n;
  Leasing_Active := Leasing_Active n;
  client_Do := client_Do n;
  Transactions_Broadcast := Transactions_Broadcast n;
  Transactions_Info := info;
  Abandoned := Abandoned n
|}.

(** The same node refusing every broadcast. *)
Definition rejecting (n : Node) (e : goerror) : Node := {|
  Blocks_Height := Blocks_Height n;
  Blocks_Last := Blocks_Last n;
  Leasing_Active := Leasing_Active n;
  client_Do := client_Do n;
  Transactions_Broadcast := fun _ _ => reply (Some e);
  Transactions_Info := Transactions_Info n;
  Abandoned := Abandoned n
|}.

(** U+00A0, the no-break space, in UTF-8. *)
Definition nbsp : string := String "194" (String "160" "").

Definition flags (sk pk : string) (dry : bool) : Flags :=
  {| nodeURL := "http://localhost:6869"; accountSK := sk; accountPK := pk;
     dryRun := dry; showHelp := false; showVersion := false |}.

Definition start : St := {| clock := 0; calls := 0 |}.
Definition cl : Client := {| BaseUrl := "http://localhost:6869" |}.
Definition never : Context := {| doneAt := None |}.
Definition cancelledAt (c : Z) : Context := {| doneAt := Some c |}.

(** Two leases whose amounts each fit in 64 bits and add up to 2^64. *)
Definition nodeBig : Node :=
  nodeWith [lease "a" (2 ^ 63); lease "b" (2 ^ 63)] 0 (fun _ => true).

(** A node that never gets to know the transaction. *)
Definition nodeNever : Node :=
  nodeWith [lease "a" 5; lease "b" 7] 0 (fun _ => false).

(** A node that stops answering status queries: the transport fails and
    the client has no response to hand back. *)
Definition nodeGone : Node :=
  withInfo node3 (fun _ _ => reply (None, Some (errorString "connection refused"))).

(** A client that reports a context cancelled after the answer came in as
    [context.Canceled] itself, beside the response it has. *)
Definition nodeCancelled : Node :=
  withInfo node3 (fun _ _ => reply (Some {| StatusCode := 200 |},
                                    Some context_Canceled)).

(** A node asking the largest surcharge a [uint64] holds. *)
Definition nodeMax : Node :=
  nodeWith [lease "a" 5] (2 ^ 64 - 1) (fun _ => true).

(** Wall clock at the start of the run, in nanoseconds since the epoch. *)
Definition epoch : Z := 1700000000000000000.

(** The account of the demo runs: key "sk", on chain "T". *)
Definition addr : Address := Byte.x01 :: Byte.x54 :: bytes_of_string "ks".
Definition addrOf (pk : string) : Address :=
  Byte.x01 :: Byte.x54 :: bytes_of_string pk.

End Demo.

(** ** Vocabulary of the statements *)

Local Open Scope list_scope.


(** The shape of what one confirmation poll leaves in the trace, with the way
    it ends: status queries for [id], each unsuccessful one followed by a
    sleep of one second. *)
Inductive pollTrace (id : Digest) : list event -> outcome (option goerror) -> Prop :=
| poll_known rsp err :
    errors_Is_Canceled err = false ->
    StatusCode rsp = http_StatusOK ->
    pollTrace id [ReqInfo id (Some rsp, err)] (Val None)
| poll_cancelled rsp e :
    is_Canceled e = true ->
    pollTrace id [ReqInfo id (rsp, Some e)] (Val (Some e))
| poll_nil_response err :
    errors_Is_Canceled err = false ->
    pollTrace id [ReqInfo id (None, err)] Panic
| poll_still_running :
    pollTrace id [] Spin
| poll_again rsp err t o :
    errors_Is_Canceled err = false ->
    StatusCode rsp <> http_StatusOK ->
    pollTrace id t o ->
    pollTrace id (ReqInfo id (Some rsp, err) :: Sleep time_Second :: t) o.



(** The transactions a trace shows being processed: serialized in a dry
    run, broadcast in a live one. *)
Fixpoint processedTxs (t : list (Z * event)) : list LeaseCancelWithProofs :=
  match t with
  | [] => []
  | (_, CallMarshal tx _) :: t' => tx :: processedTxs t'
  | (_, ReqBroadcast tx _) :: t' => tx :: processedTxs t'
  | _ :: t' => processedTxs t'
  end.

(** The JSON texts a trace shows coming out of [json.Marshal], and the ones
    it shows being logged. *)
Fixpoint marshalledJSON (t : list (Z * event)) : list string :=
  match t with
  | [] => []
  | (_, CallMarshal _ (Ok js)) :: t' => js :: marshalledJSON t'
  | _ :: t' => marshalledJSON t'
  end.

Fixpoint loggedJSON (t : list (Z * event)) : list string :=
  match t with
  | [] => []
  | (_, Log (LogTxJSON _ js)) :: t' => js :: loggedJSON t'
  | _ :: t' => loggedJSON t'
  end.

(** What the cancellation loop may leave in the trace, for a run on
    [scheme] signing with [sk]. *)
Definition loopEvent (scheme : Scheme) (sk : SecretKey) (e : event) : Prop :=
  match e with
  | CallSign sch sk' _ _ => sch = scheme /\ sk' = sk
  | CallMarshal _ _ | Log _ | ReqBroadcast _ _ | ReqInfo _ _ | Sleep _ => True
  | _ => False
  end.

Definition isPollEvent (e : event) : bool :=
  match e with
  | Log (LogWaiting _) | ReqInfo _ _ | Sleep _ => true
  | _ => false
  end.

(** A computation's outcome with the events of what ran before it put in
    front. *)
Definition after {A} (e1 : list (Z * event)) (o : Out A) : Out A :=
  mkOut (res o) (fin o) (e1 ++ evs o).

(** The kind of an event: which call site family it comes from.  The log
    line that prints a transaction's JSON is a kind of its own, and the one
    that opens a poll belongs with the status queries. *)
Inductive ekind : Type :=
| KLog | KJson | KKey | KSign | KMarshal | KHeight | KLast | KActive | KDo
| KBroadcast | KInfo | KSleep.

Definition kind (e : event) : ekind :=
  match e with
  | Log (LogTxJSON _ _) => KJson
  | Log (LogWaiting _) => KInfo
  | Log _ => KLog
  | CallNewSecretKey _ _ | CallGeneratePublicKey _ _
  | CallNewPublicKey _ _ | CallNewAddress _ _ _ => KKey
  | CallSign _ _ _ _ => KSign
  | CallMarshal _ _ => KMarshal
  | ReqHeight _ => KHeight
  | ReqLast _ => KLast
  | ReqActive _ _ => KActive
  | ReqDo _ _ => KDo
  | ReqBroadcast _ _ => KBroadcast
  | ReqInfo _ _ => KInfo
  | Sleep _ => KSleep
  end.

(** All events of a trace are of kind [k]. *)
Definition allOf (k : ekind) (t : list (Z * event)) : Prop :=
  Forall (fun te => kind (snd te) = k) t.

(** The flags pass the checks at the head of [run] (canceller.go 73-88), so
    that the run goes on to contact the node. *)
Definition paramsOK (fl : Flags) : bool :=
  negb (showHelp fl) && negb (showVersion fl)
  && negb ((nodeURL fl =? "")%string
           || (1 <? List.length (strings_Fields (nodeURL fl)))%nat)
  && negb ((accountSK fl =? "")%string
           || (1 <? List.length (strings_Fields (accountSK fl)))%nat).

(** The facts about one run of the loop that the statements about [run]
    rest on. *)
Definition loopPost (scheme : Scheme) (sk : SecretKey) (pk : PublicKey)
    (fee : Z) (dry : bool) (leasings : list Digest)
    (o : Out (option goerror)) : Prop :=
  Forall (fun te => loopEvent scheme sk (snd te)) (evs o)
  /\ Forall (fun tx => Version tx = 2 /\ ChainID tx = scheme
                       /\ SenderPK tx = pk /\ Fee tx = fee)
            (builtTxs (evs o))
  /\ (exists rest, leasings = map LeaseID (builtTxs (evs o)) ++ rest
                   /\ (res o = Val None -> rest = []))
  /\ (res o = Val None -> map LeaseID (processedTxs (evs o)) = leasings)
  /\ (dry = true -> Forall (fun te => isSubmission (snd te) = false) (evs o))
  /\ loggedJSON (evs o) = marshalledJSON (evs o).

(** The exit status [main] maps the result of [run] to. *)
Definition exitStatus (r : option goerror) : Z :=
  match r with
  | None => 0
  | Some errInvalidParameters => 2
  | Some errUserTermination => 130
  | Some errFailure => 70
  | Some _ => 1
  end.

(** A stretch of trace that contributes nothing to the lists the statements
    are about, and submits nothing. *)
Definition quiet (t : list (Z * event)) : Prop :=
  builtTxs t = [] /\ processedTxs t = []
  /\ loggedJSON t = [] /\ marshalledJSON t = []
  /\ Forall (fun te => isSubmission (snd te) = false) t.

(** Kinds of events by the stage of [run] they belong to: before the
    account is known, and around the fee query. *)
Definition isEarly (e : event) : bool :=
  match kind e with KLog | KHeight | KLast | KKey => true | _ => false end.

Definition isFeeStage (e : event) : bool :=
  match kind e with KLog | KDo => true | _ => false end.

(** How the tail of a run (from the lease query on) went: it stopped before
    the cancellation loop, or it entered it with the identifiers [ids] the
    fetcher returned and the fee computed from the surcharge. *)
Inductive TailShape (lib : Lib) (dry : bool) (scheme : Scheme) (sk : SecretKey)
    (pk : PublicKey) (addr : Address)
    (v : result (list LeaseWithSig)) (e2 : list (Z * event))
    (r : outcome (option goerror)) : Prop :=
| tail_stopped :
    Forall (fun te => isFeeStage (snd te) = true) e2 ->
    r <> Val None ->
    TailShape lib dry scheme sk pk addr v e2 r
| tail_looped txs ids total t1 t2 req rsp body t3 l3 oloop epost :
    v = Ok txs ->
    leasingsLoop txs 0 0 (repeat zeroDigest (List.length txs)) = Val (ids, total) ->
    e2 = (t1, Log (LogFound (List.length ids) addr total))
           :: (t2, ReqDo req (Ok (rsp, body)))
           :: (t3, Log l3) :: evs oloop ++ epost ->
    StatusCode rsp = http_StatusOK ->
    kind (Log l3) = KLog ->
    loopPost scheme sk pk (add64 standardFee (ExtraFee body)) dry ids oloop ->
    allOf KLog epost ->
    (r = Val None <-> res oloop = Val None) ->
    TailShape lib dry scheme sk pk addr v e2 r.

(** How a run went: it stopped before asking for the leases, or it resolved
    the scheme and the account and asked for the leases of [addr]. *)
Inductive RunShape (lib : Lib) (fl : Flags) (o : Out (option goerror)) : Prop :=
| shape_early :
    Forall (fun te => isEarly (snd te) = true) (evs o) ->
    (res o = Val None -> allOf KLog (evs o)) ->
    RunShape lib fl o
| shape_account cl b scheme sk pk addr e0 t v e2 :
    evs o = e0 ++ (t, ReqActive addr v) :: e2 ->
    Forall (fun te => isEarly (snd te) = true) e0 ->
    In (ReqLast (Ok b)) (events e0) ->
    nth_error (Generator b) 1 = Some scheme ->
    NewSecretKeyFromBase58 lib (accountSK fl) = Ok sk ->
    (if (accountPK fl =? "")%string
     then pk = GeneratePublicKey lib sk
     else NewPublicKeyFromBase58 lib (accountPK fl) = Ok pk) ->
    NewAddressFromPublicKey lib scheme pk = Ok addr ->
    (forall t' req r, In (t', ReqDo req r) e2 ->
       http_NewRequest lib "GET"
         (BaseUrl cl ++ "/addresses/scriptInfo/" ++ Address_String lib addr)%string
       = Ok req) ->
    TailShape lib (dryRun fl) scheme sk pk addr v e2 (res o) ->
    RunShape lib fl o.


(** ** Vocabulary of the further statements *)

(** What a computation can return: every value it ends with satisfies [P]. *)
Definition yields {A} (P : A -> Prop) (m : M A) : Prop :=
  forall s a, res (m s) = Val a -> P a.

(** The errors [run] hands to [main]. *)
Definition isSentinel (r : option goerror) : Prop :=
  r = None \/ r = Some errInvalidParameters
  \/ r = Some errUserTermination \/ r = Some errFailure.

(** Counting events of a trace. *)
Definition isSleep (e : event) : bool :=
  match e with Sleep _ => true | _ => false end.
Definition isInfo (e : event) : bool :=
  match e with ReqInfo _ _ => true | _ => false end.
Definition count (p : event -> bool) (t : list (Z * event)) : nat :=
  List.length (filter p (events t)).

(** The transaction the loop of [run] builds for [lease] at instant [t] of
    the clock, and the transaction once [Sign] has filled it in. *)
Definition cancelAt (epoch : Z) (scheme : Scheme) (pk : PublicKey) (fee : Z)
    (t : Z) (lease : Digest) : LeaseCancelWithProofs :=
  NewUnsignedLeaseCancelWithProofs 2 scheme pk lease fee
    (((epoch + t) mod two64) / 1000000).

Definition signedWith (tx : LeaseCancelWithProofs) (id : Digest) (proofs : bytes)
    : LeaseCancelWithProofs :=
  {| Version := Version tx; ChainID := ChainID tx; SenderPK := SenderPK tx;
     LeaseID := LeaseID tx; Fee := Fee tx; Timestamp := Timestamp tx;
     ID := Some id; Proofs := Some proofs |}.

(** The traces of the cancellation loop, lease by lease, with the way the
    loop ends: every constructor is one way through the body of the loop
    (canceller.go 168-199). *)
Inductive LoopRun (lib : Lib) (epoch : Z) (dry : bool) (scheme : Scheme)
    (sk : SecretKey) (pk : PublicKey) (fee : Z)
  : Z -> list Digest -> list (Z * event) -> outcome (option goerror) -> Prop :=
| LR_done i :
    LoopRun lib epoch dry scheme sk pk fee i [] [] (Val None)
| LR_sign_failed i lease rest t e :
    signBody lib scheme sk (cancelAt epoch scheme pk fee t lease) = Err e ->
    LoopRun lib epoch dry scheme sk pk fee i (lease :: rest)
      [(t, CallSign scheme sk (cancelAt epoch scheme pk fee t lease) (Err e));
       (t, Log (LogSignFailed e))]
      (Val (Some errFailure))
| LR_json_failed i lease rest t id proofs e :
    dry = true ->
    signBody lib scheme sk (cancelAt epoch scheme pk fee t lease) = Ok (id, proofs) ->
    json_Marshal lib (signedWith (cancelAt epoch scheme pk fee t lease) id proofs)
      = Err e ->
    LoopRun lib epoch dry scheme sk pk fee i (lease :: rest)
      [(t, CallSign scheme sk (cancelAt epoch scheme pk fee t lease) (Ok (id, proofs)));
       (t, CallMarshal (signedWith (cancelAt epoch scheme pk fee t lease) id proofs)
             (Err e));
       (t, Log (LogJSONFailed e))]
      (Val (Some errFailure))
| LR_printed i lease rest t id proofs b tr r :
    dry = true ->
    signBody lib scheme sk (cancelAt epoch scheme pk fee t lease) = Ok (id, proofs) ->
    json_Marshal lib (signedWith (cancelAt epoch scheme pk fee t lease) id proofs)
      = Ok b ->
    LoopRun lib epoch dry scheme sk pk fee (i + 1) rest tr r ->
    LoopRun lib epoch dry scheme sk pk fee i (lease :: rest)
      ((t, CallSign scheme sk (cancelAt epoch scheme pk fee t lease) (Ok (id, proofs)))
         :: (t, CallMarshal (signedWith (cancelAt epoch scheme pk fee t lease) id proofs)
                  (Ok b))
         :: (t, Log (LogTxJSON (i + 1) b)) :: tr)
      r
| LR_broadcast_failed i lease rest t id proofs err t' :
    dry = false ->
    signBody lib scheme sk (cancelAt epoch scheme pk fee t lease) = Ok (id, proofs) ->
    LoopRun lib epoch dry scheme sk pk fee i (lease :: rest)
      ((t, CallSign scheme sk (cancelAt epoch scheme pk fee t lease) (Ok (id, proofs)))
         :: (t, Log (LogTxID (i + 1) id))
         :: (t, ReqBroadcast (signedWith (cancelAt epoch scheme pk fee t lease) id proofs)
                  (Some err))
         :: (if is_Canceled err then [] else [(t', Log (LogBroadcastFailed err))]))
      (Val (Some (if is_Canceled err then errUserTermination else errFailure)))
| LR_poll_stopped i lease rest t id proofs t1 ptr po :
    dry = false ->
    signBody lib scheme sk (cancelAt epoch scheme pk fee t lease) = Ok (id, proofs) ->
    pollTrace id (events ptr) po ->
    po <> Val None ->
    LoopRun lib epoch dry scheme sk pk fee i (lease :: rest)
      ((t, CallSign scheme sk (cancelAt epoch scheme pk fee t lease) (Ok (id, proofs)))
         :: (t, Log (LogTxID (i + 1) id))
         :: (t, ReqBroadcast (signedWith (cancelAt epoch scheme pk fee t lease) id proofs)
                  None)
         :: (t1, Log (LogWaiting id)) :: ptr)
      (match po with
       | Val _ => Val (Some errUserTermination)
       | Panic => Panic
       | Spin => Spin
       end)
| LR_confirmed i lease rest t id proofs t1 ptr tr r :
    dry = false ->
    signBody lib scheme sk (cancelAt epoch scheme pk fee t lease) = Ok (id, proofs) ->
    pollTrace id (events ptr) (Val None) ->
    LoopRun lib epoch dry scheme sk pk fee (i + 1) rest tr r ->
    LoopRun lib epoch dry scheme sk pk fee i (lease :: rest)
      ((t, CallSign scheme sk (cancelAt epoch scheme pk fee t lease) (Ok (id, proofs)))
         :: (t, Log (LogTxID (i + 1) id))
         :: (t, ReqBroadcast (signedWith (cancelAt epoch scheme pk fee t lease) id proofs)
                  None)
         :: (t1, Log (LogWaiting id)) :: ptr ++ tr)
      r.

(** Requests that submit: the broadcast and the status query. *)
Definition isSubmissionReq (e : event) : bool :=
  match e with ReqBroadcast _ _ | ReqInfo _ _ => true | _ => false end.

(** The discipline of submission, read along a trace; [polling] is the
    identifier whose confirmation is awaited, if any.  A transaction is
    signed and broadcast only while no confirmation is awaited; an accepted
    broadcast opens the wait for the identifier of the very transaction
    that was broadcast; status queries are made for that identifier only;
    the wait ends on a 200; after a refused broadcast or a cancelled query
    nothing is submitted any more. *)
Fixpoint sequential (polling : option Digest) (t : list event) : Prop :=
  match t with
  | [] => True
  | CallSign _ _ _ _ :: t' => polling = None /\ sequential None t'
  | ReqBroadcast tx r :: t' =>
      polling = None
      /\ match r with
         | None => exists id, ID tx = Some id /\ sequential (Some id) t'
         | Some _ => Forall (fun e => isSubmissionReq e = false) t'
         end
  | ReqInfo id (rsp, err) :: t' =>
      polling = Some id
      /\ if errors_Is_Canceled err
         then Forall (fun e => isSubmissionReq e = false) t'
         else match rsp with
              | Some r => if StatusCode r =? http_StatusOK
                          then sequential None t'
                          else sequential (Some id) t'
              | None => t' = []
              end
  | _ :: t' => sequential polling t'
  end.

(** [l] ends with [suffix]. *)
Definition endsWith {A} (l suffix : list A) : Prop :=
  exists pre, l = pre ++ suffix.

(** What [failed] adds to the trace and returns, for the error [err] of a
    node request. *)
Definition failedE (err : goerror) (l : logline) : list event :=
  if is_Canceled err then [] else [Log l].
Definition failedR (err : goerror) : outcome (option goerror) :=
  Val (Some (if is_Canceled err then errUserTermination else errFailure)).

(** An event that is there under a condition. *)
Definition optE (c : bool) (e : event) : list event := if c then [e] else [].

(** The traces of the tail of [run] (from the lease query on), without
    time stamps, with the way it ends. *)
Inductive TailTrace (lib : Lib) (node : Node) (epoch : Z) (fuel : nat)
    (ctx : Context) (cl : Client) (dry : bool) (scheme : Scheme)
    (sk : SecretKey) (pk : PublicKey) (addr : Address)
  : list event -> outcome (option goerror) -> Prop :=
| TT_leases_failed err :
    TailTrace lib node epoch fuel ctx cl dry scheme sk pk addr
      (ReqActive addr (Err err) :: failedE err (LogLeasingsFailed err))
      (failedR err)
| TT_leases_panic txs :
    (forall ra, leasingsLoop txs 0 0 (repeat zeroDigest (List.length txs)) <> Val ra) ->
    TailTrace lib node epoch fuel ctx cl dry scheme sk pk addr
      [ReqActive addr (Ok txs)] Panic
| TT_fee_failed txs ids total fe err :
    leasingsLoop txs 0 0 (repeat zeroDigest (List.length txs)) = Val (ids, total) ->
    (fe = [] \/ exists req v, fe = [ReqDo req v]
                              /\ (v = Err err
                                  \/ exists rsp body, v = Ok (rsp, body)
                                       /\ StatusCode rsp <> http_StatusOK)) ->
    TailTrace lib node epoch fuel ctx cl dry scheme sk pk addr
      (ReqActive addr (Ok txs) :: Log (LogFound (List.length ids) addr total)
         :: fe ++ failedE err (LogExtraFeeFailed addr err))
      (failedR err)
| TT_loop txs ids total req rsp body s2 :
    leasingsLoop txs 0 0 (repeat zeroDigest (List.length txs)) = Val (ids, total) ->
    StatusCode rsp = http_StatusOK ->
    let o := cancelLoop lib node epoch fuel ctx cl dry scheme sk pk
               (add64 standardFee (ExtraFee body)) 0 ids s2 in
    TailTrace lib node epoch fuel ctx cl dry scheme sk pk addr
      (ReqActive addr (Ok txs) :: Log (LogFound (List.length ids) addr total)
         :: ReqDo req (Ok (rsp, body))
         :: Log (if negb (ExtraFee body =? 0) then LogExtraFee (ExtraFee body)
                 else LogNoExtraFee)
         :: events (evs o)
         ++ match res o with
            | Val None => [Log (LogCreated (List.length ids)); Log LogOK]
            | _ => []
            end)
      (res o).

(** The log lines [run] may write before it contacts the node. *)
Definition headE (fl : Flags) : list event :=
  optE ((accountPK fl =? "")%string
        || (1 <? List.length (strings_Fields (accountPK fl)))%nat) (Log LogNoPK)
  ++ optE (dryRun fl) (Log LogDryRun).

(** The trace up to the scheme, and the key derivation of [parseSK]. *)
Definition connE (fl : Flags) (cl : Client) : list event :=
  headE fl ++ [ReqHeight None; Log (LogConnected (BaseUrl cl))].
Definition schemeE (fl : Flags) (cl : Client) (b : Block) (scheme : Scheme)
    : list event :=
  connE fl cl ++ [ReqLast (Ok b); Log (LogScheme scheme)].
Definition keyE (lib : Lib) (fl : Flags) (scheme : Scheme) (sk : SecretKey)
    : list event :=
  [CallNewSecretKey (accountSK fl) (Ok sk);
   CallGeneratePublicKey sk (GeneratePublicKey lib sk);
   CallNewAddress scheme (GeneratePublicKey lib sk)
     (NewAddressFromPublicKey lib scheme (GeneratePublicKey lib sk))].

(** The traces of [run], without time stamps, with the way it ends. *)
Inductive RunTrace (lib : Lib) (node : Node) (epoch : Z) (fuel : nat)
    (interruptAt : option Z) (fl : Flags)
  : list event -> outcome (option goerror) -> Prop :=
| RT_rejected l r :
    paramsOK fl = false ->
    (l, r) = (LogUsage, None) \/ (l, r) = (LogVersion, None)
    \/ (l, r) = (LogInvalidURL (nodeURL fl), Some errInvalidParameters)
    \/ (l, r) = (LogInvalidSK (accountSK fl), Some errInvalidParameters) ->
    RunTrace lib node epoch fuel interruptAt fl [Log l] (Val r)
| RT_connect_failed ne err :
    paramsOK fl = true ->
    (ne = [] \/ ne = [ReqHeight (Some err)]) ->
    RunTrace lib node epoch fuel interruptAt fl
      (headE fl ++ ne ++ failedE err (LogConnectFailed (nodeURL fl) err))
      (failedR err)
| RT_scheme_failed cl err :
    paramsOK fl = true ->
    RunTrace lib node epoch fuel interruptAt fl
      (connE fl cl ++ ReqLast (Err err) :: failedE err (LogSchemeFailed err))
      (failedR err)
| RT_key_failed cl b scheme err :
    paramsOK fl = true ->
    nth_error (Generator b) 1 = Some scheme ->
    NewSecretKeyFromBase58 lib (accountSK fl) = Err err ->
    RunTrace lib node epoch fuel interruptAt fl
      (schemeE fl cl b scheme
         ++ [CallNewSecretKey (accountSK fl) (Err err); Log (LogParseSKFailed err)])
      (Val (Some errFailure))
| RT_address_failed cl b scheme sk err :
    paramsOK fl = true ->
    nth_error (Generator b) 1 = Some scheme ->
    NewSecretKeyFromBase58 lib (accountSK fl) = Ok sk ->
    NewAddressFromPublicKey lib scheme (GeneratePublicKey lib sk) = Err err ->
    RunTrace lib node epoch fuel interruptAt fl
      (schemeE fl cl b scheme ++ keyE lib fl scheme sk ++ [Log (LogParseSKFailed err)])
      (Val (Some errFailure))
| RT_override_key_failed cl b scheme sk err :
    paramsOK fl = true ->
    nth_error (Generator b) 1 = Some scheme ->
    NewSecretKeyFromBase58 lib (accountSK fl) = Ok sk ->
    (accountPK fl =? "")%string = false ->
    NewPublicKeyFromBase58 lib (accountPK fl) = Err err ->
    RunTrace lib node epoch fuel interruptAt fl
      (schemeE fl cl b scheme ++ keyE lib fl scheme sk
         ++ [CallNewPublicKey (accountPK fl) (Err err); Log (LogParsePKFailed err)])
      (Val (Some errFailure))
| RT_override_address_failed cl b scheme sk pk err :
    paramsOK fl = true ->
    nth_error (Generator b) 1 = Some scheme ->
    NewSecretKeyFromBase58 lib (accountSK fl) = Ok sk ->
    (accountPK fl =? "")%string = false ->
    NewPublicKeyFromBase58 lib (accountPK fl) = Ok pk ->
    NewAddressFromPublicKey lib scheme pk = Err err ->
    RunTrace lib node epoch fuel interruptAt fl
      (schemeE fl cl b scheme ++ keyE lib fl scheme sk
         ++ [CallNewPublicKey (accountPK fl) (Ok pk);
             CallNewAddress scheme pk (Err err); Log (LogAddressFailed err)])
      (Val (Some errFailure))
| RT_account cl b scheme sk pk addr tl r :
    paramsOK fl = true ->
    nth_error (Generator b) 1 = Some scheme ->
    NewSecretKeyFromBase58 lib (accountSK fl) = Ok sk ->
    (if (accountPK fl =? "")%string
     then pk = GeneratePublicKey lib sk
     else NewPublicKeyFromBase58 lib (accountPK fl) = Ok pk) ->
    NewAddressFromPublicKey lib scheme pk = Ok addr ->
    TailTrace lib node epoch fuel {| doneAt := interruptAt |} cl (dryRun fl)
              scheme sk pk addr tl r ->
    RunTrace lib node epoch fuel interruptAt fl
      (schemeE fl cl b scheme ++ keyE lib fl scheme sk
         ++ (if (accountPK fl =? "")%string then []
             else [CallNewPublicKey (accountPK fl) (Ok pk);
                   CallNewAddress scheme pk (Ok addr)])
         ++ Log (LogPublicKey pk) :: Log (LogAddress addr) :: tl)
      r.

(** A request that came back with an error that is [context.Canceled]. *)
Definition cancelledReq (e : event) : bool :=
  match e with
  | ReqHeight (Some err) | ReqBroadcast _ (Some err) => is_Canceled err
  | ReqLast (Err err) | ReqActive _ (Err err) | ReqDo _ (Err err) => is_Canceled err
  | ReqInfo _ (_, err) => errors_Is_Canceled err
  | _ => false
  end.

(** The network schemes an event shows in use. *)
Definition schemesOf (e : event) : list Scheme :=
  match e with
  | Log (LogScheme sch) => [sch]
  | CallNewAddress sch _ _ => [sch]
  | CallSign sch _ tx _ => [sch; ChainID tx]
  | CallMarshal tx _ | ReqBroadcast tx _ => [ChainID tx]
  | _ => []
  end.

(** The stage of [run] an event belongs to: 1 the connectivity probe, 2 the
    scheme, 3 the keys and addresses, 4 the leases, 5 the surcharge, 6 the
    cancellation loop.  Log lines are written at every stage. *)
Definition isLog (e : event) : bool :=
  match e with Log _ => true | _ => false end.
Definition stage (e : event) : nat :=
  match e with
  | Log _ => 0
  | ReqHeight _ => 1
  | ReqLast _ => 2
  | CallNewSecretKey _ _ | CallGeneratePublicKey _ _
  | CallNewPublicKey _ _ | CallNewAddress _ _ _ => 3
  | ReqActive _ _ => 4
  | ReqDo _ _ => 5
  | CallSign _ _ _ _ | CallMarshal _ _ | ReqBroadcast _ _ | ReqInfo _ _
  | Sleep _ => 6
  end.
Definition stages (t : list event) : list nat :=
  map stage (filter (fun e => negb (isLog e)) t).

(** Stage [b] may come after stage [a]: a later stage, or the same one for
    the two stages that take several steps. *)
Definition follows (a b : nat) : Prop :=
  (a < b)%nat \/ (a = b /\ (a = 3%nat \/ a = 6%nat)).

(** The log lines the cancellation loop writes. *)
Definition isLoopLog (l : logline) : bool :=
  match l with
  | LogSignFailed _ | LogJSONFailed _ | LogTxJSON _ _ | LogTxID _ _
  | LogBroadcastFailed _ | LogWaiting _ => true
  | _ => false
  end.

(** What the cancellation loop leaves in the trace: its log lines, and the
    signing, serializing and submitting of transactions on [scheme]. *)
Definition inLoop (scheme : Scheme) (e : event) : Prop :=
  match e with
  | Log l => isLoopLog l = true
  | _ => stage e = 6%nat
  end
  /\ forall sch, In sch (schemesOf e) -> sch = scheme.

(** The replies a run cannot cope with: a list of active leases with an
    entry that has no identifier, and a failed status query that comes
    without a response. *)
Definition isFatalReply (e : event) : Prop :=
  match e with
  | ReqActive _ (Ok txs) => In None (map lease_ID txs)
  | ReqInfo _ (None, err) => errors_Is_Canceled err = false
  | _ => False
  end.

(** The log line of the branch of [run] taken when [track] fails other
    than by cancellation (canceller.go 196). *)
Definition isTrackFailure (e : event) : bool :=
  match e with Log (LogTrackFailed _) => true | _ => false end.

(** * Properties *)

(** ** The monad *)

Lemma bind_val {A B} (m : M A) (k : A -> M B) s a :
  res (m s) = Val a ->
  bind m k s = mkOut (res (k a (fin (m s)))) (fin (k a (fin (m s))))
                     (evs (m s) ++ evs (k a (fin (m s)))).
Proof.
  intros H. unfold bind. destruct (m s) as [r s1 e1]. cbn in H. subst r.
  cbn. now destruct (k a s1).
Qed.

(** A request always comes back, with one event stamped at its start. *)
Lemma request_out {A} ctx (ev : A -> event) ep cancelled s :
  exists v s',
    request ctx ev ep cancelled s = mkOut (Val v) s' [(clock s, ev v)]
    /\ calls s' = S (calls s)
    /\ clock s <= clock s'.
Proof.
  unfold request. destruct (doneAt ctx) as [c|].
  - destruct (c <=? clock s + Z.max 0 (latency (ep (calls s)))).
    + eexists _, _. split; [reflexivity|]. cbn. split; [reflexivity | lia].
    + eexists _, _. split; [reflexivity|]. cbn. split; [reflexivity | lia].
  - eexists _, _. split; [reflexivity|]. cbn. split; [reflexivity | lia].
Qed.

(** Stepping through a computation: what ran first goes in front of the
    trace of the rest. *)
Lemma bind_after {A B} (m : M A) (k : A -> M B) s a s1 e1 :
  m s = mkOut (Val a) s1 e1 -> bind m k s = after e1 (k a s1).
Proof. intros H. unfold bind, after. rewrite H. now destruct (k a s1). Qed.

Lemma bind_unfold {A B} (m : M A) (k : A -> M B) s :
  bind m k s
  = match res (m s) with
    | Val a => after (evs (m s)) (k a (fin (m s)))
    | Panic => mkOut Panic (fin (m s)) (evs (m s))
    | Spin => mkOut Spin (fin (m s)) (evs (m s))
    end.
Proof.
  unfold bind, after. destruct (m s) as [[a| |] s1 e1]; cbn; [|reflexivity..].
  now destruct (k a s1).
Qed.

Lemma bind_ret {A B} (a : A) (k : A -> M B) s : bind (ret a) k s = k a s.
Proof. unfold bind, ret. now destruct (k a s). Qed.

Lemma bind_log {B} l (k : unit -> M B) s :
  bind (log l) k s = after [(clock s, Log l)] (k tt s).
Proof. now apply bind_after. Qed.

Lemma call_out {A} (ev : A -> event) a s :
  call ev a s = mkOut (Val a) s [(clock s, ev a)].
Proof. reflexivity. Qed.

Lemma bind_call {A B} (ev : A -> event) a (k : A -> M B) s :
  bind (call ev a) k s = after [(clock s, ev a)] (k a s).
Proof. now apply bind_after. Qed.

Lemma bind_request {A B} ctx (ev : A -> event) ep cancelled (k : A -> M B) s :
  exists v s1,
    bind (request ctx ev ep cancelled) k s = after [(clock s, ev v)] (k v s1)
    /\ res (request ctx ev ep cancelled s) = Val v.
Proof.
  destruct (request_out ctx ev ep cancelled s) as (v & s1 & E & _).
  exists v, s1. split; [now apply bind_after | now rewrite E].
Qed.

Lemma after_after {A} e1 e2 (o : Out A) :
  after e1 (after e2 o) = after (e1 ++ e2) o.
Proof. unfold after. cbn. now rewrite app_assoc. Qed.

Lemma after_nil {A} (o : Out A) : after [] o = o.
Proof. now destruct o. Qed.

Lemma after_mkOut {A} e1 (r : outcome A) s e2 :
  after e1 (mkOut r s e2) = mkOut r s (e1 ++ e2).
Proof. reflexivity. Qed.

(** ** Arithmetic on [uint64] *)

Lemma two64_pos : 0 < two64.
Proof. reflexivity. Qed.

Lemma sum64_from_mod (l : list Z) : forall a,
  sum64_from (a mod two64) l = (a + sumZ l) mod two64.
Proof.
  induction l as [|x l IH]; intros a; cbn [sum64_from fold_left sumZ fold_right].
  - now rewrite Z.add_0_r.
  - unfold add64 at 2. fold (sum64_from ((a mod two64 + x) mod two64) l).
    rewrite IH. rewrite Z.add_assoc.
    rewrite <- (Z.add_mod_idemp_l (a mod two64 + x)) by (cbv; discriminate).
    rewrite (Z.add_mod_idemp_l a x) by (cbv; discriminate).
    rewrite Z.add_mod_idemp_l by (cbv; discriminate). reflexivity.
Qed.

Lemma sum64_mod (l : list Z) : sum64 l = sumZ l mod two64.
Proof. unfold sum64. change 0 with (0 mod two64) at 1. now rewrite sum64_from_mod. Qed.

Lemma sumZ_nonneg (l : list Z) : Forall is_uint64 l -> 0 <= sumZ l.
Proof.
  unfold sumZ. induction 1 as [|x l Hx _ IH]; cbn; [lia|].
  unfold is_uint64 in Hx. lia.
Qed.

(** ** [getActiveLeasings] *)

Lemma update_app_length {A} (pre : list A) x y post :
  update (pre ++ x :: post) (List.length pre) y = pre ++ y :: post.
Proof. induction pre as [|h pre IH]; cbn; [reflexivity | now rewrite IH]. Qed.

Lemma leasingsLoop_ok (txs : list LeaseWithSig) :
  forall ids pre amount,
    map lease_ID txs = map Some ids ->
    leasingsLoop txs (List.length pre) amount
                 (pre ++ repeat zeroDigest (List.length txs))
    = Val (pre ++ ids, sum64_from amount (map lease_Amount txs)).
Proof.
  induction txs as [|tx txs IH]; intros ids pre amount Hids.
  - destruct ids; [|discriminate]. cbn. now rewrite !app_nil_r.
  - destruct ids as [|id ids]; [discriminate|]. cbn in Hids.
    injection Hids as Hid Hrest. cbn [leasingsLoop List.length repeat].
    rewrite Hid, update_app_length.
    replace (pre ++ id :: repeat zeroDigest (List.length txs))
      with ((pre ++ [id]) ++ repeat zeroDigest (List.length txs))
      by now rewrite <- app_assoc.
    replace (S (List.length pre)) with (List.length (pre ++ [id]))
      by (rewrite length_app; cbn; lia).
    rewrite (IH ids (pre ++ [id]) _ Hrest). now rewrite <- app_assoc.
Qed.

Lemma leasingsLoop_nil_ID (txs : list LeaseWithSig) :
  forall i amount r,
    In None (map lease_ID txs) -> leasingsLoop txs i amount r = Panic.
Proof.
  induction txs as [|tx txs IH]; intros i amount r Hin; [destruct Hin|].
  cbn in Hin |- *. destruct (lease_ID tx); [|reflexivity].
  destruct Hin as [Hin|Hin]; [discriminate|]. now apply IH.
Qed.

(** C9 (amended).  When the node answers the lease query with [txs] and
    every entry carries an identifier, [getActiveLeasings] returns the
    identifiers in the node's order (the i-th identifier is the one of the
    i-th lease) with the total of the amounts computed in [uint64], that is
    modulo 2^64; the total is the exact sum whenever that sum fits in 64
    bits; an empty answer gives the empty sequence and total 0 without
    error. *)
Theorem getActiveLeasings_order_and_total
    node ctx cl addr s (txs : list LeaseWithSig) (ids : list Digest) :
  res (cl_Leasing_Active node ctx addr s) = Val (Ok txs) ->
  map lease_ID txs = map Some ids ->
  let amounts := map lease_Amount txs in
  res (getActiveLeasings node ctx cl addr s)
    = Val (Ok (ids, sumZ amounts mod two64))
  /\ (forall i, nth_error ids i
                = match nth_error txs i with
                  | Some tx => lease_ID tx
                  | None => None
                  end)
  /\ (Forall is_uint64 amounts -> sumZ amounts < two64 ->
      res (getActiveLeasings node ctx cl addr s) = Val (Ok (ids, sumZ amounts)))
  /\ (txs = [] ->
      res (getActiveLeasings node ctx cl addr s) = Val (Ok ([], 0))).
Proof.
  intros Hreply Hids amounts.
  assert (Hres : res (getActiveLeasings node ctx cl addr s)
                 = Val (Ok (ids, sumZ amounts mod two64))).
  { unfold getActiveLeasings. rewrite (bind_val _ _ _ _ Hreply). cbn [res].
    pose proof (leasingsLoop_ok txs ids [] 0 Hids) as HL. cbn [List.length app] in HL.
    rewrite HL. cbn. fold (sum64 (map lease_Amount txs)).
    now rewrite sum64_mod. }
  split; [exact Hres|]. split; [|split].
  - intros i. clear -Hids. revert ids i Hids.
    induction txs as [|tx txs IH]; intros [|id ids] i Hids; try discriminate.
    + now destruct i.
    + cbn in Hids. injection Hids as Hid Hrest.
      destruct i as [|i]; cbn; [now rewrite Hid | now apply IH].
  - intros Hrange Hfit. rewrite Hres.
    rewrite Z.mod_small; [reflexivity|].
    split; [now apply sumZ_nonneg | exact Hfit].
  - intros ->. destruct ids; [|discriminate]. exact Hres.
Qed.

Lemma getActiveLeasings_order_and_total_witness :
  res (getActiveLeasings Demo.node3 Demo.never Demo.cl [] Demo.start)
  = Val (Ok ([Demo.bytes_of_string "a"; Demo.bytes_of_string "b";
              Demo.bytes_of_string "c"], 23)).
Proof.
  exact (proj1 (getActiveLeasings_order_and_total
                  Demo.node3 Demo.never Demo.cl [] Demo.start _
                  [Demo.bytes_of_string "a"; Demo.bytes_of_string "b";
                   Demo.bytes_of_string "c"] eq_refl eq_refl)).
Defined.

(** C9 as stated fails: two leases of 2^63 each are returned with total 0,
    not with the sum 2^64 of their amounts. *)
Lemma getActiveLeasings_total_wraps :
  let txs := [Demo.lease "a" (2 ^ 63); Demo.lease "b" (2 ^ 63)] in
  let o := getActiveLeasings Demo.nodeBig Demo.never Demo.cl [] Demo.start in
  res (cl_Leasing_Active Demo.nodeBig Demo.never [] Demo.start) = Val (Ok txs)
  /\ Forall is_uint64 (map lease_Amount txs)
  /\ res o = Val (Ok ([Demo.bytes_of_string "a"; Demo.bytes_of_string "b"], 0))
  /\ sumZ (map lease_Amount txs) = 18446744073709551616
  /\ res o <> Val (Ok ([Demo.bytes_of_string "a"; Demo.bytes_of_string "b"],
                       sumZ (map lease_Amount txs))).
Proof.
  cbv zeta. split; [reflexivity|]. split.
  { repeat constructor; cbv; congruence. }
  split; [reflexivity|]. split; [reflexivity|]. discriminate.
Qed.

(** ** [track] *)

Lemma Info_out node ctx id s :
  exists rsp err s1,
    cl_Transactions_Info node ctx id s
      = mkOut (Val (rsp, err)) s1 [(clock s, ReqInfo id (rsp, err))]
    /\ calls s1 = S (calls s) /\ clock s <= clock s1.
Proof.
  unfold cl_Transactions_Info.
  destruct (request_out ctx (ReqInfo id) (Transactions_Info node id)
                        (None, Some (Abandoned node)) s) as ([rsp err] & s1 & E & H).
  now exists rsp, err, s1.
Qed.

(** One turn of the poll, spelled out on what the status query returned. *)
Lemma trackTurn_out node ctx cl id s rsp err s1 :
  cl_Transactions_Info node ctx id s
    = mkOut (Val (rsp, err)) s1 [(clock s, ReqInfo id (rsp, err))] ->
  trackTurn node ctx cl id s
  = if errors_Is_Canceled err
    then mkOut (Val (Some err)) s1 [(clock s, ReqInfo id (rsp, err))]
    else
      match rsp with
      | None => mkOut Panic s1 [(clock s, ReqInfo id (rsp, err))]
      | Some r =>
          if StatusCode r =? http_StatusOK
          then mkOut (Val (Some None)) s1 [(clock s, ReqInfo id (rsp, err))]
          else mkOut (Val None)
                     {| clock := clock s1 + time_Second; calls := calls s1 |}
                     [(clock s, ReqInfo id (rsp, err)); (clock s1, Sleep time_Second)]
      end.
Proof.
  intros E. unfold trackTurn, bind. rewrite E.
  destruct (errors_Is_Canceled err); [reflexivity|].
  destruct rsp as [r|]; [|reflexivity].
  destruct (StatusCode r =? http_StatusOK); reflexivity.
Qed.

(** The loop, one turn unrolled. *)
Lemma trackLoop_step node (fuel : nat) ctx cl id s rsp err s1 :
  cl_Transactions_Info node ctx id s
    = mkOut (Val (rsp, err)) s1 [(clock s, ReqInfo id (rsp, err))] ->
  trackLoop node (S fuel) ctx cl id s
  = if errors_Is_Canceled err
    then mkOut (Val err) s1 [(clock s, ReqInfo id (rsp, err))]
    else
      match rsp with
      | None => mkOut Panic s1 [(clock s, ReqInfo id (rsp, err))]
      | Some r =>
          if StatusCode r =? http_StatusOK
          then mkOut (Val None) s1 [(clock s, ReqInfo id (rsp, err))]
          else
            let o := trackLoop node fuel ctx cl id
                       {| clock := clock s1 + time_Second; calls := calls s1 |} in
            mkOut (res o) (fin o)
                  ((clock s, ReqInfo id (rsp, err))
                     :: (clock s1, Sleep time_Second) :: evs o)
      end.
Proof.
  intros E. cbn [trackLoop]. unfold bind at 1.
  rewrite (trackTurn_out _ _ cl _ _ _ _ _ E).
  destruct (errors_Is_Canceled err); [reflexivity|].
  destruct rsp as [r|]; [|reflexivity].
  destruct (StatusCode r =? http_StatusOK); [reflexivity|].
  cbn zeta. now destruct (trackLoop node fuel ctx cl id _) as [[a| |] s' e'].
Qed.

(** [track] is its loop after one log line. *)
Lemma track_out node (fuel : nat) ctx cl id s :
  track node fuel ctx cl id s
  = let o := trackLoop node fuel ctx cl id s in
    mkOut (res o) (fin o) ((clock s, Log (LogWaiting id)) :: evs o).
Proof.
  unfold track, bind, log, emit. cbn zeta.
  now destruct (trackLoop node fuel ctx cl id s) as [[a| |] s' e'].
Qed.

(** C10.  In a turn of the poll whose status query returned an error that is
    not a cancellation, the turn still reads the response's status code: with
    a response present the turn ends the poll on 200 and goes on otherwise;
    with no response the read is a nil dereference, and nothing guards it. *)
Theorem trackTurn_error_reads_status node ctx cl id s rsp e :
  res (cl_Transactions_Info node ctx id s) = Val (rsp, Some e) ->
  is_Canceled e = false ->
  res (trackTurn node ctx cl id s)
  = match rsp with
    | Some r => if StatusCode r =? http_StatusOK then Val (Some None) else Val None
    | None => Panic
    end.
Proof.
  intros Hinfo Hnc.
  destruct (Info_out node ctx id s) as (rsp' & err' & s1 & E & _).
  rewrite E in Hinfo. cbn in Hinfo. injection Hinfo as -> ->.
  rewrite (trackTurn_out _ _ _ _ _ _ _ _ E). cbn [errors_Is_Canceled].
  rewrite Hnc. destruct rsp as [r|]; [|reflexivity].
  destruct (StatusCode r =? http_StatusOK); reflexivity.
Qed.

Lemma trackTurn_error_reads_status_witness :
  res (trackTurn Demo.nodeNever Demo.never Demo.cl [] Demo.start) = Val None
  /\ res (trackTurn Demo.nodeGone Demo.never Demo.cl [] Demo.start) = Panic.
Proof.
  split.
  - exact (trackTurn_error_reads_status Demo.nodeNever Demo.never Demo.cl []
             Demo.start (Some {| StatusCode := 404 |})
             (errorString "404 Not Found") eq_refl eq_refl).
  - exact (trackTurn_error_reads_status Demo.nodeGone Demo.never Demo.cl []
             Demo.start None (errorString "connection refused") eq_refl eq_refl).
Defined.

(** The trace of the poll loop has the shape [pollTrace]: the loop ends
    normally only on a 200 or on a cancellation, and between two status
    queries there is exactly one sleep of one second. *)
Lemma trackLoop_pollTrace node ctx cl id (fuel : nat) :
  forall s,
    pollTrace id (events (evs (trackLoop node fuel ctx cl id s)))
              (res (trackLoop node fuel ctx cl id s)).
Proof.
  induction fuel as [|fuel IH]; intros s.
  - cbn. constructor.
  - destruct (Info_out node ctx id s) as (rsp & err & s1 & E & _).
    rewrite (trackLoop_step _ _ _ _ _ _ _ _ _ E).
    destruct (errors_Is_Canceled err) eqn:Hc.
    + cbn. destruct err as [e|]; [|discriminate]. now constructor.
    + destruct rsp as [r|]; [|cbn; now constructor].
      destruct (StatusCode r =? http_StatusOK) eqn:Hs.
      * cbn. constructor; [exact Hc | now apply Z.eqb_eq].
      * cbn. constructor; [exact Hc | now apply Z.eqb_neq | apply IH].
Qed.

(** C3, at the input on which the poll breaks.  When a status query fails in
    transport so that the client returns no response together with an error
    that is not a cancellation, [track] neither retries nor returns: it
    panics on reading the status code. *)
Theorem track_aborts_on_transport_error node ctx cl id s e (fuel : nat) :
  res (cl_Transactions_Info node ctx id s) = Val (None, Some e) ->
  is_Canceled e = false ->
  res (track node (S fuel) ctx cl id s) = Panic.
Proof.
  intros Hinfo Hnc. rewrite track_out. cbn zeta. cbn [res].
  destruct (Info_out node ctx id s) as (rsp & err & s1 & E & _).
  rewrite E in Hinfo. cbn in Hinfo. injection Hinfo as -> ->.
  rewrite (trackLoop_step _ _ _ _ _ _ _ _ _ E).
  cbn [errors_Is_Canceled]. now rewrite Hnc.
Qed.

Lemma track_aborts_on_transport_error_witness :
  res (track Demo.nodeGone 100 Demo.never Demo.cl [] Demo.start) = Panic.
Proof.
  exact (track_aborts_on_transport_error Demo.nodeGone Demo.never Demo.cl []
           Demo.start (errorString "connection refused") 99 eq_refl eq_refl).
Defined.

(** *** The poll has no bound on its attempts *)

Lemma request_never_done {A} ctx (ev : A -> event) ep cancelled s :
  doneAt ctx = None ->
  request ctx ev ep cancelled s
  = mkOut (Val (payload (ep (calls s))))
          {| clock := clock s + Z.max 0 (latency (ep (calls s)));
             calls := S (calls s) |}
          [(clock s, ev (payload (ep (calls s))))].
Proof. intros H. unfold request. now rewrite H. Qed.

(** As long as the node keeps answering "not known" and nobody cancels, the
    poll goes on: whatever number of turns the model follows, the loop is
    still running after them, having made that many status queries. *)
Lemma trackLoop_unbounded node ctx cl id :
  doneAt ctx = None ->
  (forall n, exists r err,
      payload (Transactions_Info node id n) = (Some r, err)
      /\ errors_Is_Canceled err = false /\ StatusCode r <> http_StatusOK) ->
  forall (fuel : nat) s,
    res (trackLoop node fuel ctx cl id s) = Spin
    /\ List.length (filter (fun e => match e with ReqInfo _ _ => true | _ => false end)
                      (events (evs (trackLoop node fuel ctx cl id s)))) = fuel
    /\ clock s + Z.of_nat fuel * time_Second <= clock (fin (trackLoop node fuel ctx cl id s)).
Proof.
  intros Hnever Hnode. induction fuel as [|fuel IH]; intros s.
  - cbn. repeat split; lia.
  - destruct (Hnode (calls s)) as (r & err & Hp & Hc & Hs).
    assert (E := request_never_done ctx (ReqInfo id) (Transactions_Info node id)
                   (None, Some (Abandoned node)) s Hnever).
    rewrite Hp in E. fold (cl_Transactions_Info node ctx id) in E.
    rewrite (trackLoop_step _ _ _ cl _ _ _ _ _ E).
    rewrite Hc. apply Z.eqb_neq in Hs. rewrite Hs. cbn zeta.
    cbn [res fin evs clock calls].
    match goal with |- context [trackLoop node fuel ctx cl id ?s'] =>
      destruct (IH s') as (Hr & Hl & Hk); cbn [clock] in Hk end.
    split; [exact Hr|]. split.
    + unfold events in *. cbn [map snd filter List.length]. now rewrite Hl.
    + unfold time_Second in *. lia.
Qed.

(** *** Cancellation and time *)

Lemma Info_done node ctx c id s :
  doneAt ctx = Some c ->
  let arrive := clock s + Z.max 0 (latency (Transactions_Info node id (calls s))) in
  cl_Transactions_Info node ctx id s
  = if c <=? arrive
    then mkOut (Val (None, Some (Abandoned node)))
               {| clock := Z.max (clock s) c; calls := S (calls s) |}
               [(clock s, ReqInfo id (None, Some (Abandoned node)))]
    else mkOut (Val (payload (Transactions_Info node id (calls s))))
               {| clock := arrive; calls := S (calls s) |}
               [(clock s, ReqInfo id (payload (Transactions_Info node id (calls s))))].
Proof. intros H. unfold cl_Transactions_Info, request. now rewrite H. Qed.



(** ** The cancellation loop of [run] *)

Lemma builtTxs_app t1 t2 : builtTxs (t1 ++ t2) = builtTxs t1 ++ builtTxs t2.
Proof.
  induction t1 as [|[c e] t1 IH]; [reflexivity|].
  cbn [app builtTxs]. destruct e; rewrite IH; reflexivity.
Qed.

Lemma processedTxs_app t1 t2 :
  processedTxs (t1 ++ t2) = processedTxs t1 ++ processedTxs t2.
Proof.
  induction t1 as [|[c e] t1 IH]; [reflexivity|].
  cbn [app processedTxs]. destruct e; rewrite IH; reflexivity.
Qed.

Lemma trackLoop_events node ctx cl id (fuel : nat) :
  forall s, Forall (fun te => isPollEvent (snd te) = true)
                   (evs (trackLoop node fuel ctx cl id s)).
Proof.
  induction fuel as [|fuel IH]; intros s; [constructor|].
  destruct (Info_out node ctx id s) as (rsp & err & s1 & E & _).
  rewrite (trackLoop_step _ _ _ _ _ _ _ _ _ E).
  destruct (errors_Is_Canceled err); [repeat constructor|].
  destruct rsp as [r|]; [|repeat constructor].
  destruct (StatusCode r =? http_StatusOK); [repeat constructor|].
  cbn zeta. cbn [evs]. repeat (constructor; [reflexivity|]). apply IH.
Qed.

Lemma track_events node ctx cl id (fuel : nat) s :
  Forall (fun te => isPollEvent (snd te) = true) (evs (track node fuel ctx cl id s)).
Proof.
  rewrite track_out. cbn zeta. cbn [evs]. constructor; [reflexivity|].
  apply trackLoop_events.
Qed.

Lemma marshalledJSON_app t1 t2 :
  marshalledJSON (t1 ++ t2) = marshalledJSON t1 ++ marshalledJSON t2.
Proof.
  induction t1 as [|[c e] t1 IH]; [reflexivity|].
  cbn [app marshalledJSON]. destruct e as [| | | | | |tx [js|]| | | | | | |];
    rewrite IH; reflexivity.
Qed.

Lemma loggedJSON_app t1 t2 :
  loggedJSON (t1 ++ t2) = loggedJSON t1 ++ loggedJSON t2.
Proof.
  induction t1 as [|[c e] t1 IH]; [reflexivity|].
  cbn [app loggedJSON]. destruct e as [l| | | | | | | | | | | | |];
    try (rewrite IH; reflexivity). destruct l; rewrite IH; reflexivity.
Qed.

Lemma poll_builtTxs t :
  Forall (fun te => isPollEvent (snd te) = true) t ->
  builtTxs t = [] /\ processedTxs t = []
  /\ (forall scheme sk, Forall (fun te => loopEvent scheme sk (snd te)) t)
  /\ loggedJSON t = [] /\ marshalledJSON t = [].
Proof.
  induction 1 as [|[c e] t He _ (IH1 & IH2 & IH3 & IH4 & IH5)];
    [repeat split; constructor|].
  cbn in He. destruct e as [l| | | | | | | | | | | | |];
    try discriminate; cbn [builtTxs processedTxs marshalledJSON];
    (split; [exact IH1|]; split; [exact IH2|]; split;
     [intros scheme sk; constructor; [exact I | apply IH3]|]; split; [|exact IH5]);
    try exact IH4.
  destruct l; try discriminate. exact IH4.
Qed.

Lemma Sign_out lib scheme sk tx s :
  Sign lib scheme sk tx s
  = mkOut (Val match signBody lib scheme sk tx with
               | Ok (id, proofs) =>
                   Ok {| Version := Version tx; ChainID := ChainID tx;
                         SenderPK := SenderPK tx; LeaseID := LeaseID tx;
                         Fee := Fee tx; Timestamp := Timestamp tx;
                         ID := Some id; Proofs := Some proofs |}
               | Err e => Err e
               end)
          s [(clock s, CallSign scheme sk tx (signBody lib scheme sk tx))].
Proof.
  unfold Sign. rewrite bind_call.
  destruct (signBody lib scheme sk tx) as [[id proofs]|e]; reflexivity.
Qed.

Lemma failed_out err l s :
  failed err l s
  = if is_Canceled err then mkOut (Val (Some errUserTermination)) s []
    else mkOut (Val (Some errFailure)) s [(clock s, Log l)].
Proof. unfold failed. destruct (is_Canceled err); [reflexivity|]. now rewrite bind_log. Qed.

Lemma loopPost_stop scheme sk pk fee dry lease rest r s1 e1 cancel :
  builtTxs e1 = [cancel] ->
  LeaseID cancel = lease ->
  Version cancel = 2 /\ ChainID cancel = scheme /\ SenderPK cancel = pk
    /\ Fee cancel = fee ->
  Forall (fun te => loopEvent scheme sk (snd te)) e1 ->
  (dry = true -> Forall (fun te => isSubmission (snd te) = false) e1) ->
  loggedJSON e1 = marshalledJSON e1 ->
  r <> Val None ->
  loopPost scheme sk pk fee dry (lease :: rest) (mkOut r s1 e1).
Proof.
  intros Hb Hl Hc He Hd Hj Hr. unfold loopPost. cbn [evs res]. rewrite Hb.
  split; [exact He|]. split; [now constructor|]. split.
  - exists rest. cbn. rewrite Hl. split; [reflexivity | intros; contradiction].
  - split; [intros; contradiction | split; [exact Hd | exact Hj]].
Qed.

Lemma loopPost_cons scheme sk pk fee dry lease rest e1 o cancel signed :
  builtTxs e1 = [cancel] ->
  processedTxs e1 = [signed] ->
  LeaseID cancel = lease ->
  LeaseID signed = lease ->
  Version cancel = 2 /\ ChainID cancel = scheme /\ SenderPK cancel = pk
    /\ Fee cancel = fee ->
  Forall (fun te => loopEvent scheme sk (snd te)) e1 ->
  (dry = true -> Forall (fun te => isSubmission (snd te) = false) e1) ->
  loggedJSON e1 = marshalledJSON e1 ->
  loopPost scheme sk pk fee dry rest o ->
  loopPost scheme sk pk fee dry (lease :: rest) (after e1 o).
Proof.
  intros Hb Hp Hl Hl' Hc He Hd Hj (P1 & P2 & (rest' & P3 & P3') & P4 & P5 & P6).
  unfold loopPost, after. cbn [evs res].
  rewrite builtTxs_app, processedTxs_app, loggedJSON_app, marshalledJSON_app, Hb, Hp.
  cbn [app map].
  split; [apply Forall_app; now split|].
  split; [now constructor|]. split.
  - exists rest'. rewrite Hl. split; [now rewrite <- P3 | exact P3'].
  - split; [|split].
    + intros Hr. rewrite Hl'. now rewrite (P4 Hr).
    + intros Hdry. apply Forall_app. split; [now apply Hd | now apply P5].
    + now rewrite Hj, P6.
Qed.

Ltac use_cons cancel signed :=
  match goal with
  | |- loopPost ?sch ?sk ?pk ?fee ?dry (?lease :: ?rest) (after ?e ?o) =>
      apply (loopPost_cons sch sk pk fee dry lease rest e o cancel signed)
  end.

Ltac loop_events Hle :=
  repeat first [ apply Forall_nil
               | apply Forall_cons; [cbn; now auto|]
               | apply Forall_app; split
               | apply Hle ].

Ltac use_stop cancel :=
  match goal with
  | |- loopPost ?sch ?sk ?pk ?fee ?dry (?lease :: ?rest) (mkOut ?r ?s ?e) =>
      apply (loopPost_stop sch sk pk fee dry lease rest r s e cancel)
  end.

Lemma cancelLoop_post lib node epoch (fuel : nat) ctx cl dry scheme sk pk fee :
  forall leasings i s,
    loopPost scheme sk pk fee dry leasings
      (cancelLoop lib node epoch fuel ctx cl dry scheme sk pk fee i leasings s).
Proof.
  induction leasings as [|lease rest IH]; intros i s.
  - cbn. unfold loopPost. cbn. repeat split; try constructor.
    exists []. split; reflexivity.
  - cbn [cancelLoop].
    rewrite (bind_after (timestamp epoch) _ s _ s [] eq_refl), after_nil.
    set (cancel := NewUnsignedLeaseCancelWithProofs 2 scheme pk lease fee _).
    rewrite (bind_after _ _ _ _ _ _ (Sign_out lib scheme sk cancel s)).
    assert (Hcancel : Version cancel = 2 /\ ChainID cancel = scheme
                      /\ SenderPK cancel = pk /\ Fee cancel = fee)
      by (repeat split).
    destruct (signBody lib scheme sk cancel) as [[id proofs]|e] eqn:Hsign.
    + set (signed := {| Version := Version cancel; ChainID := _ |}).
      destruct dry.
      * rewrite bind_call.
        destruct (json_Marshal lib signed) as [b|e] eqn:Hjson.
        -- rewrite bind_log. rewrite !after_after. cbn [app].
           use_cons cancel signed; try reflexivity; try assumption;
             [repeat constructor | intros _; repeat constructor | apply IH].
        -- rewrite bind_log. unfold ret. rewrite !after_mkOut. cbn [app].
           use_stop cancel; try reflexivity; try assumption; try discriminate;
             [repeat constructor | intros _; repeat constructor].
      * cbn [ID signed]. rewrite bind_log.
        destruct (bind_request ctx (ReqBroadcast signed)
                    (Transactions_Broadcast node signed) (Some (Abandoned node))
                    (fun err => match err with
                       | Some err => failed err (LogBroadcastFailed err)
                       | None =>
                           err <- track node fuel ctx cl id ;;
                           match err with
                           | Some err => failed err (LogTrackFailed err)
                           | None => cancelLoop lib node epoch fuel ctx cl false
                                       scheme sk pk fee (i + 1) rest
                           end
                       end) s) as (v & s1 & E & _).
        unfold broadcast, cl_Transactions_Broadcast. rewrite E. clear E.
        destruct v as [err|].
        -- rewrite failed_out. destruct (is_Canceled err);
             rewrite !after_mkOut; cbn [app];
             (use_stop cancel;
              try reflexivity; try assumption; try discriminate;
              repeat constructor).
        -- rewrite bind_unfold.
           pose proof (track_events node ctx cl id fuel s1) as Hev.
           destruct (poll_builtTxs _ Hev) as (Hb & Hp & Hle & Hlj & Hmj).
           destruct (track node fuel ctx cl id s1) as [r s2 e2].
           cbn [res fin evs] in *.
           assert (Hj : forall post,
                     loggedJSON (e2 ++ post) = loggedJSON post
                     /\ marshalledJSON (e2 ++ post) = marshalledJSON post
                     /\ builtTxs (e2 ++ post) = builtTxs post).
           { intros post.
             now rewrite loggedJSON_app, marshalledJSON_app, builtTxs_app, Hlj, Hmj, Hb. }
           destruct r as [[err|]| |].
           ++ rewrite failed_out. destruct (is_Canceled err);
                rewrite !after_mkOut; cbn [app];
                (use_stop cancel;
                 [ cbn [builtTxs]; now rewrite (proj2 (proj2 (Hj _)))
                 | reflexivity | assumption | loop_events Hle | discriminate
                 | cbn [loggedJSON marshalledJSON];
                   now rewrite (proj1 (Hj _)), (proj1 (proj2 (Hj _)))
                 | discriminate ]).
           ++ rewrite !after_after. cbn [app].
              use_cons cancel signed;
                [ cbn [builtTxs]; now rewrite Hb
                | cbn [processedTxs]; rewrite Hp; reflexivity
                | reflexivity | reflexivity | assumption
                | loop_events Hle
                | discriminate
                | cbn [loggedJSON marshalledJSON]; now rewrite Hlj, Hmj
                | apply IH ].
           ++ rewrite !after_mkOut; cbn [app]. use_stop cancel;
                [ cbn [app builtTxs]; now rewrite Hb | reflexivity | assumption
                | loop_events Hle | discriminate
                | cbn [loggedJSON marshalledJSON]; now rewrite Hlj, Hmj
                | discriminate ].
           ++ rewrite !after_mkOut; cbn [app]. use_stop cancel;
                [ cbn [app builtTxs]; now rewrite Hb | reflexivity | assumption
                | loop_events Hle | discriminate
                | cbn [loggedJSON marshalledJSON]; now rewrite Hlj, Hmj
                | discriminate ].
    + rewrite bind_log. unfold ret. rewrite !after_mkOut. cbn [app].
      use_stop cancel; try reflexivity; try assumption; try discriminate;
        [repeat constructor | intros _; repeat constructor].
Qed.

(** ** The steps of [run] *)

Lemma optional_log_out (c : bool) l s :
  kind (Log l) = KLog ->
  exists e, (if c then log l else ret tt) s = mkOut (Val tt) s e /\ allOf KLog e.
Proof.
  intros Hl. destruct c.
  - eexists. split; [reflexivity|]. now repeat constructor.
  - exists []. split; [reflexivity|]. constructor.
Qed.

Lemma nodeClient_out lib node ctx url s :
  exists r s1 e1,
    nodeClient lib node ctx url s = mkOut (Val r) s1 e1 /\ allOf KHeight e1.
Proof.
  unfold nodeClient.
  destruct (if strings_Contains url "//" then _ else _) as [u|e];
    [|eexists _, _, []; split; [reflexivity | constructor]].
  destruct (_ && _); [eexists _, _, []; split; [reflexivity | constructor]|].
  destruct (client_NewClient lib _) as [cl'|e];
    [|eexists _, _, []; split; [reflexivity | constructor]].
  unfold cl_Blocks_Height.
  destruct (bind_request ctx ReqHeight (Blocks_Height node) (Some (Abandoned node))
              (fun err => match err with
                          | Some err => ret (Err err)
                          | None => ret (Ok cl')
                          end) s) as (v & s1 & E & _).
  rewrite E. destruct v as [err|]; unfold ret; rewrite after_mkOut;
    eexists _, _, _; (split; [reflexivity | repeat constructor]).
Qed.

(** The byte [getScheme] reads is there. *)
Lemma Generator_scheme (b : Block) :
  nth_error (Generator b) 1 = Some (nth 1 (Generator b) Byte.x00).
Proof.
  apply nth_error_nth'. rewrite Generator_size. unfold AddressSize. lia.
Qed.

Lemma getScheme_out node ctx cl s :
  exists r s1 e1,
    getScheme node ctx cl s = mkOut r s1 e1 /\ allOf KLast e1 /\ r <> Spin
    /\ forall scheme, r = Val (Ok scheme) ->
         exists b, e1 = [(clock s, ReqLast (Ok b))]
                   /\ nth_error (Generator b) 1 = Some scheme.
Proof.
  unfold getScheme, cl_Blocks_Last.
  destruct (bind_request ctx ReqLast (Blocks_Last node) (Err (Abandoned node))
              (fun r => match r with
                        | Err err => ret (Err err)
                        | Ok b => ret (Ok (nth 1 (Generator b) Byte.x00))
                        end) s) as (v & s1 & E & _).
  rewrite E. destruct v as [b|err]; unfold ret; rewrite after_mkOut; eexists _, _, _;
    (split; [reflexivity|]; split; [repeat constructor|]; split; [discriminate|]).
  - intros scheme [= <-]. exists b. split; [reflexivity | apply Generator_scheme].
  - discriminate.
Qed.

(** [parseSK] by cases on what the library returns. *)
Lemma parseSK_out lib scheme str s :
  parseSK lib scheme str s
  = match NewSecretKeyFromBase58 lib str with
    | Err err =>
        mkOut (Val (Err err)) s [(clock s, CallNewSecretKey str (Err err))]
    | Ok sk =>
        let pk := GeneratePublicKey lib sk in
        mkOut (Val match NewAddressFromPublicKey lib scheme pk with
                   | Err err => Err err
                   | Ok address => Ok (sk, pk, address)
                   end)
              s [(clock s, CallNewSecretKey str (Ok sk));
                 (clock s, CallGeneratePublicKey sk pk);
                 (clock s, CallNewAddress scheme pk
                             (NewAddressFromPublicKey lib scheme pk))]
    end.
Proof.
  unfold parseSK. rewrite bind_call.
  destruct (NewSecretKeyFromBase58 lib str) as [sk|err]; [|reflexivity].
  rewrite !bind_call. cbn zeta.
  destruct (NewAddressFromPublicKey lib scheme _); reflexivity.
Qed.

Lemma getActiveLeasings_out node ctx cl addr s :
  exists v s1,
    res (cl_Leasing_Active node ctx addr s) = Val v
    /\ getActiveLeasings node ctx cl addr s
       = mkOut match v with
               | Err err => Val (Err err)
               | Ok txs =>
                   match leasingsLoop txs 0 0 (repeat zeroDigest (List.length txs)) with
                   | Val ra => Val (Ok ra)
                   | _ => Panic
                   end
               end s1 [(clock s, ReqActive addr v)].
Proof.
  unfold getActiveLeasings, cl_Leasing_Active.
  destruct (bind_request ctx (ReqActive addr) (Leasing_Active node addr)
              (Err (Abandoned node))
              (fun r => match r with
                        | Err err => ret (Err err)
                        | Ok txs =>
                            match leasingsLoop txs 0 0
                                    (repeat zeroDigest (List.length txs)) with
                            | Val ra => ret (Ok ra)
                            | _ => panic
                            end
                        end) s) as (v & s1 & E & Hv).
  exists v, s1. split; [exact Hv|]. rewrite E.
  destruct v as [txs|err]; [|reflexivity].
  destruct (leasingsLoop txs 0 0 _); reflexivity.
Qed.

(** The fee query: either no request could be built, or one request was
    made, for the script information of [addr], and the surcharge is the one
    of a 200 answer. *)
Lemma getExtraFee_out lib node ctx cl addr s :
  exists r s1 e1,
    getExtraFee lib node ctx cl addr s = mkOut (Val r) s1 e1
    /\ allOf KDo e1
    /\ (forall t req v, In (t, ReqDo req v) e1 ->
          http_NewRequest lib "GET"
            (BaseUrl cl ++ "/addresses/scriptInfo/" ++ Address_String lib addr)%string
          = Ok req)
    /\ forall fee, r = Ok fee ->
         exists req rsp body,
           e1 = [(clock s, ReqDo req (Ok (rsp, body)))]
           /\ StatusCode rsp = http_StatusOK /\ fee = ExtraFee body.
Proof.
  unfold getExtraFee.
  destruct (http_NewRequest lib _ _) as [req|e] eqn:Hreq;
    [|eexists _, _, []; split; [reflexivity|]; split; [constructor|];
      split; [intros ? ? ? [] | discriminate]].
  unfold cl_Do.
  destruct (bind_request ctx (ReqDo req) (client_Do node req) (Err (Abandoned node))
              (fun r => match r with
                        | Err err => ret (Err err)
                        | Ok (rsp, extraFee) =>
                            if negb (StatusCode rsp =? http_StatusOK)
                            then ret (Err (errorString "failed to get extra fee"))
                            else ret (Ok (ExtraFee extraFee))
                        end) s) as (v & s1 & E & _).
  rewrite E.
  assert (Hin : forall t req' v', In (t, ReqDo req' v') [(clock s, ReqDo req v)] ->
                  Ok req = Ok req').
  { intros t req' v' [[= _ <- _]|[]]. reflexivity. }
  destruct v as [[rsp body]|err].
  - destruct (StatusCode rsp =? http_StatusOK) eqn:Hs; cbn [negb]; unfold ret;
      rewrite after_mkOut; eexists _, _, _;
      (split; [reflexivity|]; split; [repeat constructor|]; split; [exact Hin|]).
    + intros fee [= <-]. exists req, rsp, body. apply Z.eqb_eq in Hs. now repeat split.
    + discriminate.
  - unfold ret. rewrite after_mkOut. eexists _, _, _.
    split; [reflexivity|]. split; [repeat constructor|]. split; [exact Hin | discriminate].
Qed.

Lemma either_log_out (c : bool) a b s :
  (if c then log a else log b) s
  = mkOut (Val tt) s [(clock s, Log (if c then a else b))].
Proof. now destruct c. Qed.

Ltac kinds :=
  repeat first
    [ apply Forall_nil
    | apply Forall_cons; [reflexivity|]
    | apply Forall_app; split
    | match goal with
      | H : allOf ?k ?e |- Forall _ ?e =>
          refine (Forall_impl _ _ H);
          let x := fresh in let Hx := fresh in
          intros x Hx; unfold isEarly, isFeeStage; cbn beta; rewrite Hx; reflexivity
      end ].

Ltac flatten :=
  rewrite ?after_after, ?after_mkOut; cbn [app]; rewrite <- ?app_assoc; cbn [app].


Ltac in_inv :=
  unfold allOf in *;
  repeat match goal with
  | H : In _ [] |- _ => destruct H
  | H : In _ (_ :: _) |- _ => destruct H as [H|H]; [try discriminate H|]
  | H : In _ (_ ++ _) |- _ => apply in_app_or in H; destruct H as [H|H]
  | H : In ?x ?e, HF : Forall _ ?e |- _ =>
      let HF' := fresh in
      pose proof (proj1 (Forall_forall _ _) HF _ H) as HF'; clear H;
      cbn in HF'; try discriminate HF'; try contradiction
  end.

Ltac finish_tail :=
  try reflexivity; try eassumption; try (now rewrite app_nil_r);
  try solve [repeat constructor];
  try solve [cbn [res]; split; discriminate];
  try solve [cbn [res]; tauto];
  try solve [match goal with
             | |- kind (Log (if ?c then _ else _)) = _ => destruct c; reflexivity
             end].

(** The tail of [run], from the lease query on. *)
Lemma cancelLeasings_shape lib node epoch (fuel : nat) ctx cl dry scheme sk pk addr s :
  let X := cancelLeasings lib node epoch fuel ctx cl dry scheme sk pk addr s in
  exists v e2,
    evs X = (clock s, ReqActive addr v) :: e2
    /\ (forall t' req r, In (t', ReqDo req r) e2 ->
          http_NewRequest lib "GET"
            (BaseUrl cl ++ "/addresses/scriptInfo/" ++ Address_String lib addr)%string
          = Ok req)
    /\ TailShape lib dry scheme sk pk addr v e2 (res X).
Proof.
  cbn zeta. unfold cancelLeasings. rewrite bind_unfold.
  destruct (getActiveLeasings_out node ctx cl addr s) as (v & s1 & _ & E).
  rewrite E. cbn [res fin evs]. exists v.
  destruct v as [txs|err].
  - destruct (leasingsLoop txs 0 0 _) as [[ids total]| |] eqn:HL.
    + rewrite bind_log.
      destruct (getExtraFee_out lib node ctx cl addr s1)
        as (r & s2 & e1 & E1 & HK & HR & HF).
      rewrite (bind_after _ _ _ _ _ _ E1).
      destruct r as [fee|err].
      * destruct (HF fee eq_refl) as (req & rsp & body & -> & Hst & ->).
        pose proof (HR _ _ _ (or_introl eq_refl)) as Hreq. clear HR HF HK.
        rewrite (bind_after _ _ _ _ _ _ (either_log_out _ _ _ s2)).
        cbn zeta. rewrite bind_unfold.
        pose proof (cancelLoop_post lib node epoch fuel ctx cl dry scheme sk pk
                      (add64 standardFee (ExtraFee body)) ids 0 s2) as HP.
        destruct (cancelLoop lib node epoch fuel ctx cl dry scheme sk pk _ 0 ids s2)
          as [r s3 e3] eqn:EL.
        cbn [res fin evs].
        assert (HE : Forall (fun te => loopEvent scheme sk (snd te)) e3)
          by apply HP.
        destruct r as [[err|]| |].
        -- unfold ret. flatten. eexists. split; [reflexivity|]. split.
           ++ intros t' req' r' Hin. in_inv. now injection Hin as _ <- _.
           ++ eapply tail_looped with (oloop := mkOut (Val (Some err)) s3 e3) (epost := []);
                finish_tail.
        -- rewrite !bind_log. unfold ret. flatten. eexists. split; [reflexivity|]. split.
           ++ intros t' req' r' Hin. in_inv. now injection Hin as _ <- _.
           ++ eapply tail_looped with (oloop := mkOut (Val None) s3 e3);
                finish_tail.
        -- flatten. eexists. split; [reflexivity|]. split.
           ++ intros t' req' r' Hin. in_inv. now injection Hin as _ <- _.
           ++ eapply tail_looped with (oloop := mkOut Panic s3 e3) (epost := []);
                finish_tail.
        -- flatten. eexists. split; [reflexivity|]. split.
           ++ intros t' req' r' Hin. in_inv. now injection Hin as _ <- _.
           ++ eapply tail_looped with (oloop := mkOut Spin s3 e3) (epost := []);
                finish_tail.
      * rewrite failed_out. destruct (is_Canceled err); flatten;
          (eexists; split; [reflexivity|]; split;
           [ intros t' req' r' Hin;
             destruct Hin as [[=]|Hin]; apply in_app_or in Hin;
             destruct Hin as [Hin|Hin]; [now apply (HR _ _ _ Hin)|]; in_inv
           | apply tail_stopped; [kinds | discriminate] ]).
    + eexists. split; [reflexivity|]. split; [intros ? ? ? []|].
      apply tail_stopped; [constructor | discriminate].
    + eexists. split; [reflexivity|]. split; [intros ? ? ? []|].
      apply tail_stopped; [constructor | discriminate].
  - rewrite failed_out. destruct (is_Canceled err); flatten;
      (eexists; split; [reflexivity|]; split;
       [ intros t' req' r' Hin; in_inv
       | apply tail_stopped; [kinds | discriminate] ]).
Qed.

Lemma RunShape_after_tail lib fl e0 cl b scheme sk pk addr X :
  Forall (fun te => isEarly (snd te) = true) e0 ->
  In (ReqLast (Ok b)) (events e0) ->
  nth_error (Generator b) 1 = Some scheme ->
  NewSecretKeyFromBase58 lib (accountSK fl) = Ok sk ->
  (if (accountPK fl =? "")%string
   then pk = GeneratePublicKey lib sk
   else NewPublicKeyFromBase58 lib (accountPK fl) = Ok pk) ->
  NewAddressFromPublicKey lib scheme pk = Ok addr ->
  (exists t v e2,
     evs X = (t, ReqActive addr v) :: e2
     /\ (forall t' req r, In (t', ReqDo req r) e2 ->
           http_NewRequest lib "GET"
             (BaseUrl cl ++ "/addresses/scriptInfo/" ++ Address_String lib addr)%string
           = Ok req)
     /\ TailShape lib (dryRun fl) scheme sk pk addr v e2 (res X)) ->
  RunShape lib fl (after e0 X).
Proof.
  intros He0 Hb Hn Hsk Hpk Haddr (t & v & e2 & HX & Hdo & HT).
  eapply shape_account with (e0 := e0) (e2 := e2); try eassumption.
  unfold after. cbn [evs]. now rewrite HX.
Qed.

(** Every run has one of the two shapes. *)
Lemma run_shape lib node epoch interruptAt (fuel : nat) fl s :
  RunShape lib fl (run lib node epoch interruptAt fuel fl s).
Proof.
  unfold run.
  destruct (showHelp fl).
  { rewrite bind_log. unfold ret. flatten. apply shape_early; cbn [evs res]; [kinds|].
    intros _. repeat constructor. }
  destruct (showVersion fl).
  { rewrite bind_log. unfold ret. flatten. apply shape_early; cbn [evs res]; [kinds|].
    intros _. repeat constructor. }
  destruct (_ || _).
  { rewrite bind_log. unfold ret. flatten. apply shape_early; cbn [evs res]; [kinds|].
    discriminate. }
  destruct (_ || _).
  { rewrite bind_log. unfold ret. flatten. apply shape_early; cbn [evs res]; [kinds|].
    discriminate. }
  destruct (optional_log_out ((accountPK fl =? "")%string
              || (1 <? List.length (strings_Fields (accountPK fl)))%nat) LogNoPK s eq_refl)
    as (ea & Ea & Ha).
  rewrite (bind_after _ _ _ _ _ _ Ea).
  destruct (optional_log_out (dryRun fl) LogDryRun s eq_refl) as (eb & Eb & Hb).
  rewrite (bind_after _ _ _ _ _ _ Eb).
  unfold interruptListener. rewrite bind_ret.
  set (ctx := {| doneAt := interruptAt |}).
  destruct (nodeClient_out lib node ctx (nodeURL fl) s) as (r & s1 & e1 & E1 & H1).
  rewrite (bind_after _ _ _ _ _ _ E1).
  destruct r as [cl|err].
  2:{ rewrite failed_out. destruct (is_Canceled err); flatten;
        (apply shape_early; cbn [evs res]; [kinds | discriminate]). }
  rewrite bind_log.
  destruct (getScheme_out node ctx cl s1) as (r & s2 & e2 & E2 & H2 & Hns & Hsch).
  rewrite bind_unfold, E2. cbn [res fin evs].
  destruct r as [[scheme|err]| |].
  2:{ rewrite failed_out. destruct (is_Canceled err); flatten;
        (apply shape_early; cbn [evs res]; [kinds | discriminate]). }
  2:{ flatten. apply shape_early; cbn [evs res]; [kinds | discriminate]. }
  2:{ flatten. apply shape_early; cbn [evs res]; [kinds | discriminate]. }
  destruct (Hsch scheme eq_refl) as (b & -> & Hb1). clear Hsch H2.
  rewrite bind_log.
  rewrite bind_unfold, parseSK_out.
  destruct (NewSecretKeyFromBase58 lib (accountSK fl)) as [sk|err] eqn:Hsk.
  2:{ cbn [res fin evs]. rewrite bind_log. unfold ret. flatten.
      apply shape_early; cbn [evs res]; [kinds | discriminate]. }
  cbn zeta. cbn [res fin evs].
  destruct (NewAddressFromPublicKey lib scheme (GeneratePublicKey lib sk))
    as [addr|err] eqn:Haddr.
  2:{ rewrite bind_log. unfold ret. flatten.
      apply shape_early; cbn [evs res]; [kinds | discriminate]. }
  destruct (accountPK fl =? "")%string eqn:Hpk; cbn [negb].
  - rewrite bind_ret, !bind_log. rewrite !after_after. cbn [app].
    rewrite <- ?app_assoc. cbn [app].
    destruct (cancelLeasings_shape lib node epoch fuel ctx cl (dryRun fl) scheme sk
                (GeneratePublicKey lib sk) addr s2) as (v & e3 & HX & Hdo & HT).
    eapply RunShape_after_tail with (cl := cl) (b := b) (scheme := scheme) (sk := sk);
      try eassumption.
    + kinds.
    + unfold events. rewrite !map_app. cbn [map snd].
      apply in_or_app. right. apply in_or_app. right. apply in_or_app. right.
      right. left. reflexivity.
    + now rewrite Hpk.
    + exists (clock s2), v, e3. now repeat split.
  - rewrite bind_unfold. rewrite bind_call.
    destruct (NewPublicKeyFromBase58 lib (accountPK fl)) as [pk|err] eqn:Hpk2.
    2:{ rewrite bind_log. unfold ret. flatten. cbn [res fin evs]. flatten.
        apply shape_early; cbn [evs res]; [kinds | discriminate]. }
    rewrite bind_call.
    destruct (NewAddressFromPublicKey lib scheme pk) as [addr'|err] eqn:Haddr2.
    2:{ rewrite bind_log. unfold ret. flatten. cbn [res fin evs]. flatten.
        apply shape_early; cbn [evs res]; [kinds | discriminate]. }
    unfold ret at 1. flatten. cbn [res fin evs].
    rewrite !bind_log. rewrite !after_after. cbn [app].
    rewrite <- ?app_assoc. cbn [app].
    destruct (cancelLeasings_shape lib node epoch fuel ctx cl (dryRun fl) scheme sk
                pk addr' s2) as (v & e3 & HX & Hdo & HT).
    eapply RunShape_after_tail with (cl := cl) (b := b) (scheme := scheme) (sk := sk);
      try eassumption.
    + kinds.
    + unfold events. rewrite !map_app. cbn [map snd].
      apply in_or_app. right. apply in_or_app. right. apply in_or_app. right.
      right. left. reflexivity.
    + now rewrite Hpk.
    + exists (clock s2), v, e3. now repeat split.
Qed.

(** ** Statements about [run] *)

Lemma builtTxs_none t :
  Forall (fun te => kind (snd te) <> KSign) t -> builtTxs t = [].
Proof.
  induction 1 as [|[c e] t He _ IH]; [reflexivity|].
  destruct e; cbn in He |- *; try exact IH. congruence.
Qed.

Lemma processedTxs_none t :
  Forall (fun te => kind (snd te) <> KMarshal /\ kind (snd te) <> KBroadcast) t ->
  processedTxs t = [].
Proof.
  induction 1 as [|[c e] t [He1 He2] _ IH]; [reflexivity|].
  destruct e; cbn in He1, He2 |- *; try exact IH; congruence.
Qed.

Lemma JSON_none t :
  Forall (fun te => kind (snd te) <> KJson /\ kind (snd te) <> KMarshal) t ->
  loggedJSON t = [] /\ marshalledJSON t = [].
Proof.
  induction 1 as [|[c e] t [He1 He2] _ [IH1 IH2]]; [split; reflexivity|].
  destruct e as [l| | | | | | | | | | | | |]; cbn in He1, He2 |- *;
    try (split; [exact IH1 | exact IH2]); try congruence.
  destruct l; try (split; [exact IH1 | exact IH2]). congruence.
Qed.

Lemma quiet_of (P : event -> bool) t :
  (forall e, P e = true ->
     kind e <> KSign /\ kind e <> KMarshal /\ kind e <> KBroadcast
     /\ kind e <> KJson /\ isSubmission e = false) ->
  Forall (fun te => P (snd te) = true) t -> quiet t.
Proof.
  intros HP H. unfold quiet.
  split; [|split; [|split; [|split]]].
  - apply builtTxs_none. refine (Forall_impl _ _ H). intros [c e] He. now apply HP.
  - apply processedTxs_none. refine (Forall_impl _ _ H). intros [c e] He.
    split; now apply HP.
  - apply JSON_none. refine (Forall_impl _ _ H). intros [c e] He. split; now apply HP.
  - apply JSON_none. refine (Forall_impl _ _ H). intros [c e] He. split; now apply HP.
  - refine (Forall_impl _ _ H). intros [c e] He. now apply HP.
Qed.

Lemma early_quiet t : Forall (fun te => isEarly (snd te) = true) t -> quiet t.
Proof.
  apply quiet_of. intros e He. unfold isEarly in He.
  destruct e as [l| | | | | | | | | | | | |]; try discriminate;
    try (repeat split; discriminate).
  destruct l; try discriminate; repeat split; discriminate.
Qed.

Lemma fee_stage_quiet t : Forall (fun te => isFeeStage (snd te) = true) t -> quiet t.
Proof.
  apply quiet_of. intros e He. unfold isFeeStage in He.
  destruct e as [l| | | | | | | | | | | | |]; try discriminate;
    try (repeat split; discriminate).
  destruct l; try discriminate; repeat split; discriminate.
Qed.

Lemma logs_quiet t : allOf KLog t -> quiet t.
Proof.
  intros H. apply early_quiet. refine (Forall_impl _ _ H).
  intros [c e] He. unfold isEarly. cbn in *. now rewrite He.
Qed.

Lemma quiet_app t1 t2 : quiet t1 -> quiet t2 -> quiet (t1 ++ t2).
Proof.
  intros (A1 & A2 & A3 & A4 & A5) (B1 & B2 & B3 & B4 & B5). unfold quiet.
  rewrite builtTxs_app, processedTxs_app, loggedJSON_app, marshalledJSON_app.
  rewrite A1, A2, A3, A4, B1, B2, B3, B4. repeat split. now apply Forall_app.
Qed.

Lemma quiet_one c e :
  isEarly e = true \/ isFeeStage e = true \/ kind e = KActive -> quiet [(c, e)].
Proof.
  intros H. unfold isEarly, isFeeStage in H. unfold quiet.
  destruct e as [l| | | | | | | | | | | | |]; cbn in H |- *;
    try (repeat split; repeat constructor; fail);
    try (exfalso; destruct H as [H|[H|H]]; discriminate).
  destruct l; cbn in H |- *; try (repeat split; repeat constructor; fail);
    exfalso; destruct H as [H|[H|H]]; discriminate.
Qed.

(** A trace [before ++ middle ++ after] with quiet ends. *)
Lemma quiet_around t1 t t2 :
  quiet t1 -> quiet t2 ->
  builtTxs (t1 ++ t ++ t2) = builtTxs t
  /\ processedTxs (t1 ++ t ++ t2) = processedTxs t
  /\ loggedJSON (t1 ++ t ++ t2) = loggedJSON t
  /\ marshalledJSON (t1 ++ t ++ t2) = marshalledJSON t
  /\ (Forall (fun te => isSubmission (snd te) = false) t ->
      Forall (fun te => isSubmission (snd te) = false) (t1 ++ t ++ t2)).
Proof.
  intros (A1 & A2 & A3 & A4 & A5) (B1 & B2 & B3 & B4 & B5).
  rewrite !builtTxs_app, !processedTxs_app, !loggedJSON_app, !marshalledJSON_app.
  rewrite A1, A2, A3, A4, B1, B2, B3, B4, !app_nil_r. cbn [app].
  repeat split. intros H. apply Forall_app. split; [exact A5|].
  apply Forall_app. now split.
Qed.

Lemma looped_lists e0 t addr v t1 l1 t2 q r t3 l3 eloop epost :
  Forall (fun te => isEarly (snd te) = true) e0 ->
  kind (Log l1) = KLog -> kind (Log l3) = KLog -> allOf KLog epost ->
  let T := e0 ++ (t, ReqActive addr v) :: (t1, Log l1) :: (t2, ReqDo q r)
              :: (t3, Log l3) :: eloop ++ epost in
  builtTxs T = builtTxs eloop
  /\ processedTxs T = processedTxs eloop
  /\ loggedJSON T = loggedJSON eloop
  /\ marshalledJSON T = marshalledJSON eloop
  /\ (Forall (fun te => isSubmission (snd te) = false) eloop ->
      Forall (fun te => isSubmission (snd te) = false) T).
Proof.
  intros H0 H1 H3 Hp T.
  replace T with ((e0 ++ [(t, ReqActive addr v); (t1, Log l1); (t2, ReqDo q r);
                          (t3, Log l3)]) ++ eloop ++ epost)
    by (subst T; now rewrite <- app_assoc).
  apply quiet_around; [|now apply logs_quiet].
  apply quiet_app; [now apply early_quiet|].
  change (quiet ([(t, ReqActive addr v)] ++ [(t1, Log l1)] ++ [(t2, ReqDo q r)]
                   ++ [(t3, Log l3)])).
  repeat apply quiet_app; apply quiet_one; unfold isEarly, isFeeStage;
    rewrite ?H1, ?H3; cbn; auto.
Qed.

Lemma stopped_lists e0 x e2 :
  Forall (fun te => isEarly (snd te) = true) e0 ->
  kind (snd x) = KActive ->
  Forall (fun te => isFeeStage (snd te) = true) e2 ->
  quiet (e0 ++ x :: e2).
Proof.
  intros H0 Hx H2. apply quiet_app; [now apply early_quiet|].
  change (quiet ([x] ++ e2)). apply quiet_app; [|now apply fee_stage_quiet].
  destruct x. apply quiet_one. auto.
Qed.

(** C1 (amended).  In a run in which the fetcher returned the identifiers
    [ids] of N leases, the transactions built are for a prefix of [ids], in
    order, one per identifier, and all carry one fee and one scheme byte;
    when the run ends without error the prefix is all of [ids]: exactly N
    transactions were built, and processed in that order. *)
Theorem one_transaction_per_lease lib node epoch interruptAt (fuel : nat) fl s
    t addr txs ids :
  let o := run lib node epoch interruptAt fuel fl s in
  In (t, ReqActive addr (Ok txs)) (evs o) ->
  map lease_ID txs = map Some ids ->
  exists fee scheme rest,
    ids = map LeaseID (builtTxs (evs o)) ++ rest
    /\ Forall (fun tx => Fee tx = fee /\ ChainID tx = scheme) (builtTxs (evs o))
    /\ (res o = Val None ->
        rest = []
        /\ List.length (builtTxs (evs o)) = List.length txs
        /\ map LeaseID (processedTxs (evs o)) = ids).
Proof.
  intros o Hin Hids.
  destruct (run_shape lib node epoch interruptAt fuel fl s)
    as [Hearly Hnone
       | cl b scheme sk pk addr' e0 t' v e2 Hevs He0 Hb Hn Hsk Hpk Haddr Hdo HT];
    fold o in Hearly, Hnone || fold o in Hevs, HT.
  - exfalso. in_inv.
  - rewrite Hevs in *. clear Hevs.
    destruct HT as [Hfee Hres
                   | txs' ids' total t1 t2 req rsp body t3 l3 oloop epost
                       Hv HL He2 Hst Hl3 HP Hpost Hiff].
    + assert (Hq : quiet (e0 ++ (t', ReqActive addr' v) :: e2))
        by now apply stopped_lists.
      destruct Hq as (Hq & _). rewrite Hq.
      exists 0, scheme, ids. split; [reflexivity|]. split; [constructor|].
      intros Hr. now destruct Hres.
    + subst e2 v.
      assert (HE := proj1 HP).
      assert (txs' = txs) as -> by (in_inv; now injection Hin as _ _ ->).
      pose proof (leasingsLoop_ok txs ids [] 0 Hids) as HL'. cbn [app List.length] in HL'.
      rewrite HL in HL'. injection HL' as -> _.
      destruct (looped_lists e0 t' addr' (Ok txs) t1
                  (LogFound (List.length ids) addr' total) t2 req (Ok (rsp, body)) t3 l3
                  (evs oloop) epost He0 eq_refl Hl3 Hpost) as (Hb' & Hp' & _).
      rewrite Hb', Hp'.
      destruct HP as (_ & P2 & (rest & P3 & P3') & P4 & _).
      exists (add64 standardFee (ExtraFee body)), scheme, rest.
      split; [exact P3|]. split.
      * refine (Forall_impl _ _ P2). intros tx (_ & Hc & _ & Hf). now split.
      * intros Hr. apply Hiff in Hr. specialize (P3' Hr). subst rest.
        split; [reflexivity|]. split; [|now apply P4].
        rewrite app_nil_r in P3.
        rewrite <- (length_map LeaseID), <- P3, <- (length_map Some), <- Hids.
        now rewrite length_map.
Qed.

(** C2 (amended).  The fee of every transaction built is the base fee
    100000 plus the surcharge the fee query returned, computed in [uint64],
    that is modulo 2^64; it is the exact sum whenever the surcharge is at most
    2^64 - 100001, and the base fee itself when the surcharge is 0. *)
Theorem fee_is_base_plus_surcharge lib node epoch interruptAt (fuel : nat) fl s
    t req rsp body :
  let o := run lib node epoch interruptAt fuel fl s in
  In (t, ReqDo req (Ok (rsp, body))) (evs o) ->
  Forall (fun tx => Fee tx = (100000 + ExtraFee body) mod 2 ^ 64) (builtTxs (evs o))
  /\ (0 <= ExtraFee body <= 2 ^ 64 - 100001 ->
      Forall (fun tx => Fee tx = 100000 + ExtraFee body) (builtTxs (evs o)))
  /\ (ExtraFee body = 0 ->
      Forall (fun tx => Fee tx = 100000) (builtTxs (evs o))).
Proof.
  intros o Hin.
  assert (H : Forall (fun tx => Fee tx = (100000 + ExtraFee body) mod 2 ^ 64)
                     (builtTxs (evs o))).
  { destruct (run_shape lib node epoch interruptAt fuel fl s)
      as [Hearly Hnone
         | cl b scheme sk pk addr' e0 t' v e2 Hevs He0 Hb Hn Hsk Hpk Haddr Hdo HT];
      fold o in Hearly, Hnone || fold o in Hevs, HT.
    - exfalso. in_inv.
    - rewrite Hevs in *. clear Hevs.
      destruct HT as [Hfee Hres
                     | txs' ids' total t1 t2 req' rsp' body' t3 l3 oloop epost
                         Hv HL He2 Hst Hl3 HP Hpost Hiff].
      + assert (Hq : quiet (e0 ++ (t', ReqActive addr' v) :: e2))
          by now apply stopped_lists.
        destruct Hq as (Hq & _). rewrite Hq. constructor.
      + subst e2 v.
        assert (HE := proj1 HP).
        assert (body' = body) as -> by (in_inv; now injection Hin as _ _ _ ->).
        destruct (looped_lists e0 t' addr' (Ok txs') t1
                    (LogFound (List.length ids') addr' total) t2 req'
                    (Ok (rsp', body)) t3 l3
                    (evs oloop) epost He0 eq_refl Hl3 Hpost) as (Hb' & _).
        rewrite Hb'. destruct HP as (_ & P2 & _).
        refine (Forall_impl _ _ P2). intros tx (_ & _ & _ & Hf). exact Hf. }
  split; [exact H|]. split.
  - intros Hr. refine (Forall_impl _ _ H). intros tx ->.
    apply Z.mod_small. lia.
  - intros Hz. refine (Forall_impl _ _ H). intros tx ->. now rewrite Hz.
Qed.

(** C4.  In a dry run no broadcast is made, no status query and no poll
    sleep, whatever the number of leases.  What the loop does with a signed
    transaction is serialize it and log the text: the texts logged are
    exactly the ones [json.Marshal] returned, in order, and in a run that
    ends without error every transaction built was serialized. *)
Theorem dry_run_submits_nothing lib node epoch interruptAt (fuel : nat) fl s :
  dryRun fl = true ->
  let o := run lib node epoch interruptAt fuel fl s in
  Forall (fun te => isSubmission (snd te) = false) (evs o)
  /\ loggedJSON (evs o) = marshalledJSON (evs o)
  /\ (res o = Val None ->
      map LeaseID (processedTxs (evs o)) = map LeaseID (builtTxs (evs o))).
Proof.
  intros Hdry o.
  destruct (run_shape lib node epoch interruptAt fuel fl s)
    as [Hearly Hnone
       | cl b scheme sk pk addr' e0 t' v e2 Hevs He0 Hb Hn Hsk Hpk Haddr Hdo HT];
    fold o in Hearly, Hnone || fold o in Hevs, HT.
  - destruct (early_quiet _ Hearly) as (Q1 & Q2 & Q3 & Q4 & Q5).
    rewrite Q1, Q2, Q3, Q4. now repeat split.
  - rewrite Hevs in *. clear Hevs.
    destruct HT as [Hfee Hres
                   | txs' ids' total t1 t2 req' rsp' body' t3 l3 oloop epost
                       Hv HL He2 Hst Hl3 HP Hpost Hiff].
    + assert (Hq : quiet (e0 ++ (t', ReqActive addr' v) :: e2))
        by now apply stopped_lists.
      destruct Hq as (Q1 & Q2 & Q3 & Q4 & Q5).
      rewrite Q1, Q2, Q3, Q4. now repeat split.
    + subst e2 v.
      destruct (looped_lists e0 t' addr' (Ok txs') t1
                  (LogFound (List.length ids') addr' total) t2 req'
                  (Ok (rsp', body')) t3 l3
                  (evs oloop) epost He0 eq_refl Hl3 Hpost)
        as (L1 & L2 & L3 & L4 & L5).
      rewrite L1, L2, L3, L4. rewrite Hdry in HP.
      destruct HP as (_ & _ & (rest & P3 & P3') & P4 & P5 & P6).
      split; [apply L5; now apply P5|]. split; [exact P6|].
      intros Hr. apply Hiff in Hr. rewrite (P4 Hr). rewrite (P3' Hr) in P3.
      now rewrite app_nil_r in P3.
Qed.

Lemma In_builtTxs t sch sk tx r l :
  In (t, CallSign sch sk tx r) l -> In tx (builtTxs l).
Proof.
  induction l as [|[c e] l IH]; [intros []|].
  intros [H|H].
  - injection H as -> ->. now left.
  - destruct e; cbn [builtTxs]; try now apply IH. right. now apply IH.
Qed.

(** C8.  With a public-key override on the command line, the address the
    leases and the surcharge are asked for is the one derived from the
    override and the scheme read from the node, the transactions name the
    override as their sender and that scheme as their chain, and they are
    signed with the secret key given on the command line. *)
Theorem override_replaces_account lib node epoch interruptAt (fuel : nat) fl s :
  accountPK fl <> "" ->
  let o := run lib node epoch interruptAt fuel fl s in
  let used (scheme : Scheme) (pk : PublicKey) (addr : Address) :=
    (exists b, In (ReqLast (Ok b)) (events (evs o))
               /\ nth_error (Generator b) 1 = Some scheme)
    /\ NewPublicKeyFromBase58 lib (accountPK fl) = Ok pk
    /\ NewAddressFromPublicKey lib scheme pk = Ok addr in
  (forall t a v, In (t, ReqActive a v) (evs o) ->
     exists scheme pk, used scheme pk a)
  /\ (forall t q v, In (t, ReqDo q v) (evs o) ->
        exists scheme pk a cl,
          used scheme pk a
          /\ http_NewRequest lib "GET"
               (BaseUrl cl ++ "/addresses/scriptInfo/" ++ Address_String lib a)%string
             = Ok q)
  /\ (forall t sch sk tx r, In (t, CallSign sch sk tx r) (evs o) ->
        NewSecretKeyFromBase58 lib (accountSK fl) = Ok sk
        /\ exists a, used sch (SenderPK tx) a /\ ChainID tx = sch).
Proof.
  intros Hover o used.
  assert (Hneq : (accountPK fl =? "")%string = false) by now apply String.eqb_neq.
  destruct (run_shape lib node epoch interruptAt fuel fl s)
    as [Hearly Hnone
       | cl b scheme sk pk addr' e0 t' v e2 Hevs He0 Hb Hn Hsk Hpk Haddr Hdo HT];
    fold o in Hearly, Hnone || fold o in Hevs, HT.
  - repeat split; intros; exfalso; in_inv.
  - rewrite Hneq in Hpk.
    assert (Hused : used scheme pk addr').
    { subst used. cbn beta. split; [|now split]. exists b. split; [|exact Hn].
      rewrite Hevs. unfold events in *. rewrite map_app. apply in_or_app. now left. }
    clearbody used.
    split; [|split].
    + intros t a v' Hin. exists scheme, pk. rewrite Hevs in Hin.
      apply in_app_or in Hin. destruct Hin as [Hin|[Hin|Hin]].
      * exfalso. in_inv.
      * now injection Hin as _ <- _.
      * exfalso.
        destruct HT as [Hfee Hres
                       | txs' ids' total t1 t2 req' rsp' body' t3 l3 oloop epost
                           Hv HL He2 Hst Hl3 HP Hpost Hiff].
        -- in_inv.
        -- subst e2. assert (HE := proj1 HP). in_inv.
    + intros t q v' Hin. exists scheme, pk, addr', cl. split; [exact Hused|].
      rewrite Hevs in Hin.
      apply in_app_or in Hin. destruct Hin as [Hin|[Hin|Hin]].
      * exfalso. in_inv.
      * discriminate.
      * now apply (Hdo t q v').
    + intros t sch sk' tx r Hin.
      pose proof (In_builtTxs _ _ _ _ _ _ Hin) as Hbuilt.
      rewrite Hevs in Hin, Hbuilt.
      destruct HT as [Hfee Hres
                     | txs' ids' total t1 t2 req' rsp' body' t3 l3 oloop epost
                         Hv HL He2 Hst Hl3 HP Hpost Hiff].
      * exfalso. in_inv.
      * subst e2 v.
        destruct (looped_lists e0 t' addr' (Ok txs') t1
                    (LogFound (List.length ids') addr' total) t2 req'
                    (Ok (rsp', body')) t3 l3
                    (evs oloop) epost He0 eq_refl Hl3 Hpost) as (L1 & _).
        rewrite L1 in Hbuilt.
        destruct HP as (HE & P2 & _).
        rewrite Forall_forall in P2. destruct (P2 _ Hbuilt) as (_ & Hc & Hs & _).
        assert (sch = scheme /\ sk' = sk) as [-> ->] by (in_inv; assumption).
        split; [exact Hsk|]. exists addr'. rewrite Hs. now split.
Qed.

(** ** Error outcomes *)

Lemma main_exit lib node epoch interruptAt (fuel : nat) fl s r :
  res (run lib node epoch interruptAt fuel fl s) = Val r ->
  res (main lib node epoch interruptAt fuel fl s) = Val (exitStatus r).
Proof.
  intros H. unfold main. rewrite bind_unfold, H.
  destruct r as [[| | | | |]|]; reflexivity.
Qed.



Lemma ends_one {A} (d : A) : exists pre, [d] = pre ++ [d].
Proof. now exists []. Qed.

Lemma ends_cons {A} (a d : A) l :
  (exists pre, l = pre ++ [d]) -> exists pre, a :: l = pre ++ [d].
Proof. intros [pre ->]. now exists (a :: pre). Qed.

Lemma ends_app {A} (d : A) l1 l2 :
  (exists pre, l2 = pre ++ [d]) -> exists pre, l1 ++ l2 = pre ++ [d].
Proof. intros [pre ->]. exists (l1 ++ pre). now rewrite app_assoc. Qed.

Lemma last_event t pre d x : t = pre ++ [d] -> last (events t) x = snd d.
Proof. intros ->. unfold events. rewrite map_app. cbn. apply last_last. Qed.


(** C6 (amended).  When the secret key given on the command line does not
    decode, the run, having connected and read the scheme, ends with
    [errFailure], the one error every operational failure ends with; the
    process exits with status 70. *)
Theorem undecodable_key_is_operation_failure lib node epoch interruptAt
    (fuel : nat) fl s cl scheme err :
  paramsOK fl = true ->
  let ctx := {| doneAt := interruptAt |} in
  res (nodeClient lib node ctx (nodeURL fl) s) = Val (Ok cl) ->
  res (getScheme node ctx cl (fin (nodeClient lib node ctx (nodeURL fl) s)))
    = Val (Ok scheme) ->
  NewSecretKeyFromBase58 lib (accountSK fl) = Err err ->
  let o := run lib node epoch interruptAt fuel fl s in
  res o = Val (Some errFailure)
  /\ last (events (evs o)) (Log LogOK) = Log (LogParseSKFailed err)
  /\ res (main lib node epoch interruptAt fuel fl s) = Val 70.
Proof.
  intros Hok ctx Hprobe Hscheme Hkey o.
  assert (H : res o = Val (Some errFailure)
              /\ last (events (evs o)) (Log LogOK) = Log (LogParseSKFailed err)).
  { subst o. unfold paramsOK in Hok. unfold run.
    destruct (showHelp fl); [discriminate|].
    destruct (showVersion fl); [discriminate|].
    destruct (_ || _); [discriminate|].
    destruct (_ || _); [discriminate|].
    destruct (optional_log_out ((accountPK fl =? "")%string
                || (1 <? List.length (strings_Fields (accountPK fl)))%nat)
                LogNoPK s eq_refl) as (ea & Ea & Ha).
    rewrite (bind_after _ _ _ _ _ _ Ea).
    destruct (optional_log_out (dryRun fl) LogDryRun s eq_refl) as (eb & Eb & Hb).
    rewrite (bind_after _ _ _ _ _ _ Eb).
    unfold interruptListener. rewrite bind_ret. fold ctx.
    destruct (nodeClient_out lib node ctx (nodeURL fl) s)
      as (r & s1 & e1 & E1 & H1).
    rewrite E1 in Hprobe, Hscheme. cbn in Hprobe, Hscheme. injection Hprobe as ->.
    rewrite (bind_after _ _ _ _ _ _ E1), bind_log.
    rewrite bind_unfold, Hscheme.
    rewrite bind_log, bind_unfold, parseSK_out, Hkey. cbn [res fin evs].
    rewrite bind_log. unfold ret. flatten. cbn [res evs]. split; [reflexivity|].
    match goal with
    | |- last (events ?l) _ = Log ?d =>
        assert (Hend : exists pre, l = pre ++ [(clock (fin (getScheme node ctx cl s1)), Log d)])
          by (repeat first [apply ends_one | apply ends_cons | apply ends_app])
    end.
    destruct Hend as [pre Hend]. now rewrite (last_event _ _ _ _ Hend). }
  destruct H as [Hres Hlast]. split; [exact Hres|]. split; [exact Hlast|].
  now rewrite (main_exit _ _ _ _ _ _ _ _ Hres).
Qed.

(** ** The interrupt *)
















(** ** The statements at concrete runs *)

Ltac pick := repeat first [left; reflexivity | right].

Lemma one_transaction_per_lease_witness :
  let o := run Demo.lib Demo.node3 Demo.epoch None 5 (Demo.flags "sk" "" false)
               Demo.start in
  res o = Val None
  /\ exists fee scheme,
       map LeaseID (builtTxs (evs o))
       = [Demo.bytes_of_string "a"; Demo.bytes_of_string "b"; Demo.bytes_of_string "c"]
       /\ Forall (fun tx => Fee tx = fee /\ ChainID tx = scheme) (builtTxs (evs o)).
Proof.
  cbv zeta. split; [reflexivity|].
  destruct (one_transaction_per_lease Demo.lib Demo.node3 Demo.epoch None 5
              (Demo.flags "sk" "" false) Demo.start (Demo.ms 20) Demo.addr
              [Demo.lease "a" 5; Demo.lease "b" 7; Demo.lease "c" 11]
              [Demo.bytes_of_string "a"; Demo.bytes_of_string "b";
               Demo.bytes_of_string "c"])
    as (fee & scheme & rest & Hids & Hall & Hdone).
  - vm_compute. pick.
  - reflexivity.
  - exists fee, scheme. split; [|exact Hall].
    destruct (Hdone eq_refl) as (-> & _ & _). rewrite app_nil_r in Hids.
    symmetry. exact Hids.
Defined.

(** C1 as stated fails: the fetcher returns three leases, the node rejects
    the first broadcast, and the run stops with one transaction built. *)
Lemma aborted_run_builds_fewer :
  let txs := [Demo.lease "a" 5; Demo.lease "b" 7; Demo.lease "c" 11] in
  let o := run Demo.lib (Demo.rejecting Demo.node3 (errorString "rejected"))
               Demo.epoch None 5 (Demo.flags "sk" "" false) Demo.start in
  In (Demo.ms 20, ReqActive Demo.addr (Ok txs)) (evs o)
  /\ List.length txs = 3%nat
  /\ List.length (builtTxs (evs o)) = 1%nat
  /\ List.length (processedTxs (evs o)) = 1%nat
  /\ res o = Val (Some errFailure).
Proof.
  cbv zeta. split; [vm_compute; pick|]. repeat split.
Qed.



Lemma fee_is_base_plus_surcharge_witness :
  let o := run Demo.lib Demo.node3 Demo.epoch None 5 (Demo.flags "sk" "" true)
               Demo.start in
  List.length (builtTxs (evs o)) = 3%nat
  /\ Forall (fun tx => Fee tx = 100000) (builtTxs (evs o)).
Proof.
  cbv zeta. split; [reflexivity|].
  assert (Hin : In (Demo.ms 30,
                    ReqDo {| req_Method := "GET";
                             req_URL := "http://localhost:6869/addresses/scriptInfo/Tks" |}
                          (Ok ({| StatusCode := 200 |}, {| ExtraFee := 0 |})))
                   (evs (run Demo.lib Demo.node3 Demo.epoch None 5
                             (Demo.flags "sk" "" true) Demo.start)))
    by (vm_compute; pick).
  exact (proj2 (proj2 (fee_is_base_plus_surcharge Demo.lib Demo.node3 Demo.epoch
                         None 5 (Demo.flags "sk" "" true) Demo.start _ _ _ _ Hin))
               eq_refl).
Defined.

(** C2 as stated fails: for the surcharge 2^64 - 1 the fee stamped is 99999,
    not 100000 + (2^64 - 1). *)
Lemma surcharge_overflow :
  let o := run Demo.lib Demo.nodeMax Demo.epoch None 5 (Demo.flags "sk" "" true)
               Demo.start in
  In (Demo.ms 30,
      ReqDo {| req_Method := "GET";
               req_URL := "http://localhost:6869/addresses/scriptInfo/Tks" |}
            (Ok ({| StatusCode := 200 |}, {| ExtraFee := 18446744073709551615 |})))
     (evs o)
  /\ is_uint64 18446744073709551615
  /\ map Fee (builtTxs (evs o)) = [99999]
  /\ 99999 <> 100000 + 18446744073709551615.
Proof.
  cbv zeta. split; [vm_compute; pick|]. split; [split; [discriminate | reflexivity]|].
  split; [reflexivity | discriminate].
Qed.

Lemma dry_run_submits_nothing_witness :
  let o := run Demo.lib Demo.node3 Demo.epoch None 5 (Demo.flags "sk" "" true)
               Demo.start in
  Forall (fun te => isSubmission (snd te) = false) (evs o)
  /\ loggedJSON (evs o) = ["a"; "b"; "c"]%string.
Proof.
  cbv zeta.
  destruct (dry_run_submits_nothing Demo.lib Demo.node3 Demo.epoch None 5
              (Demo.flags "sk" "" true) Demo.start eq_refl) as (H & _).
  split; [exact H | reflexivity].
Defined.

Lemma override_replaces_account_witness :
  let o := run Demo.lib Demo.node3 Demo.epoch None 5 (Demo.flags "sk" "pk2" true)
               Demo.start in
  exists scheme pk,
    NewPublicKeyFromBase58 Demo.lib "pk2" = Ok pk
    /\ NewAddressFromPublicKey Demo.lib scheme pk = Ok (Demo.addrOf "pk2").
Proof.
  cbv zeta.
  assert (Hover : accountPK (Demo.flags "sk" "pk2" true) <> ""%string)
    by discriminate.
  destruct (proj1 (override_replaces_account Demo.lib Demo.node3 Demo.epoch None 5
                     (Demo.flags "sk" "pk2" true) Demo.start Hover)
                  (Demo.ms 20) (Demo.addrOf "pk2")
                  (Ok [Demo.lease "a" 5; Demo.lease "b" 7; Demo.lease "c" 11]))
    as (scheme & pk & _ & Hpk & Haddr).
  - vm_compute. pick.
  - now exists scheme, pk.
Defined.

Lemma undecodable_key_is_operation_failure_witness :
  res (run Demo.lib Demo.node3 Demo.epoch None 5 (Demo.flags "s0k" "" true)
           Demo.start) = Val (Some errFailure).
Proof.
  exact (proj1 (undecodable_key_is_operation_failure Demo.lib Demo.node3 Demo.epoch
                  None 5 (Demo.flags "s0k" "" true) Demo.start Demo.cl Byte.x54
                  (errorString "invalid base58 symbol")
                  eq_refl eq_refl eq_refl eq_refl)).
Defined.

(** C6 as stated fails: a key that does not decode, a node that cannot be
    reached and a node that rejects the broadcast all end the run with the
    same error, and the process with the same exit status. *)
Lemma key_error_is_not_distinct :
  let badKey := run Demo.lib Demo.node3 Demo.epoch None 5
                    (Demo.flags "s0k" "" false) Demo.start in
  let noNode := run Demo.lib (Demo.down Demo.node3 (errorString "connection refused"))
                    Demo.epoch None 5 (Demo.flags "sk" "" false) Demo.start in
  let rejected := run Demo.lib (Demo.rejecting Demo.node3 (errorString "rejected"))
                      Demo.epoch None 5 (Demo.flags "sk" "" false) Demo.start in
  NewSecretKeyFromBase58 Demo.lib "s0k" = Err (errorString "invalid base58 symbol")
  /\ res badKey = Val (Some errFailure)
  /\ res noNode = res badKey
  /\ res rejected = res badKey
  /\ res (main Demo.lib Demo.node3 Demo.epoch None 5 (Demo.flags "s0k" "" false)
               Demo.start) = Val 70
  /\ res (main Demo.lib (Demo.down Demo.node3 (errorString "connection refused"))
               Demo.epoch None 5 (Demo.flags "sk" "" false) Demo.start) = Val 70.
Proof. cbv zeta. repeat split. Qed.


(** * Further properties *)

(** ** What [run] returns *)

Lemma yields_ret {A} (P : A -> Prop) a : P a -> yields P (ret a).
Proof. intros H s b [= <-]. exact H. Qed.

Lemma yields_bind {A B} (P : B -> Prop) (m : M A) (k : A -> M B) :
  (forall a, yields P (k a)) -> yields P (bind m k).
Proof.
  intros Hk s b. rewrite bind_unfold.
  destruct (res (m s)) as [a| |]; try discriminate.
  unfold after. cbn [res]. apply Hk.
Qed.

Lemma yields_failed err l : yields isSentinel (failed err l).
Proof.
  intros s a. rewrite failed_out. unfold isSentinel.
  destruct (is_Canceled err); intros [= <-]; auto.
Qed.

Lemma yields_cancelLoop lib node epoch (fuel : nat) ctx cl dry scheme sk pk fee :
  forall leasings i,
    yields isSentinel
      (cancelLoop lib node epoch fuel ctx cl dry scheme sk pk fee i leasings).
Proof.
  induction leasings as [|lease rest IH]; intros i; cbn [cancelLoop].
  - apply yields_ret. now left.
  - apply yields_bind. intros ts. apply yields_bind. intros [signed|err].
    + destruct dry.
      * apply yields_bind. intros [b|err].
        -- apply yields_bind. intros _. apply IH.
        -- apply yields_bind. intros _. apply yields_ret. unfold isSentinel. auto.
      * destruct (ID signed) as [id|]; [|intros s a; discriminate].
        apply yields_bind. intros _. apply yields_bind. intros [err|].
        -- apply yields_failed.
        -- apply yields_bind. intros [err|]; [apply yields_failed | apply IH].
    + apply yields_bind. intros _. apply yields_ret. unfold isSentinel. auto.
Qed.

Lemma yields_cancelLeasings lib node epoch (fuel : nat) ctx cl dry scheme sk pk addr :
  yields isSentinel
    (cancelLeasings lib node epoch fuel ctx cl dry scheme sk pk addr).
Proof.
  unfold cancelLeasings. apply yields_bind. intros [[leasings total]|err];
    [|apply yields_failed].
  apply yields_bind. intros _. apply yields_bind. intros [fee|err];
    [|apply yields_failed].
  apply yields_bind. intros _. cbn zeta. intros s a. rewrite bind_unfold.
  pose proof (yields_cancelLoop lib node epoch fuel ctx cl dry scheme sk pk
                (add64 standardFee fee) leasings 0 s) as HL.
  destruct (res (cancelLoop _ _ _ _ _ _ _ _ _ _ _ _ _ s)) as [[e|]| |];
    try discriminate.
  - unfold ret, after. cbn [res]. intros [= <-]. now apply HL.
  - rewrite !bind_log. unfold ret, after. cbn [res]. intros [= <-]. now left.
Qed.

(** X1.  [run] returns nil or one of the three sentinels, whatever the
    flags, the libraries and the node do; so a process that exits through
    [main] exits with status 0, 2, 130 or 70: the [default] branch of the
    switch in [main] (status 1) is never taken. *)
Theorem run_returns_sentinels lib node epoch interruptAt (fuel : nat) fl s :
  (forall r, res (run lib node epoch interruptAt fuel fl s) = Val r -> isSentinel r)
  /\ (forall c, res (main lib node epoch interruptAt fuel fl s) = Val c ->
        c = 0 \/ c = 2 \/ c = 130 \/ c = 70).
Proof.
  assert (H : yields isSentinel (run lib node epoch interruptAt fuel fl)).
  { unfold run.
    destruct (showHelp fl);
      [apply yields_bind; intros _; apply yields_ret; unfold isSentinel; auto|].
    destruct (showVersion fl);
      [apply yields_bind; intros _; apply yields_ret; unfold isSentinel; auto|].
    destruct (_ || _);
      [apply yields_bind; intros _; apply yields_ret; unfold isSentinel; auto|].
    destruct (_ || _);
      [apply yields_bind; intros _; apply yields_ret; unfold isSentinel; auto|].
    apply yields_bind; intros _. apply yields_bind; intros _.
    apply yields_bind; intros ctx. apply yields_bind; intros [cl|err];
      [|apply yields_failed].
    apply yields_bind; intros _. apply yields_bind; intros [scheme|err];
      [|apply yields_failed].
    apply yields_bind; intros _.
    apply yields_bind; intros [[[sk pk] addr]|err];
      [|apply yields_bind; intros _; apply yields_ret; unfold isSentinel; auto].
    intros s0 a. rewrite bind_unfold.
    destruct (accountPK fl =? "")%string; cbn [negb].
    - cbn [ret res fin evs]. unfold after. cbn [res].
      refine (yields_bind isSentinel _ _ _ s0 a); intros _. apply yields_bind; intros _.
      apply yields_cancelLeasings.
    - rewrite bind_call.
      destruct (NewPublicKeyFromBase58 lib (accountPK fl)) as [pk'|err].
      + rewrite bind_call.
        destruct (NewAddressFromPublicKey lib scheme pk') as [addr'|err].
        * cbn [ret after res fin evs]. unfold after. cbn [res].
          refine (yields_bind isSentinel _ _ _ s0 a); intros _. apply yields_bind; intros _.
          apply yields_cancelLeasings.
        * rewrite bind_log. cbn [ret after res fin evs]. unfold after. cbn [res].
          intros [= <-]. unfold isSentinel. auto.
      + rewrite bind_log. cbn [ret after res fin evs]. unfold after. cbn [res].
        intros [= <-]. unfold isSentinel. auto. }
  split; [exact (H s)|].
  intros c Hc. unfold main in Hc. rewrite bind_unfold in Hc.
  specialize (H s).
  destruct (res (run lib node epoch interruptAt fuel fl s)) as [r| |];
    try discriminate.
  destruct (H r eq_refl) as [ -> | [ -> | [ -> | -> ] ] ]; cbn in Hc; injection Hc as <-; auto.
Qed.

Lemma run_returns_sentinels_witness :
  isSentinel (Some errFailure)
  /\ (70 = 0 \/ 70 = 2 \/ 70 = 130 \/ 70 = 70).
Proof.
  destruct (run_returns_sentinels Demo.lib Demo.node3 Demo.epoch None 5
              (Demo.flags "s0k" "" false) Demo.start) as [Hrun Hmain].
  split; [exact (Hrun _ eq_refl) | exact (Hmain _ eq_refl)].
Defined.

(** ** The checks at the head of [run] *)

(** X2.  When the flags do not pass the checks at the head of [run], the run
    ends where it started, having written one line and nothing else: no
    request is made and no key is read.  [-help] and [-version] win over
    everything (the run returns nil, exit status 0); otherwise an empty or
    multi-word node URL or secret key gives [errInvalidParameters], on which
    [main] prints the usage and exits with status 2. *)
Theorem invalid_flags_stop_at_once lib node epoch interruptAt (fuel : nat) fl s :
  paramsOK fl = false ->
  let o := run lib node epoch interruptAt fuel fl s in
  let r := if showHelp fl || showVersion fl then None
           else Some errInvalidParameters in
  res o = Val r
  /\ fin o = s
  /\ (exists l, evs o = [(clock s, Log l)])
  /\ main lib node epoch interruptAt fuel fl s
     = mkOut (Val (if showHelp fl || showVersion fl then 0 else 2)) s
             (evs o ++ if showHelp fl || showVersion fl then []
                       else [(clock s, Log LogUsage)]).
Proof.
  intros Hbad. cbv zeta. unfold main, run, paramsOK in *.
  destruct (showHelp fl); [rewrite !bind_log; cbn; eauto 6|].
  destruct (showVersion fl); [rewrite !bind_log; cbn; eauto 6|].
  destruct (_ || _); [rewrite ?bind_log; cbn; eauto 6|].
  destruct (_ || _); [rewrite ?bind_log; cbn; eauto 6|].
  discriminate.
Qed.

(** A secret key of two words, set apart by a no-break space. *)
Lemma invalid_flags_stop_at_once_witness :
  let fl := Demo.flags ("ab" ++ Demo.nbsp ++ "cd") "" false in
  strings_Fields (accountSK fl) = ["ab"; "cd"]%string
  /\ run Demo.lib Demo.node3 Demo.epoch None 5 fl Demo.start
     = mkOut (Val (Some errInvalidParameters)) Demo.start
             [(0, Log (LogInvalidSK (accountSK fl)))].
Proof.
  cbv zeta. split; [reflexivity|].
  destruct (invalid_flags_stop_at_once Demo.lib Demo.node3 Demo.epoch None 5
              (Demo.flags ("ab" ++ Demo.nbsp ++ "cd") "" false) Demo.start eq_refl)
    as (Hres & Hfin & _).
  revert Hres Hfin.
  destruct (run Demo.lib Demo.node3 Demo.epoch None 5
                (Demo.flags ("ab" ++ Demo.nbsp ++ "cd") "" false) Demo.start)
    as [r f e] eqn:E.
  cbn [res fin]. intros -> ->. f_equal.
  apply (f_equal evs) in E. cbn [evs] in E. rewrite <- E. reflexivity.
Defined.

(** ** [nodeClient] *)

(** X3.  [nodeClient] by cases.  A URL that does not parse, a scheme (http
    when none is given) other than http and https, and a client that
    cannot be built each end it with that error, where it started and
    without any request.  Otherwise it makes exactly one request, the
    height query, and returns the error of that query, or the client it
    built when there is none.  So when it succeeds the query came back
    without error and the client is the one built for the URL. *)
Theorem nodeClient_probes_once lib node ctx url s :
  let o := nodeClient lib node ctx url s in
  let parsed := if strings_Contains url "//" then url_Parse lib url
                else url_Parse lib ("//" ++ url)%string in
  let schemeOf u := if (url_Scheme u =? "")%string then "http"%string
                    else url_Scheme u in
  let supported u := ((schemeOf u =? "http") || (schemeOf u =? "https"))%string in
  let built u := client_NewClient lib
                   (url_String lib {| url_Scheme := schemeOf u;
                                      url_Rest := url_Rest u |}) in
  (forall e, parsed = Err e -> o = mkOut (Val (Err e)) s [])
  /\ (forall u, parsed = Ok u -> supported u = false ->
        o = mkOut (Val (Err (errorString
                               ("unsupported URL scheme '" ++ schemeOf u ++ "'")%string)))
                  s [])
  /\ (forall u e, parsed = Ok u -> supported u = true -> built u = Err e ->
        o = mkOut (Val (Err e)) s [])
  /\ (forall u cl, parsed = Ok u -> supported u = true -> built u = Ok cl ->
        exists r,
          res (cl_Blocks_Height node ctx s) = Val r
          /\ o = mkOut (Val match r with Some err => Err err | None => Ok cl end)
                       (fin (cl_Blocks_Height node ctx s))
                       [(clock s, ReqHeight r)])
  /\ (forall cl, res o = Val (Ok cl) ->
        evs o = [(clock s, ReqHeight None)]
        /\ exists u, parsed = Ok u /\ supported u = true /\ built u = Ok cl).
Proof.
  cbv zeta. unfold nodeClient.
  destruct (if strings_Contains url "//" then _ else _) as [u|e] eqn:Hparse.
  2:{ repeat split; try discriminate. now intros e' [= <-]. }
  assert (Hu : (if (url_Scheme u =? "")%string
                then {| url_Scheme := defaultScheme; url_Rest := url_Rest u |}
                else u)
               = {| url_Scheme := if (url_Scheme u =? "")%string then "http"%string
                                  else url_Scheme u;
                    url_Rest := url_Rest u |}).
  { destruct (url_Scheme u =? "")%string; [reflexivity | now destruct u]. }
  rewrite Hu. cbn [url_Scheme url_Rest].
  set (sch := if (url_Scheme u =? "")%string then "http"%string else url_Scheme u).
  assert (Hsup : negb (sch =? "http")%string && negb (sch =? "https")%string
                 = negb ((sch =? "http") || (sch =? "https"))%string)
    by (now destruct (sch =? "http")%string, (sch =? "https")%string).
  rewrite Hsup. clear Hsup.
  destruct ((sch =? "http") || (sch =? "https"))%string eqn:Hs; cbn [negb].
  2:{ split; [discriminate|]. split; [now intros u' [= <-] _|].
      split; [intros u' e' [= <-] Ht; subst sch; congruence|].
      split; [intros u' cl' [= <-] Ht; subst sch; congruence | discriminate]. }
  destruct (client_NewClient lib _) as [cl|e] eqn:Hcl.
  2:{ split; [discriminate|].
      split; [intros u' [= <-] Hf; subst sch; congruence|].
      split; [intros u' e' [= <-] _ Hb; subst sch; rewrite Hcl in Hb;
              now injection Hb as <-|].
      split; [intros u' cl' [= <-] _ Hb; subst sch; congruence | discriminate]. }
  destruct (request_out ctx ReqHeight (Blocks_Height node) (Some (Abandoned node)) s)
    as (r & s1 & E & _).
  fold (cl_Blocks_Height node ctx) in E.
  rewrite (bind_after _ _ _ _ _ _ E).
  assert (Hout : after [(clock s, ReqHeight r)]
                   (match r with Some err => ret (Err err) | None => ret (Ok cl) end s1)
                 = mkOut (Val match r with Some err => Err err | None => Ok cl end)
                         s1 [(clock s, ReqHeight r)])
    by (now destruct r).
  rewrite Hout. clear Hout.
  split; [discriminate|].
  split; [intros u' [= <-] Hf; subst sch; congruence|].
  split; [intros u' e' [= <-] _ Hb; subst sch; congruence|].
  split.
  - intros u' cl' [= <-] _ Hb. subst sch. rewrite Hcl in Hb. injection Hb as <-.
    exists r. rewrite E. split; reflexivity.
  - cbn [res evs]. intros cl' Hr. destruct r as [err|]; [discriminate|].
    injection Hr as <-. split; [reflexivity|]. exists u. now repeat split.
Qed.

Lemma nodeClient_probes_once_witness :
  nodeClient Demo.lib Demo.node3 Demo.never "ftp://localhost:6869" Demo.start
  = mkOut (Val (Err (errorString "unsupported URL scheme 'ftp'"))) Demo.start []
  /\ evs (nodeClient Demo.lib Demo.node3 Demo.never "http://localhost:6869" Demo.start)
     = [(0, ReqHeight None)].
Proof.
  split.
  - exact (proj1 (proj2 (nodeClient_probes_once Demo.lib Demo.node3 Demo.never
                           "ftp://localhost:6869" Demo.start))
                 {| url_Scheme := "ftp"; url_Rest := "//localhost:6869" |}
                 eq_refl eq_refl).
  - exact (proj1 (proj2 (proj2 (proj2 (proj2
                   (nodeClient_probes_once Demo.lib Demo.node3 Demo.never
                      "http://localhost:6869" Demo.start))))
                 Demo.cl eq_refl)).
Defined.

(** ** [getExtraFee] *)

(** X4.  [getExtraFee] returns a surcharge exactly when the request for the
    script information of the address could be built, the client returned
    no error, and the answer has status 200; the surcharge is then the
    [extraFee] field of the answer.  An answer with another status is turned
    into the error "failed to get extra fee". *)
Theorem getExtraFee_needs_200 lib node ctx cl addr s :
  let url := (BaseUrl cl ++ "/addresses/scriptInfo/" ++ Address_String lib addr)%string in
  (forall fee,
     res (getExtraFee lib node ctx cl addr s) = Val (Ok fee)
     <-> exists req rsp body,
           http_NewRequest lib "GET" url = Ok req
           /\ res (cl_Do node ctx req s) = Val (Ok (rsp, body))
           /\ StatusCode rsp = http_StatusOK /\ ExtraFee body = fee)
  /\ (forall req rsp body,
        http_NewRequest lib "GET" url = Ok req ->
        res (cl_Do node ctx req s) = Val (Ok (rsp, body)) ->
        StatusCode rsp <> http_StatusOK ->
        res (getExtraFee lib node ctx cl addr s)
        = Val (Err (errorString "failed to get extra fee"))).
Proof.
  cbv zeta. unfold getExtraFee.
  destruct (http_NewRequest lib _ _) as [req|e] eqn:Hreq.
  2:{ split.
      - intros fee. split; [discriminate|]. intros (? & ? & ? & [=] & _).
      - intros ? ? ? [=]. }
  unfold cl_Do.
  destruct (bind_request ctx (ReqDo req) (client_Do node req) (Err (Abandoned node))
              (fun r => match r with
                        | Err err => ret (Err err)
                        | Ok (rsp, extraFee) =>
                            if negb (StatusCode rsp =? http_StatusOK)
                            then ret (Err (errorString "failed to get extra fee"))
                            else ret (Ok (ExtraFee extraFee))
                        end) s) as (v & s1 & E & Hv).
  rewrite E. split.
  - intros fee. split.
    + destruct v as [[rsp body]|err]; [|discriminate].
      destruct (StatusCode rsp =? http_StatusOK) eqn:Hs; cbn; [|discriminate].
      intros [= <-]. exists req, rsp, body. apply Z.eqb_eq in Hs. auto.
    + intros (req' & rsp & body & [= <-] & Hdo & Hs & <-).
      rewrite Hv in Hdo. injection Hdo as ->.
      apply Z.eqb_eq in Hs. now rewrite Hs.
  - intros req' rsp body [= <-] Hdo Hs. rewrite Hv in Hdo. injection Hdo as ->.
    apply Z.eqb_neq in Hs. now rewrite Hs.
Qed.

(** ** A run with nothing to cancel *)

(** X5.  When the node reports no active lease, the tail of [run] still asks
    for the surcharge.  If that query succeeds the run ends without error,
    having built no transaction, made no broadcast and logged a count of 0;
    if it fails the run fails, although there was nothing to cancel. *)
Theorem no_leases_still_asks_fee lib node epoch (fuel : nat) ctx cl dry scheme sk pk
    addr s :
  res (cl_Leasing_Active node ctx addr s) = Val (Ok []) ->
  let s1 := fin (cl_Leasing_Active node ctx addr s) in
  let o := cancelLeasings lib node epoch fuel ctx cl dry scheme sk pk addr s in
  (forall fee, res (getExtraFee lib node ctx cl addr s1) = Val (Ok fee) ->
     res o = Val None
     /\ builtTxs (evs o) = []
     /\ Forall (fun te => isSubmission (snd te) = false) (evs o)
     /\ exists pre, evs o = pre ++ [(clock (fin o), Log (LogCreated 0));
                                    (clock (fin o), Log LogOK)])
  /\ (forall err, res (getExtraFee lib node ctx cl addr s1) = Val (Err err) ->
        res o = Val (Some (if is_Canceled err then errUserTermination
                           else errFailure))).
Proof.
  intros Hact. cbv zeta. unfold cancelLeasings.
  unfold cl_Leasing_Active in *.
  destruct (request_out ctx (ReqActive addr) (Leasing_Active node addr)
              (Err (Abandoned node)) s) as (v & s1 & E & _).
  rewrite E in *. cbn in Hact. injection Hact as ->. cbn [fin].
  assert (EG : getActiveLeasings node ctx cl addr s
               = mkOut (Val (Ok ([], 0))) s1 [(clock s, ReqActive addr (Ok []))]).
  { unfold getActiveLeasings, cl_Leasing_Active.
    now rewrite (bind_after _ _ _ _ _ _ E). }
  rewrite (bind_after _ _ _ _ _ _ EG), bind_log. cbn [List.length].
  destruct (getExtraFee_out lib node ctx cl addr s1)
    as (r & s2 & e1 & E1 & HK & _ & _).
  rewrite (bind_after _ _ _ _ _ _ E1). rewrite E1. cbn [res].
  split.
  - intros fee [= ->].
    rewrite (bind_after _ _ _ _ _ _ (either_log_out _ _ _ s2)).
    cbn zeta. cbn [cancelLoop]. rewrite bind_ret, !bind_log. unfold ret. flatten.
    cbn [res fin evs]. split; [reflexivity|].
    assert (Hq : quiet e1).
    { apply fee_stage_quiet. refine (Forall_impl _ _ HK).
      intros [c e] He. unfold isFeeStage. cbn in *. now rewrite He. }
    destruct Hq as (Q1 & _ & _ & _ & Q5).
    split; [|split].
    + cbn [builtTxs]. rewrite builtTxs_app, Q1. cbn.
      now destruct (negb (fee =? 0)).
    + repeat (constructor; [reflexivity|]). apply Forall_app. split; [exact Q5|].
      constructor; [now destruct (negb (fee =? 0))|]. repeat constructor.
    + eexists (_ :: _ :: e1 ++ [_]). cbn [app]. rewrite <- app_assoc. reflexivity.
  - intros err [= ->]. rewrite failed_out.
    destruct (is_Canceled err); flatten; reflexivity.
Qed.

Lemma no_leases_still_asks_fee_witness :
  res (cancelLeasings Demo.lib (Demo.nodeWith [] 0 (fun _ => true)) Demo.epoch 5
         Demo.never Demo.cl false Byte.x54 [] [] Demo.addr Demo.start)
  = Val None.
Proof.
  exact (proj1 (proj1 (no_leases_still_asks_fee Demo.lib
                         (Demo.nodeWith [] 0 (fun _ => true)) Demo.epoch 5
                         Demo.never Demo.cl false Byte.x54 [] [] Demo.addr
                         Demo.start eq_refl) 0 eq_refl)).
Defined.

(** ** [track]: the poll that ends *)

Lemma trackLoop_confirms node ctx cl id (k : nat) :
  doneAt ctx = None ->
  forall (fuel : nat) s,
    (forall j, (j < k)%nat ->
       exists r err,
         payload (Transactions_Info node id (calls s + j)) = (Some r, err)
         /\ errors_Is_Canceled err = false /\ StatusCode r <> http_StatusOK) ->
    (exists r err,
        payload (Transactions_Info node id (calls s + k)) = (Some r, err)
        /\ errors_Is_Canceled err = false /\ StatusCode r = http_StatusOK) ->
    (k < fuel)%nat ->
    let o := trackLoop node fuel ctx cl id s in
    res o = Val None
    /\ calls (fin o) = (calls s + k + 1)%nat
    /\ count isInfo (evs o) = S k
    /\ count isSleep (evs o) = k
    /\ clock s + Z.of_nat k * time_Second <= clock (fin o).
Proof.
  intros Hnever. induction k as [|k IH]; intros fuel s Hbefore Hat Hfuel;
    (destruct fuel as [|fuel]; [lia|]); cbn zeta.
  - destruct Hat as (r & err & Hp & Hc & Hs). rewrite Nat.add_0_r in Hp.
    assert (E := request_never_done ctx (ReqInfo id) (Transactions_Info node id)
                   (None, Some (Abandoned node)) s Hnever).
    rewrite Hp in E. fold (cl_Transactions_Info node ctx id) in E.
    rewrite (trackLoop_step _ _ _ cl _ _ _ _ _ E), Hc.
    apply Z.eqb_eq in Hs. rewrite Hs. cbn. repeat split; lia.
  - destruct (Hbefore 0%nat ltac:(lia)) as (r & err & Hp & Hc & Hs).
    rewrite Nat.add_0_r in Hp.
    assert (E := request_never_done ctx (ReqInfo id) (Transactions_Info node id)
                   (None, Some (Abandoned node)) s Hnever).
    rewrite Hp in E. fold (cl_Transactions_Info node ctx id) in E.
    rewrite (trackLoop_step _ _ _ cl _ _ _ _ _ E), Hc.
    apply Z.eqb_neq in Hs. rewrite Hs. cbn zeta. cbn [res fin evs clock calls].
    match goal with |- context [trackLoop node fuel ctx cl id ?s'] =>
      destruct (IH fuel s') as (R1 & R2 & R3 & R4 & R5) end.
    + intros j Hj. cbn [calls]. replace (S (calls s) + j)%nat with (calls s + S j)%nat by lia.
      apply Hbefore. lia.
    + cbn [calls]. now replace (S (calls s) + k)%nat with (calls s + S k)%nat by lia.
    + lia.
    + cbn [clock calls] in *. split; [exact R1|]. split; [lia|].
      unfold count, events in *. cbn [map snd filter isInfo isSleep List.length].
      split; [now rewrite R3|]. split; [now rewrite R4|].
      rewrite Nat2Z.inj_succ. unfold time_Second in *. lia.
Qed.

(** X6.  A poll confirms as soon as the node knows the transaction: when
    nobody cancels, the first [k] status queries get a response that is not a
    200 and the next one gets a 200, [track] returns nil after exactly
    [k + 1] queries and [k] sleeps, at least [k] seconds after it started
    (the model needs more than [k] turns of fuel to follow it that far). *)
Theorem track_confirms node ctx cl id (k fuel : nat) s :
  doneAt ctx = None ->
  (forall j, (j < k)%nat ->
     exists r err,
       payload (Transactions_Info node id (calls s + j)) = (Some r, err)
       /\ errors_Is_Canceled err = false /\ StatusCode r <> http_StatusOK) ->
  (exists r err,
      payload (Transactions_Info node id (calls s + k)) = (Some r, err)
      /\ errors_Is_Canceled err = false /\ StatusCode r = http_StatusOK) ->
  (k < fuel)%nat ->
  let o := track node fuel ctx cl id s in
  res o = Val None
  /\ count isInfo (evs o) = S k
  /\ count isSleep (evs o) = k
  /\ clock s + Z.of_nat k * time_Second <= clock (fin o).
Proof.
  intros Hnever Hbefore Hat Hfuel. cbv zeta. rewrite track_out. cbn zeta.
  destruct (trackLoop_confirms node ctx cl id k Hnever fuel s Hbefore Hat Hfuel)
    as (R1 & _ & R3 & R4 & R5).
  cbn [res fin evs]. unfold count, events in *. cbn [map snd filter isInfo isSleep].
  auto.
Qed.

Lemma track_confirms_witness :
  let node := Demo.nodeWith [] 0 (fun n => (3 <=? n)%nat) in
  let o := track node 10 Demo.never Demo.cl [] Demo.start in
  res o = Val None /\ count isInfo (evs o) = 4%nat /\ count isSleep (evs o) = 3%nat
  /\ 0 + 3 * time_Second <= clock (fin o).
Proof.
  cbv zeta.
  apply (track_confirms (Demo.nodeWith [] 0 (fun n => (3 <=? n)%nat)) Demo.never
           Demo.cl [] 3 10 Demo.start eq_refl).
  - intros j Hj. cbn [Demo.start calls Nat.add].
    exists {| StatusCode := 404 |}, (Some (errorString "404 Not Found")).
    destruct j as [|[|[|j]]]; [repeat split; discriminate ..|lia].
  - exists {| StatusCode := 200 |}, None. repeat split.
  - lia.
Defined.

(** X7.  The poll has no bound of its own: as long as nobody cancels and
    the node keeps answering with a status other than 200, [track] is still
    polling after any number of turns, having made one status query per
    turn and waited a second after each. *)
Theorem track_polls_without_bound node ctx cl id (fuel : nat) s :
  doneAt ctx = None ->
  (forall n, exists r err,
      payload (Transactions_Info node id n) = (Some r, err)
      /\ errors_Is_Canceled err = false /\ StatusCode r <> http_StatusOK) ->
  let o := track node fuel ctx cl id s in
  res o = Spin
  /\ count isInfo (evs o) = fuel
  /\ clock s + Z.of_nat fuel * time_Second <= clock (fin o).
Proof.
  intros Hnever Hnode. cbv zeta. rewrite track_out. cbn zeta.
  destruct (trackLoop_unbounded node ctx cl id Hnever Hnode fuel s) as (R1 & R2 & R3).
  cbn [res fin evs]. unfold count, events in *. cbn [map snd filter isInfo].
  auto.
Qed.

Lemma track_polls_without_bound_witness :
  let o := track Demo.nodeNever 7 Demo.never Demo.cl [] Demo.start in
  res o = Spin /\ count isInfo (evs o) = 7%nat.
Proof.
  cbv zeta.
  destruct (track_polls_without_bound Demo.nodeNever Demo.never Demo.cl [] 7
              Demo.start eq_refl) as (R1 & R2 & _).
  - intros n. exists {| StatusCode := 404 |}, (Some (errorString "404 Not Found")).
    repeat split. discriminate.
  - split; [exact R1 | exact R2].
Defined.

(** X8.  A poll that starts when the context is already cancelled makes
    exactly one status query, which the client gives up at once, and does
    not sleep.  It returns the client's error when [errors.Is] identifies
    it as [context.Canceled]; with any other error, such as gowaves'
    [*client.RequestError], it goes on to read the status code of the
    response, which is nil, and panics. *)
Theorem track_after_cancel node ctx c cl id (fuel : nat) s :
  doneAt ctx = Some c ->
  c <= clock s ->
  track node (S fuel) ctx cl id s
  = mkOut (if is_Canceled (Abandoned node) then Val (Some (Abandoned node))
           else Panic)
          {| clock := clock s; calls := S (calls s) |}
          [(clock s, Log (LogWaiting id));
           (clock s, ReqInfo id (None, Some (Abandoned node)))].
Proof.
  intros Hdone Hc. rewrite track_out. cbn zeta.
  pose proof (Info_done node ctx c id s Hdone) as E. cbn zeta in E.
  destruct (Z.leb_spec c (clock s + Z.max 0 (latency (Transactions_Info node id (calls s)))));
    [|lia].
  rewrite (trackLoop_step _ _ _ cl _ _ _ _ _ E). cbn [errors_Is_Canceled].
  destruct (is_Canceled (Abandoned node)); cbn; now rewrite Z.max_l by lia.
Qed.

Lemma track_after_cancel_witness :
  track Demo.nodeNever 3 (Demo.cancelledAt 0) Demo.cl [] Demo.start
  = mkOut Panic {| clock := 0; calls := 1 |}
          [(0, Log (LogWaiting []));
           (0, ReqInfo [] (None, Some (errorString "context canceled")))].
Proof.
  assert (Hc : 0 <= clock Demo.start) by (cbn; lia).
  now rewrite (track_after_cancel Demo.nodeNever (Demo.cancelledAt 0) 0 Demo.cl []
                 2 Demo.start eq_refl Hc).
Defined.

(** ** [track]: the error it returns *)

Lemma events_app t1 t2 : events (t1 ++ t2) = events t1 ++ events t2.
Proof. apply map_app. Qed.

Lemma events_cons t e l : events ((t, e) :: l) = e :: events l.
Proof. reflexivity. Qed.

Lemma endsWith_refl {A} (l : list A) : endsWith l l.
Proof. now exists []. Qed.

Lemma endsWith_cons {A} (a : A) l suffix :
  endsWith l suffix -> endsWith (a :: l) suffix.
Proof. intros [pre ->]. now exists (a :: pre). Qed.

Lemma endsWith_app {A} (l1 l2 suffix : list A) :
  endsWith l2 suffix -> endsWith (l1 ++ l2) suffix.
Proof. intros [pre ->]. exists (l1 ++ pre). now rewrite app_assoc. Qed.

Ltac ends :=
  repeat first [ apply endsWith_refl | apply endsWith_cons | apply endsWith_app ].

Ltac split_in H :=
  repeat (destruct H as [H|H]; [try discriminate H|]); try contradiction.

Lemma pollTrace_error id l e :
  pollTrace id l (Val (Some e)) ->
  is_Canceled e = true /\ exists rsp, endsWith l [ReqInfo id (rsp, Some e)].
Proof.
  intros H. remember (Val (Some e)) as po eqn:Hpo.
  induction H as [rsp err Hc Hs | rsp e0 Hc | err Hc | | rsp err t o Hc Hs HP IH];
    try discriminate.
  - injection Hpo as <-. split; [exact Hc|]. exists rsp. ends.
  - destruct (IH Hpo) as (Hc' & rsp' & Hend). split; [exact Hc'|].
    exists rsp'. ends. exact Hend.
Qed.

Lemma track_error_is_cancel node (fuel : nat) ctx cl id s e :
  res (track node fuel ctx cl id s) = Val (Some e) -> is_Canceled e = true.
Proof.
  rewrite track_out. cbn zeta. cbn [res]. intros H.
  pose proof (trackLoop_pollTrace node ctx cl id fuel s) as HP.
  rewrite H in HP. exact (proj1 (pollTrace_error _ _ _ HP)).
Qed.

(** X9.  The only error [track] ever returns is a cancellation, and it is
    the error of the status query [track] made last: a query that fails in
    any other way never makes [track] return an error. *)
Theorem track_fails_only_on_cancel node (fuel : nat) ctx cl id s e :
  res (track node fuel ctx cl id s) = Val (Some e) ->
  is_Canceled e = true
  /\ exists rsp,
       endsWith (events (evs (track node fuel ctx cl id s)))
                [ReqInfo id (rsp, Some e)].
Proof.
  rewrite track_out. cbn zeta. cbn [res evs]. intros H.
  pose proof (trackLoop_pollTrace node ctx cl id fuel s) as HP.
  rewrite H in HP. destruct (pollTrace_error _ _ _ HP) as (Hc & rsp & Hend).
  split; [exact Hc|]. exists rsp. rewrite events_cons. ends. exact Hend.
Qed.

Lemma track_fails_only_on_cancel_witness :
  is_Canceled context_Canceled = true.
Proof.
  exact (proj1 (track_fails_only_on_cancel Demo.nodeCancelled 3 Demo.never
                  Demo.cl [] Demo.start context_Canceled eq_refl)).
Defined.

(** ** The cancellation loop, lease by lease *)

Lemma cancelLoop_LoopRun lib node epoch (fuel : nat) ctx cl dry scheme sk pk fee :
  forall leasings i s,
    let o := cancelLoop lib node epoch fuel ctx cl dry scheme sk pk fee i leasings s in
    LoopRun lib epoch dry scheme sk pk fee i leasings (evs o) (res o).
Proof.
  induction leasings as [|lease rest IH]; intros i s; cbn zeta.
  - cbn. constructor.
  - cbn [cancelLoop].
    rewrite (bind_after (timestamp epoch) _ s _ s [] eq_refl), after_nil.
    fold (cancelAt epoch scheme pk fee (clock s) lease).
    set (cancel := cancelAt epoch scheme pk fee (clock s) lease).
    rewrite (bind_after _ _ _ _ _ _ (Sign_out lib scheme sk cancel s)).
    destruct (signBody lib scheme sk cancel) as [[id proofs]|e] eqn:Hsign.
    + fold (signedWith cancel id proofs).
      set (signed := signedWith cancel id proofs).
      destruct dry.
      * rewrite bind_call.
        destruct (json_Marshal lib signed) as [b|e] eqn:Hjson.
        -- rewrite bind_log. rewrite !after_after. cbn [app].
           unfold after. cbn [res evs app].
           apply LR_printed; [reflexivity | exact Hsign | exact Hjson | apply IH].
        -- rewrite bind_log. unfold ret. rewrite !after_mkOut. cbn [app res evs].
           now apply LR_json_failed.
      * cbn [ID signed signedWith]. fold (signedWith cancel id proofs). fold signed.
        rewrite bind_log.
        destruct (bind_request ctx (ReqBroadcast signed)
                    (Transactions_Broadcast node signed) (Some (Abandoned node))
                    (fun err => match err with
                       | Some err => failed err (LogBroadcastFailed err)
                       | None =>
                           err <- track node fuel ctx cl id ;;
                           match err with
                           | Some err => failed err (LogTrackFailed err)
                           | None => cancelLoop lib node epoch fuel ctx cl false
                                       scheme sk pk fee (i + 1) rest
                           end
                       end) s) as (v & s1 & E & _).
        unfold broadcast, cl_Transactions_Broadcast. rewrite E. clear E.
        destruct v as [err|].
        -- rewrite failed_out.
           pose proof (LR_broadcast_failed lib epoch false scheme sk pk fee i lease
                         rest (clock s) id proofs err (clock s1) eq_refl Hsign) as HL.
           fold cancel signed in HL.
           destruct (is_Canceled err); rewrite !after_mkOut; cbn [app res evs];
             exact HL.
        -- rewrite bind_unfold.
           pose proof (trackLoop_pollTrace node ctx cl id fuel s1) as HP.
           pose proof (track_error_is_cancel node fuel ctx cl id s1) as HC.
           rewrite track_out in *. cbn zeta in *. cbn [res fin evs] in *.
           destruct (trackLoop node fuel ctx cl id s1) as [r s2 e2].
           cbn [res fin evs] in *.
           destruct r as [[err|]| |].
           ++ rewrite failed_out, (HC err eq_refl).
              rewrite !after_mkOut. cbn [app res evs]. rewrite app_nil_r.
              exact (LR_poll_stopped lib epoch false scheme sk pk fee i lease rest
                       (clock s) id proofs (clock s1) e2 (Val (Some err))
                       eq_refl Hsign HP ltac:(discriminate)).
           ++ rewrite !after_after. cbn [app]. unfold after. cbn [res evs app].
              rewrite <- ?app_assoc. cbn [app].
              apply LR_confirmed; [reflexivity | exact Hsign | exact HP | apply IH].
           ++ rewrite !after_mkOut. cbn [app res evs].
              exact (LR_poll_stopped lib epoch false scheme sk pk fee i lease rest
                       (clock s) id proofs (clock s1) e2 Panic
                       eq_refl Hsign HP ltac:(discriminate)).
           ++ rewrite !after_mkOut. cbn [app res evs].
              exact (LR_poll_stopped lib epoch false scheme sk pk fee i lease rest
                       (clock s) id proofs (clock s1) e2 Spin
                       eq_refl Hsign HP ltac:(discriminate)).
    + rewrite bind_log. unfold ret. rewrite !after_mkOut. cbn [app res evs].
      now apply LR_sign_failed.
Qed.

Lemma pollTrace_sequential id l po :
  pollTrace id l po ->
  forall rest,
    (po = Val None -> sequential None rest) ->
    (po <> Val None -> rest = []) ->
    sequential (Some id) (l ++ rest).
Proof.
  induction 1 as [rsp err Hc Hs | rsp e Hc | err Hc | | rsp err t o Hc Hs HP IH];
    intros rest Hok Hstop; cbn [app sequential].
  - split; [reflexivity|]. rewrite Hc. apply Z.eqb_eq in Hs. rewrite Hs. now apply Hok.
  - split; [reflexivity|]. cbn [errors_Is_Canceled]. rewrite Hc.
    rewrite (Hstop ltac:(discriminate)). constructor.
  - split; [reflexivity|]. rewrite Hc. apply Hstop. discriminate.
  - rewrite (Hstop ltac:(discriminate)). exact I.
  - split; [reflexivity|]. rewrite Hc. apply Z.eqb_neq in Hs. rewrite Hs.
    now apply IH.
Qed.

Lemma LoopRun_sequential lib epoch dry scheme sk pk fee i leasings tr r :
  LoopRun lib epoch dry scheme sk pk fee i leasings tr r ->
  sequential None (events tr).
Proof.
  induction 1 as [ i | i lease rest t e Hs | i lease rest t id proofs e Hd Hs Hj
                 | i lease rest t id proofs b tr r Hd Hs Hj HL IH
                 | i lease rest t id proofs err t' Hd Hs
                 | i lease rest t id proofs t1 ptr po Hd Hs HP Hpo
                 | i lease rest t id proofs t1 ptr tr r Hd Hs HP HL IH ];
    unfold events in *; cbn [map snd sequential]; auto.
  - repeat split. destruct (is_Canceled err); repeat constructor.
  - split; [reflexivity|]. split; [reflexivity|]. exists id. split; [reflexivity|].
    rewrite <- (app_nil_r (map snd ptr)).
    apply (pollTrace_sequential id _ po HP); [intros; contradiction | reflexivity].
  - split; [reflexivity|]. split; [reflexivity|]. exists id. split; [reflexivity|].
    rewrite map_app.
    apply (pollTrace_sequential id _ _ HP); [intros _; exact IH | intros; contradiction].
Qed.

(** X10.  The loop submits strictly one lease at a time: a transaction is
    signed and broadcast only while no confirmation is awaited, every
    accepted broadcast is followed by the poll for the identifier of that
    very transaction, the next lease is taken up only after a status query
    returned 200, and once a broadcast is refused or a query is cancelled
    nothing more is submitted. *)
Theorem submissions_are_sequential lib node epoch (fuel : nat) ctx cl dry scheme sk pk
    fee i leasings s :
  sequential None
    (events (evs (cancelLoop lib node epoch fuel ctx cl dry scheme sk pk fee i
                    leasings s))).
Proof.
  eapply LoopRun_sequential. apply cancelLoop_LoopRun.
Qed.

Lemma pollTrace_kinds id l po :
  pollTrace id l po -> Forall (fun e => isInfo e = true \/ isSleep e = true) l.
Proof.
  induction 1; repeat first [apply Forall_nil | apply Forall_cons; [cbn; auto|]];
    assumption.
Qed.

(** X11.  Every transaction the loop hands to [Sign] is a version 2
    cancellation of one of the leases, on the scheme and with the sender key
    and fee the loop was given, stamped with the wall clock, in
    milliseconds, of the instant it is signed, and it is signed with the
    key the loop was given.  Every transaction that is serialized or
    broadcast is such a transaction with the identifier and proofs [Sign]
    computed for it: nothing unsigned is ever submitted. *)
Theorem loop_transactions lib node epoch (fuel : nat) ctx cl dry scheme sk pk fee i
    leasings s :
  let o := cancelLoop lib node epoch fuel ctx cl dry scheme sk pk fee i leasings s in
  let submitted t tx :=
    exists lease id proofs,
      In lease leasings
      /\ signBody lib scheme sk (cancelAt epoch scheme pk fee t lease) = Ok (id, proofs)
      /\ tx = signedWith (cancelAt epoch scheme pk fee t lease) id proofs in
  (forall t sch sk' tx r, In (t, CallSign sch sk' tx r) (evs o) ->
     sch = scheme /\ sk' = sk /\ r = signBody lib scheme sk tx
     /\ exists lease, In lease leasings /\ tx = cancelAt epoch scheme pk fee t lease)
  /\ (forall t tx r, In (t, CallMarshal tx r) (evs o) -> submitted t tx)
  /\ (forall t tx r, In (t, ReqBroadcast tx r) (evs o) -> submitted t tx).
Proof.
  cbv zeta.
  pose proof (cancelLoop_LoopRun lib node epoch fuel ctx cl dry scheme sk pk fee
                leasings i s) as HL. cbn zeta in HL.
  induction HL as [ i | i lease rest t e Hs | i lease rest t id proofs e Hd Hs Hj
                  | i lease rest t id proofs b tr r Hd Hs Hj HL IH
                  | i lease rest t id proofs err t' Hd Hs
                  | i lease rest t id proofs t1 ptr po Hd Hs HP Hpo
                  | i lease rest t id proofs t1 ptr tr r Hd Hs HP HL IH ].
  - repeat split; intros; contradiction.
  - split; [|split].
    + intros t0 sch sk' tx r [[= <- <- <- <- <-]|[[=]|[]]].
      repeat split; [now rewrite Hs|]. exists lease. split; [now left | reflexivity].
    + intros t0 tx r [[=]|[[=]|[]]].
    + intros t0 tx r [[=]|[[=]|[]]].
  - split; [|split].
    + intros t0 sch sk' tx r [[= <- <- <- <- <-]|[[=]|[[=]|[]]]].
      repeat split; [now rewrite Hs|]. exists lease. split; [now left | reflexivity].
    + intros t0 tx r [[=]|[[= <- <- <-]|[[=]|[]]]].
      exists lease, id, proofs. repeat split; [now left | exact Hs].
    + intros t0 tx r [[=]|[[=]|[[=]|[]]]].
  - destruct IH as (I1 & I2 & I3). split; [|split].
    + intros t0 sch sk' tx r' [[= <- <- <- <- <-]|[[=]|[[=]|Hin]]].
      * repeat split; [now rewrite Hs|]. exists lease. split; [now left | reflexivity].
      * destruct (I1 _ _ _ _ _ Hin) as (? & ? & ? & l' & ? & ?).
        repeat split; auto. exists l'. split; [now right | assumption].
    + intros t0 tx r' [[=]|[[= <- <- <-]|[[=]|Hin]]].
      * exists lease, id, proofs. repeat split; [now left | exact Hs].
      * destruct (I2 _ _ _ Hin) as (l' & id' & p' & ? & ? & ?).
        exists l', id', p'. repeat split; auto. now right.
    + intros t0 tx r' [[=]|[[=]|[[=]|Hin]]].
      destruct (I3 _ _ _ Hin) as (l' & id' & p' & ? & ? & ?).
      exists l', id', p'. repeat split; auto. now right.
  - split; [|split].
    + intros t0 sch sk' tx r [[= <- <- <- <- <-]|[[=]|[[=]|Hin]]].
      * repeat split; [now rewrite Hs|]. exists lease. split; [now left | reflexivity].
      * destruct (is_Canceled err); [destruct Hin | destruct Hin as [[=]|[]]].
    + intros t0 tx r [[=]|[[=]|[[=]|Hin]]].
      destruct (is_Canceled err); [destruct Hin | destruct Hin as [[=]|[]]].
    + intros t0 tx r [[=]|[[=]|[[= <- <- <-]|Hin]]].
      * exists lease, id, proofs. repeat split; [now left | exact Hs].
      * destruct (is_Canceled err); [destruct Hin | destruct Hin as [[=]|[]]].
  - pose proof (pollTrace_kinds _ _ _ HP) as HK. rewrite Forall_forall in HK.
    assert (Hp : forall x, In x ptr -> isInfo (snd x) = true \/ isSleep (snd x) = true).
    { intros x Hx. apply HK. unfold events. now apply in_map. }
    split; [|split].
    + intros t0 sch sk' tx r [[= <- <- <- <- <-]|[[=]|[[=]|[[=]|Hin]]]].
      * repeat split; [now rewrite Hs|]. exists lease. split; [now left | reflexivity].
      * destruct (Hp _ Hin) as [H|H]; discriminate.
    + intros t0 tx r [[=]|[[=]|[[=]|[[=]|Hin]]]].
      destruct (Hp _ Hin) as [H|H]; discriminate.
    + intros t0 tx r [[=]|[[=]|[[= <- <- <-]|[[=]|Hin]]]].
      * exists lease, id, proofs. repeat split; [now left | exact Hs].
      * destruct (Hp _ Hin) as [H|H]; discriminate.
  - pose proof (pollTrace_kinds _ _ _ HP) as HK. rewrite Forall_forall in HK.
    assert (Hp : forall x, In x ptr -> isInfo (snd x) = true \/ isSleep (snd x) = true).
    { intros x Hx. apply HK. unfold events. now apply in_map. }
    destruct IH as (I1 & I2 & I3). split; [|split].
    + intros t0 sch sk' tx r' [[= <- <- <- <- <-]|[[=]|[[=]|[[=]|Hin]]]].
      * repeat split; [now rewrite Hs|]. exists lease. split; [now left | reflexivity].
      * apply in_app_or in Hin. destruct Hin as [Hin|Hin].
        -- destruct (Hp _ Hin) as [H|H]; discriminate.
        -- destruct (I1 _ _ _ _ _ Hin) as (? & ? & ? & l' & ? & ?).
           repeat split; auto. exists l'. split; [now right | assumption].
    + intros t0 tx r' [[=]|[[=]|[[=]|[[=]|Hin]]]].
      apply in_app_or in Hin. destruct Hin as [Hin|Hin].
      * destruct (Hp _ Hin) as [H|H]; discriminate.
      * destruct (I2 _ _ _ Hin) as (l' & id' & p' & ? & ? & ?).
        exists l', id', p'. repeat split; auto. now right.
    + intros t0 tx r' [[=]|[[=]|[[= <- <- <-]|[[=]|Hin]]]].
      * exists lease, id, proofs. repeat split; [now left | exact Hs].
      * apply in_app_or in Hin. destruct Hin as [Hin|Hin].
        -- destruct (Hp _ Hin) as [H|H]; discriminate.
        -- destruct (I3 _ _ _ Hin) as (l' & id' & p' & ? & ? & ?).
           exists l', id', p'. repeat split; auto. now right.
Qed.

(** X12.  The loop gives up at the first failure: when a signature, a
    serialization or a broadcast fails, the loop writes at most one more log
    line and returns ([errUserTermination] when the broadcast was
    cancelled, [errFailure] otherwise); the leases that remain are not
    touched. *)
Theorem first_failure_ends_loop lib node epoch (fuel : nat) ctx cl dry scheme sk pk
    fee i leasings s :
  let o := cancelLoop lib node epoch fuel ctx cl dry scheme sk pk fee i leasings s in
  (forall t sch sk' tx e, In (t, CallSign sch sk' tx (Err e)) (evs o) ->
     res o = Val (Some errFailure)
     /\ endsWith (evs o) [(t, CallSign sch sk' tx (Err e)); (t, Log (LogSignFailed e))])
  /\ (forall t tx e, In (t, CallMarshal tx (Err e)) (evs o) ->
        res o = Val (Some errFailure)
        /\ endsWith (evs o) [(t, CallMarshal tx (Err e)); (t, Log (LogJSONFailed e))])
  /\ (forall t tx err, In (t, ReqBroadcast tx (Some err)) (evs o) ->
        res o = Val (Some (if is_Canceled err then errUserTermination else errFailure))
        /\ exists t',
             endsWith (evs o)
               ((t, ReqBroadcast tx (Some err))
                  :: if is_Canceled err then []
                     else [(t', Log (LogBroadcastFailed err))])).
Proof.
  cbv zeta.
  pose proof (cancelLoop_LoopRun lib node epoch fuel ctx cl dry scheme sk pk fee
                leasings i s) as HL. cbn zeta in HL.
  induction HL as [ i | i lease rest t e Hs | i lease rest t id proofs e Hd Hs Hj
                  | i lease rest t id proofs b tr r Hd Hs Hj HL IH
                  | i lease rest t id proofs err t' Hd Hs
                  | i lease rest t id proofs t1 ptr po Hd Hs HP Hpo
                  | i lease rest t id proofs t1 ptr tr r Hd Hs HP HL IH ].
  - repeat split; intros; contradiction.
  - split; [|split]; intros; split_in H.
    injection H as <- <- <- <- <-. split; [reflexivity | ends].
  - split; [|split]; intros; split_in H.
    injection H as <- <- <-. split; [reflexivity | ends].
  - destruct IH as (I1 & I2 & I3). split; [|split]; intros; split_in H.
    + destruct (I1 _ _ _ _ _ H). split; [assumption | ends; assumption].
    + destruct (I2 _ _ _ H). split; [assumption | ends; assumption].
    + destruct (I3 _ _ _ H) as (? & t'' & ?). split; [assumption|].
      exists t''. ends; assumption.
  - split; [|split]; intros.
    + split_in H. destruct (is_Canceled err); split_in H.
    + split_in H. destruct (is_Canceled err); split_in H.
    + destruct H as [H|[H|[H|H]]]; try discriminate.
      * injection H as <- <- <-. split; [reflexivity|]. exists t'. ends.
      * destruct (is_Canceled err); split_in H.
  - pose proof (pollTrace_kinds _ _ _ HP) as HK. rewrite Forall_forall in HK.
    assert (Hp : forall x, In x ptr -> isInfo (snd x) = true \/ isSleep (snd x) = true).
    { intros x Hx. apply HK. unfold events. now apply in_map. }
    split; [|split]; intros; destruct H as [H|[H|[H|[H|H]]]]; try discriminate;
      destruct (Hp _ H) as [H'|H']; discriminate.
  - pose proof (pollTrace_kinds _ _ _ HP) as HK. rewrite Forall_forall in HK.
    assert (Hp : forall x, In x ptr -> isInfo (snd x) = true \/ isSleep (snd x) = true).
    { intros x Hx. apply HK. unfold events. now apply in_map. }
    destruct IH as (I1 & I2 & I3).
    split; [|split]; intros; destruct H as [H|[H|[H|[H|H]]]]; try discriminate;
      apply in_app_or in H; (destruct H as [H|H];
                             [destruct (Hp _ H) as [H'|H']; discriminate|]).
    + destruct (I1 _ _ _ _ _ H). split; [assumption | ends; assumption].
    + destruct (I2 _ _ _ H). split; [assumption | ends; assumption].
    + destruct (I3 _ _ _ H) as (? & t'' & ?). split; [assumption|].
      exists t''. ends; assumption.
Qed.

(** X13.  In a dry run the loop does not look at the node, the client, the
    cancellation context or the fuel: its trace and result are the same
    whatever they are.  An interrupt that arrives while the transactions are
    being printed is not noticed. *)
Theorem dry_loop_ignores_the_node lib epoch scheme sk pk fee
    node node' (fuel fuel' : nat) ctx ctx' cl cl' :
  forall leasings i s,
    cancelLoop lib node epoch fuel ctx cl true scheme sk pk fee i leasings s
    = cancelLoop lib node' epoch fuel' ctx' cl' true scheme sk pk fee i leasings s.
Proof.
  induction leasings as [|lease rest IH]; intros i s; [reflexivity|].
  cbn [cancelLoop].
  rewrite !(bind_after (timestamp epoch) _ s _ s [] eq_refl).
  set (cancel := NewUnsignedLeaseCancelWithProofs 2 scheme pk lease fee _).
  rewrite !(bind_after _ _ _ _ _ _ (Sign_out lib scheme sk cancel s)).
  destruct (signBody lib scheme sk cancel) as [[id proofs]|e]; [|reflexivity].
  rewrite !bind_call.
  destruct (json_Marshal lib _) as [b|e]; [|reflexivity].
  rewrite !bind_log. now rewrite IH.
Qed.

(** ** The anatomy of a run *)

Lemma failed_events err l s :
  events (evs (failed err l s)) = failedE err l
  /\ res (failed err l s) = failedR err.
Proof.
  rewrite failed_out. unfold failedE, failedR.
  destruct (is_Canceled err); split; reflexivity.
Qed.

Lemma getExtraFee_cases lib node ctx cl addr s :
  (exists err s1 fe,
     getExtraFee lib node ctx cl addr s = mkOut (Val (Err err)) s1 fe
     /\ (events fe = []
         \/ exists req v, events fe = [ReqDo req v]
              /\ (v = Err err
                  \/ exists rsp body, v = Ok (rsp, body)
                       /\ StatusCode rsp <> http_StatusOK)))
  \/ (exists req rsp body s1,
        getExtraFee lib node ctx cl addr s
        = mkOut (Val (Ok (ExtraFee body))) s1 [(clock s, ReqDo req (Ok (rsp, body)))]
        /\ StatusCode rsp = http_StatusOK).
Proof.
  unfold getExtraFee.
  destruct (http_NewRequest lib _ _) as [req|e].
  2:{ left. exists e, s, []. split; [reflexivity|]. now left. }
  unfold cl_Do.
  destruct (bind_request ctx (ReqDo req) (client_Do node req) (Err (Abandoned node))
              (fun r => match r with
                        | Err err => ret (Err err)
                        | Ok (rsp, extraFee) =>
                            if negb (StatusCode rsp =? http_StatusOK)
                            then ret (Err (errorString "failed to get extra fee"))
                            else ret (Ok (ExtraFee extraFee))
                        end) s) as (v & s1 & E & _).
  rewrite E.
  destruct v as [[rsp body]|err].
  - destruct (StatusCode rsp =? http_StatusOK) eqn:Hs; cbn [negb]; unfold ret;
      rewrite after_mkOut; cbn [app].
    + right. exists req, rsp, body, s1. apply Z.eqb_eq in Hs. now split.
    + left. eexists _, _, _. split; [reflexivity|]. right.
      exists req, (Ok (rsp, body)). split; [reflexivity|]. right.
      exists rsp, body. apply Z.eqb_neq in Hs. now split.
  - unfold ret. rewrite after_mkOut. cbn [app]. left.
    eexists _, _, _. split; [reflexivity|]. right.
    exists req, (Err err). split; [reflexivity|]. now left.
Qed.

(** The tail of [run] follows the grammar. *)
Lemma cancelLeasings_TailTrace lib node epoch (fuel : nat) ctx cl dry scheme sk pk
    addr s :
  let X := cancelLeasings lib node epoch fuel ctx cl dry scheme sk pk addr s in
  TailTrace lib node epoch fuel ctx cl dry scheme sk pk addr (events (evs X)) (res X).
Proof.
  cbn zeta. unfold cancelLeasings. rewrite bind_unfold.
  destruct (getActiveLeasings_out node ctx cl addr s) as (v & s1 & _ & E).
  rewrite E. cbn [res fin evs].
  destruct v as [txs|err].
  - destruct (leasingsLoop txs 0 0 _) as [[ids total]| |] eqn:HL.
    + rewrite bind_log.
      destruct (getExtraFee_cases lib node ctx cl addr s1)
        as [(err & s2 & fe & E1 & Hfe) | (req & rsp & body & s2 & E1 & Hst)];
        rewrite (bind_after _ _ _ _ _ _ E1).
      * destruct (failed_events err (LogExtraFeeFailed addr err) s2) as (HE & HR).
        destruct (failed err _ s2) as [r s3 e3]. cbn [evs res] in HE, HR. subst r.
        unfold after. cbn [evs res app]. rewrite !events_cons, events_app, HE.
        apply TT_fee_failed; assumption.
      * rewrite (bind_after _ _ _ _ _ _ (either_log_out _ _ _ s2)).
        cbn zeta. rewrite bind_unfold.
        pose proof (TT_loop lib node epoch fuel ctx cl dry scheme sk pk addr
                      txs ids total req rsp body s2 HL Hst) as HT.
        cbn zeta in HT.
        destruct (cancelLoop lib node epoch fuel ctx cl dry scheme sk pk _ 0 ids s2)
          as [r s3 e3].
        cbn [res fin evs] in *.
        destruct r as [[err|]| |]; rewrite ?bind_log; unfold ret; flatten;
          cbn [res evs]; rewrite ?events_cons, ?events_app, ?events_cons in *;
          rewrite ?app_nil_r in HT; rewrite ?app_nil_r; exact HT.
    + apply TT_leases_panic. rewrite HL. discriminate.
    + apply TT_leases_panic. rewrite HL. discriminate.
  - destruct (failed_events err (LogLeasingsFailed err) s1) as (HE & HR).
    destruct (failed err _ s1) as [r s3 e3]. cbn [evs res] in HE, HR. subst r.
    unfold after. cbn [evs res app]. rewrite events_cons, HE. apply TT_leases_failed.
Qed.

Lemma optional_log_events (c : bool) l s :
  exists e, (if c then log l else ret tt) s = mkOut (Val tt) s e
            /\ events e = optE c (Log l).
Proof.
  destruct c; eexists; split; reflexivity.
Qed.

Lemma nodeClient_cases lib node ctx url s :
  (exists err s1 ne,
     nodeClient lib node ctx url s = mkOut (Val (Err err)) s1 ne
     /\ (events ne = [] \/ events ne = [ReqHeight (Some err)]))
  \/ (exists cl s1,
        nodeClient lib node ctx url s
        = mkOut (Val (Ok cl)) s1 [(clock s, ReqHeight None)]).
Proof.
  unfold nodeClient.
  destruct (if strings_Contains url "//" then _ else _) as [u|e].
  2:{ left. exists e, s, []. split; [reflexivity | now left]. }
  destruct (_ && _).
  { left. eexists _, s, []. split; [reflexivity | now left]. }
  destruct (client_NewClient lib _) as [cl'|e].
  2:{ left. exists e, s, []. split; [reflexivity | now left]. }
  unfold cl_Blocks_Height.
  destruct (bind_request ctx ReqHeight (Blocks_Height node) (Some (Abandoned node))
              (fun err => match err with
                          | Some err => ret (Err err)
                          | None => ret (Ok cl')
                          end) s) as (v & s1 & E & _).
  rewrite E. destruct v as [err|]; unfold ret; rewrite after_mkOut; cbn [app].
  - left. eexists _, _, _. split; [reflexivity | now right].
  - right. now exists cl', s1.
Qed.

Lemma getScheme_cases node ctx cl s :
  (exists err s1,
     getScheme node ctx cl s = mkOut (Val (Err err)) s1 [(clock s, ReqLast (Err err))])
  \/ (exists b scheme s1,
        getScheme node ctx cl s = mkOut (Val (Ok scheme)) s1 [(clock s, ReqLast (Ok b))]
        /\ nth_error (Generator b) 1 = Some scheme).
Proof.
  unfold getScheme, cl_Blocks_Last.
  destruct (bind_request ctx ReqLast (Blocks_Last node) (Err (Abandoned node))
              (fun r => match r with
                        | Err err => ret (Err err)
                        | Ok b => ret (Ok (nth 1 (Generator b) Byte.x00))
                        end) s) as (v & s1 & E & _).
  rewrite E. destruct v as [b|err]; unfold ret; rewrite after_mkOut; cbn [app].
  - right. exists b, (nth 1 (Generator b) Byte.x00), s1.
    split; [reflexivity | apply Generator_scheme].
  - left. now exists err, s1.
Qed.

Ltac to_events :=
  unfold after; cbn [evs res fin app];
  rewrite ?events_app, ?events_cons; cbn [events map snd app].

Ltac leaf HT :=
  unfold schemeE, connE, headE, keyE in HT;
  try match goal with
      | H : (accountPK _ =? _)%string = _ |- _ => rewrite !H in HT
      end;
  unfold after; cbn [evs res fin];
  rewrite ?events_app, ?events_cons; cbn [events map snd];
  repeat match goal with H : events _ = _ |- _ => rewrite H; clear H end;
  rewrite <- ?app_assoc in HT; rewrite <- ?app_assoc;
  cbn [app] in HT |- *; exact HT.

(** Every run follows the grammar. *)
Lemma run_RunTrace lib node epoch interruptAt (fuel : nat) fl s :
  let o := run lib node epoch interruptAt fuel fl s in
  RunTrace lib node epoch fuel interruptAt fl (events (evs o)) (res o).
Proof.
  cbn zeta. unfold run.
  destruct (showHelp fl) eqn:Hh.
  { rewrite bind_log. unfold ret. to_events. apply RT_rejected; [|tauto].
    unfold paramsOK. now rewrite Hh. }
  destruct (showVersion fl) eqn:Hv.
  { rewrite bind_log. unfold ret. to_events. apply RT_rejected; [|tauto].
    unfold paramsOK. now rewrite Hh, Hv. }
  destruct (_ || _) eqn:Hu.
  { rewrite bind_log. unfold ret. to_events. apply RT_rejected; [|tauto].
    unfold paramsOK. now rewrite Hh, Hv, Hu. }
  destruct ((accountSK fl =? "")%string || _) eqn:Hk.
  { rewrite bind_log. unfold ret. to_events. apply RT_rejected; [|tauto].
    unfold paramsOK. rewrite Hh, Hv, Hu, Hk. reflexivity. }
  assert (HOK : paramsOK fl = true).
  { unfold paramsOK. now rewrite Hh, Hv, Hu, Hk. }
  clear Hh Hv Hu Hk.
  destruct (optional_log_events ((accountPK fl =? "")%string
              || (1 <? List.length (strings_Fields (accountPK fl)))%nat) LogNoPK s)
    as (ea & Ea & Ha).
  rewrite (bind_after _ _ _ _ _ _ Ea). clear Ea.
  destruct (optional_log_events (dryRun fl) LogDryRun s) as (eb & Eb & Hb).
  rewrite (bind_after _ _ _ _ _ _ Eb). clear Eb.
  unfold interruptListener. rewrite bind_ret.
  set (ctx := {| doneAt := interruptAt |}).
  destruct (nodeClient_cases lib node ctx (nodeURL fl) s)
    as [(err & s1 & ne & E1 & Hne) | (cl & s1 & E1)];
    rewrite (bind_after _ _ _ _ _ _ E1); clear E1.
  { destruct (failed_events err (LogConnectFailed (nodeURL fl) err) s1) as (HE & HR).
    destruct (failed err _ s1) as [r s3 e3]. cbn [evs res] in HE, HR. subst r.
    destruct Hne as [Hne | Hne].
    - pose proof (RT_connect_failed lib node epoch fuel interruptAt fl [] err HOK
                    (or_introl eq_refl)) as HT.
      leaf HT.
    - pose proof (RT_connect_failed lib node epoch fuel interruptAt fl _ err HOK
                    (or_intror eq_refl)) as HT.
      leaf HT. }
  rewrite bind_log.
  rewrite bind_unfold.
  destruct (getScheme_cases node ctx cl s1)
    as [(err & s2 & E2) | (b & scheme & s2 & E2 & Hn)];
    rewrite E2; cbn [res fin evs]; clear E2.
  { destruct (failed_events err (LogSchemeFailed err) s2) as (HE & HR).
    destruct (failed err _ s2) as [r s3 e3]. cbn [evs res] in HE, HR. subst r.
    pose proof (RT_scheme_failed lib node epoch fuel interruptAt fl cl err HOK) as HT.
    leaf HT. }
  rewrite bind_log.
  rewrite bind_unfold, parseSK_out.
  destruct (NewSecretKeyFromBase58 lib (accountSK fl)) as [sk|err] eqn:Hsk.
  2:{ cbn [res fin evs]. rewrite bind_log. unfold ret.
      pose proof (RT_key_failed lib node epoch fuel interruptAt fl cl b scheme err
                    HOK Hn Hsk) as HT.
      leaf HT. }
  cbn zeta. cbn [res fin evs].
  destruct (NewAddressFromPublicKey lib scheme (GeneratePublicKey lib sk))
    as [addr|err] eqn:Haddr.
  2:{ rewrite bind_log. unfold ret.
      pose proof (RT_address_failed lib node epoch fuel interruptAt fl cl b scheme sk err
                    HOK Hn Hsk Haddr) as HT.
      unfold keyE in HT. rewrite Haddr in HT. leaf HT. }
  destruct (accountPK fl =? "")%string eqn:Hpk; cbn [negb].
  - rewrite bind_ret, !bind_log.
    pose proof (cancelLeasings_TailTrace lib node epoch fuel ctx cl (dryRun fl) scheme sk
                  (GeneratePublicKey lib sk) addr s2) as HT. cbn zeta in HT.
    assert (Hc : if (accountPK fl =? "")%string
                 then GeneratePublicKey lib sk = GeneratePublicKey lib sk
                 else NewPublicKeyFromBase58 lib (accountPK fl)
                      = Ok (GeneratePublicKey lib sk)) by now rewrite Hpk.
    pose proof (RT_account lib node epoch fuel interruptAt fl cl b scheme sk
                  (GeneratePublicKey lib sk) addr _ _ HOK Hn Hsk Hc Haddr HT) as HR.
    rewrite Hpk in HR. clear HT Hc.
    unfold keyE in HR. rewrite Haddr in HR. leaf HR.
  - rewrite bind_unfold. rewrite bind_call.
    destruct (NewPublicKeyFromBase58 lib (accountPK fl)) as [pk|err] eqn:Hpk2.
    2:{ rewrite bind_log. unfold ret.
        pose proof (RT_override_key_failed lib node epoch fuel interruptAt fl cl b scheme
                      sk err HOK Hn Hsk Hpk Hpk2) as HT.
        unfold keyE in HT. rewrite Haddr in HT. leaf HT. }
    rewrite bind_call.
    destruct (NewAddressFromPublicKey lib scheme pk) as [addr'|err] eqn:Haddr2.
    2:{ rewrite bind_log. unfold ret.
        pose proof (RT_override_address_failed lib node epoch fuel interruptAt fl cl b
                      scheme sk pk err HOK Hn Hsk Hpk Hpk2 Haddr2) as HT.
        unfold keyE in HT. rewrite Haddr in HT. leaf HT. }
    unfold ret, after. cbn [res fin evs].
    rewrite !bind_log.
    pose proof (cancelLeasings_TailTrace lib node epoch fuel ctx cl (dryRun fl) scheme sk
                  pk addr' s2) as HT. cbn zeta in HT.
    assert (Hc : if (accountPK fl =? "")%string
                 then pk = GeneratePublicKey lib sk
                 else NewPublicKeyFromBase58 lib (accountPK fl) = Ok pk)
      by now rewrite Hpk.
    pose proof (RT_account lib node epoch fuel interruptAt fl cl b scheme sk
                  pk addr' _ _ HOK Hn Hsk Hc Haddr2 HT) as HR.
    rewrite Hpk in HR. clear HT Hc.
    unfold keyE in HR. rewrite Haddr in HR. leaf HR.
Qed.

(** ** Cancellation seen by a request *)

Lemma pollTrace_cancelled id l po :
  pollTrace id l po ->
  forall e, In e l -> cancelledReq e = true ->
    (exists err, po = Val (Some err)) /\ endsWith l [e].
Proof.
  induction 1 as [rsp err Hc Hs | rsp e0 Hc | err Hc | | rsp err t o Hc Hs HP IH];
    intros e Hin He.
  - destruct Hin as [<-|[]]. cbn in He. congruence.
  - destruct Hin as [<-|[]]. split; [now exists e0 | ends].
  - destruct Hin as [<-|[]]. cbn in He. congruence.
  - destruct Hin.
  - destruct Hin as [<-|[<-|Hin]].
    + cbn in He. congruence.
    + discriminate.
    + destruct (IH e Hin He) as (Hpo & Hend). split; [exact Hpo | ends; exact Hend].
Qed.

Lemma LoopRun_cancelled lib epoch dry scheme sk pk fee i leasings tr r :
  LoopRun lib epoch dry scheme sk pk fee i leasings tr r ->
  forall e, In e (events tr) -> cancelledReq e = true ->
    r = Val (Some errUserTermination) /\ endsWith (events tr) [e].
Proof.
  induction 1 as [ i | i lease rest t e Hs | i lease rest t id proofs e Hd Hs Hj
                  | i lease rest t id proofs b tr r Hd Hs Hj HL IH
                  | i lease rest t id proofs err t' Hd Hs
                  | i lease rest t id proofs t1 ptr po Hd Hs HP Hpo
                  | i lease rest t id proofs t1 ptr tr r Hd Hs HP HL IH ];
    intros e0 Hin He; cbn [events map snd] in Hin |- *.
  - destruct Hin.
  - destruct Hin as [<-|[<-|[]]]; discriminate.
  - destruct Hin as [<-|[<-|[<-|[]]]]; discriminate.
  - destruct Hin as [<-|[<-|[<-|Hin]]]; try discriminate.
    destruct (IH _ Hin He) as (-> & Hend). split; [reflexivity | ends; exact Hend].
  - destruct Hin as [<-|[<-|[<-|Hin]]]; try discriminate.
    + cbn in He. rewrite He. split; [reflexivity | ends].
    + destruct (is_Canceled err); [destruct Hin|].
      destruct Hin as [<-|[]]. discriminate.
  - destruct Hin as [<-|[<-|[<-|[<-|Hin]]]]; try discriminate.
    destruct (pollTrace_cancelled _ _ _ HP _ Hin He) as ((err & ->) & Hend).
    split; [reflexivity | ends; exact Hend].
  - rewrite map_app in Hin |- *.
    destruct Hin as [<-|[<-|[<-|[<-|Hin]]]]; try discriminate.
    apply in_app_or in Hin. destruct Hin as [Hin|Hin].
    + destruct (pollTrace_cancelled _ _ _ HP _ Hin He) as ((err & [=]) & _).
    + destruct (IH _ Hin He) as (-> & Hend). split; [reflexivity | ends; exact Hend].
Qed.

(** Taking apart membership in a trace of the grammar. *)
Ltac in_trace H :=
  unfold schemeE, connE, headE, keyE, optE, failedE in H;
  repeat match type of H with
         | In _ [] => destruct H
         | In _ (_ :: _) =>
             let H' := fresh "Hhd" in
             destruct H as [H'|H]; [try discriminate H'; try (subst; discriminate)|]
         | In _ (_ ++ _) =>
             let H' := fresh "Hin" in
             apply in_app_or in H; destruct H as [H'|H]; [in_trace H'|]
         | In _ (if ?c then _ else _) => destruct c eqn:?
         end.

Lemma TailTrace_cancelled lib node epoch (fuel : nat) ctx cl dry scheme sk pk addr tl r :
  TailTrace lib node epoch fuel ctx cl dry scheme sk pk addr tl r ->
  forall e, In e tl -> cancelledReq e = true ->
    r = Val (Some errUserTermination) /\ endsWith tl [e].
Proof.
  intros HT e Hin He.
  destruct HT as [ err | txs Hp | txs ids total fe err HL Hfe
                 | txs ids total req rsp body s2 HL Hst o ].
  - unfold failedE, failedR in *.
    destruct Hin as [<-|Hin].
    + cbn in He. rewrite He. split; [reflexivity | ends].
    + destruct (is_Canceled err); [destruct Hin | destruct Hin as [<-|[]]; discriminate].
  - destruct Hin as [<-|[]]. discriminate.
  - unfold failedE, failedR in *.
    destruct Hin as [<-|[<-|Hin]]; try discriminate.
    apply in_app_or in Hin. destruct Hin as [Hin|Hin].
    + destruct Hfe as [-> | (req & v & -> & Hv)]; [destruct Hin|].
      destruct Hin as [<-|[]].
      destruct Hv as [-> | (rsp & body & -> & _)]; [|discriminate].
      cbn in He. rewrite He. split; [reflexivity | ends].
    + destruct (is_Canceled err); [destruct Hin | destruct Hin as [<-|[]]; discriminate].
  - destruct Hin as [<-|[<-|[<-|[<-|Hin]]]]; try discriminate.
    apply in_app_or in Hin. destruct Hin as [Hin|Hin].
    + pose proof (cancelLoop_LoopRun lib node epoch fuel ctx cl dry scheme sk pk
                    (add64 standardFee (ExtraFee body)) ids 0 s2) as HLR.
      cbn zeta in HLR. fold o in HLR.
      destruct (LoopRun_cancelled _ _ _ _ _ _ _ _ _ _ _ HLR _ Hin He) as (Hr & Hend).
      rewrite Hr. rewrite app_nil_r. split; [reflexivity | ends; exact Hend].
    + destruct (res o) as [[x|]| |];
        [destruct Hin | | destruct Hin | destruct Hin].
      destruct Hin as [<-|[<-|[]]]; discriminate.
Qed.

(** X14.  A request that comes back with [context.Canceled] is the last
    thing the run does: nothing is requested, signed or logged after it,
    [run] returns [errUserTermination] and the process exits with status
    130.  This holds for every request of the run: the probe, the scheme,
    the leases, the surcharge, a broadcast and a status query. *)
Theorem cancelled_request_ends_run lib node epoch interruptAt (fuel : nat) fl s e :
  let o := run lib node epoch interruptAt fuel fl s in
  In e (events (evs o)) ->
  cancelledReq e = true ->
  res o = Val (Some errUserTermination)
  /\ endsWith (events (evs o)) [e]
  /\ res (main lib node epoch interruptAt fuel fl s) = Val 130.
Proof.
  cbn zeta. intros Hin He.
  assert (H : res (run lib node epoch interruptAt fuel fl s)
              = Val (Some errUserTermination)
              /\ endsWith (events (evs (run lib node epoch interruptAt fuel fl s))) [e]).
  { pose proof (run_RunTrace lib node epoch interruptAt fuel fl s) as HR.
    cbn zeta in HR.
    destruct HR as [ l r HOK Hl | ne err HOK Hne | cl err HOK
                   | cl b scheme err HOK Hn Hsk
                   | cl b scheme sk err HOK Hn Hsk Haddr
                   | cl b scheme sk err HOK Hn Hsk Hpk Hpk2
                   | cl b scheme sk pk err HOK Hn Hsk Hpk Hpk2 Haddr
                   | cl b scheme sk pk addr tl r HOK Hn Hsk Hc Haddr HT ].
    - destruct Hin as [<-|[]]. discriminate.
    - unfold failedR.
      apply in_app_or in Hin. destruct Hin as [Hin|Hin]; [in_trace Hin|].
      apply in_app_or in Hin. destruct Hin as [Hin|Hin].
      + destruct Hne as [-> | ->]; [destruct Hin|]. destruct Hin as [<-|[]].
        cbn in He. unfold failedE. rewrite He. split; [reflexivity | ends].
      + in_trace Hin.
    - unfold failedR.
      apply in_app_or in Hin. destruct Hin as [Hin|Hin]; [in_trace Hin|].
      destruct Hin as [<-|Hin]; [|in_trace Hin].
      cbn in He. unfold failedE. rewrite He. split; [reflexivity | ends].
    - in_trace Hin.
    - in_trace Hin.
    - in_trace Hin.
    - in_trace Hin.
    - apply in_app_or in Hin. destruct Hin as [Hin|Hin]; [in_trace Hin|].
      apply in_app_or in Hin. destruct Hin as [Hin|Hin]; [in_trace Hin|].
      apply in_app_or in Hin. destruct Hin as [Hin|Hin]; [in_trace Hin|].
      destruct Hin as [<-|[<-|Hin]]; try discriminate.
      destruct (TailTrace_cancelled _ _ _ _ _ _ _ _ _ _ _ _ _ HT _ Hin He) as (-> & Hend).
      split; [reflexivity | ends; exact Hend]. }
  destruct H as (Hr & Hend). split; [exact Hr|]. split; [exact Hend|].
  now rewrite (main_exit _ _ _ _ _ _ _ _ Hr).
Qed.

Lemma cancelled_request_ends_run_witness :
  let o := run Demo.lib (Demo.down Demo.node3 context_Canceled) Demo.epoch None 5
               (Demo.flags "sk" "" false) Demo.start in
  res o = Val (Some errUserTermination)
  /\ endsWith (events (evs o)) [ReqHeight (Some context_Canceled)].
Proof.
  cbv zeta.
  assert (Hin : In (ReqHeight (Some context_Canceled))
                   (events (evs (run Demo.lib (Demo.down Demo.node3 context_Canceled)
                                     Demo.epoch None 5 (Demo.flags "sk" "" false)
                                     Demo.start))))
    by (vm_compute; pick).
  destruct (cancelled_request_ends_run Demo.lib (Demo.down Demo.node3 context_Canceled)
              Demo.epoch None 5 (Demo.flags "sk" "" false) Demo.start
              (ReqHeight (Some context_Canceled)) Hin eq_refl)
    as (Hres & Hend & _).
  split; [exact Hres | exact Hend].
Defined.

(** ** What the loop leaves in the trace *)

Lemma pollTrace_inLoop scheme id l po :
  pollTrace id l po -> Forall (inLoop scheme) l.
Proof.
  intros H. refine (Forall_impl _ _ (pollTrace_kinds _ _ _ H)).
  intros [] [He|He]; try discriminate He; (split; [reflexivity | intros ? []]).
Qed.

Lemma Forall_events (P : event -> Prop) t :
  Forall P (events t) <-> Forall (fun te => P (snd te)) t.
Proof. unfold events. apply Forall_map. Qed.

Lemma LoopRun_inLoop lib epoch dry scheme sk pk fee i leasings tr r :
  LoopRun lib epoch dry scheme sk pk fee i leasings tr r ->
  Forall (inLoop scheme) (events tr).
Proof.
  assert (Hsch : forall t lease (sch : Scheme),
             In sch [scheme; ChainID (cancelAt epoch scheme pk fee t lease)] ->
             sch = scheme).
  { intros t lease sch [<-|[<-|[]]]; reflexivity. }
  assert (Hone : forall (sch : Scheme), In sch [scheme] -> sch = scheme).
  { intros sch [<-|[]]. reflexivity. }
  assert (Hnone : forall (sch : Scheme), In sch [] -> sch = scheme).
  { intros sch []. }
  induction 1 as [ i | i lease rest t e Hs | i lease rest t id proofs e Hd Hs Hj
                  | i lease rest t id proofs b tr r Hd Hs Hj HL IH
                  | i lease rest t id proofs err t' Hd Hs
                  | i lease rest t id proofs t1 ptr po Hd Hs HP Hpo
                  | i lease rest t id proofs t1 ptr tr r Hd Hs HP HL IH ];
    cbn [events map snd];
    repeat first
      [ apply Forall_nil
      | apply Forall_cons;
        [split; [reflexivity | first [apply Hsch | exact Hone | exact Hnone]]|]
      | exact IH ].
  - destruct (is_Canceled err); repeat constructor. exact Hnone.
  - exact (pollTrace_inLoop scheme _ _ _ HP).
  - fold (events (ptr ++ tr)). rewrite events_app. apply Forall_app. split.
    + exact (pollTrace_inLoop scheme _ _ _ HP).
    + exact IH.
Qed.

Lemma pollTrace_panic id l :
  pollTrace id l Panic ->
  exists err, endsWith l [ReqInfo id (None, err)]
              /\ errors_Is_Canceled err = false.
Proof.
  intros H. remember Panic as po eqn:Hpo.
  induction H as [rsp err Hc Hs | rsp e0 Hc | err Hc | | rsp err t o Hc Hs HP IH];
    try discriminate.
  - exists err. split; [ends | exact Hc].
  - destruct (IH Hpo) as (err' & Hend & Hc'). exists err'. split; [ends; exact Hend | exact Hc'].
Qed.

Lemma LoopRun_panic lib epoch dry scheme sk pk fee i leasings tr r :
  LoopRun lib epoch dry scheme sk pk fee i leasings tr r ->
  r = Panic ->
  exists id err, endsWith (events tr) [ReqInfo id (None, err)]
                 /\ errors_Is_Canceled err = false.
Proof.
  induction 1 as [ i | i lease rest t e Hs | i lease rest t id proofs e Hd Hs Hj
                  | i lease rest t id proofs b tr r Hd Hs Hj HL IH
                  | i lease rest t id proofs err t' Hd Hs
                  | i lease rest t id proofs t1 ptr po Hd Hs HP Hpo
                  | i lease rest t id proofs t1 ptr tr r Hd Hs HP HL IH ];
    intros Hr; try discriminate; cbn [events map snd].
  - destruct (IH Hr) as (id' & err' & Hend & Hc). exists id', err'.
    split; [ends; exact Hend | exact Hc].
  - destruct po as [x| |]; try discriminate.
    destruct (pollTrace_panic _ _ HP) as (err' & Hend & Hc). exists id, err'.
    split; [ends; exact Hend | exact Hc].
  - destruct (IH Hr) as (id' & err' & Hend & Hc). exists id', err'.
    split; [|exact Hc]. rewrite map_app. ends. exact Hend.
Qed.

Ltac in_trace_k H k :=
  unfold schemeE, connE, headE, keyE, optE, failedE in H;
  repeat match type of H with
         | In _ [] => destruct H
         | In _ (_ :: _) =>
             let H' := fresh "Hhd" in
             destruct H as [H'|H]; [try discriminate H'; try (subst; k)|]
         | In _ (_ ++ _) =>
             let H' := fresh "Hin" in
             apply in_app_or in H; destruct H as [H'|H]; [in_trace_k H' k|]
         | In _ (if ?c then _ else _) => destruct c eqn:?
         end.

Ltac find_in :=
  first [ left; reflexivity | right; find_in | apply in_or_app; right; find_in ].

Ltac one_of Hs :=
  try match type of Hs with context [if ?c then _ else _] => destruct c end;
  cbn in Hs; repeat (destruct Hs as [Hs|Hs]; [now subst|]); contradiction.

(** ** One scheme *)

Lemma TailTrace_schemes lib node epoch (fuel : nat) ctx cl dry scheme sk pk addr tl r :
  TailTrace lib node epoch fuel ctx cl dry scheme sk pk addr tl r ->
  forall e sch, In e tl -> In sch (schemesOf e) -> sch = scheme.
Proof.
  intros HT e sch Hin Hs.
  destruct HT as [ err | txs Hp | txs ids total fe err HL Hfe
                 | txs ids total req rsp body s2 HL Hst o ].
  - in_trace_k Hin ltac:(one_of Hs).
  - in_trace_k Hin ltac:(one_of Hs).
  - destruct Hfe as [-> | (req & v & -> & _)]; in_trace_k Hin ltac:(one_of Hs).
  - destruct Hin as [<-|[<-|[<-|[<-|Hin]]]]; try one_of Hs.
    apply in_app_or in Hin. destruct Hin as [Hin|Hin].
    + pose proof (cancelLoop_LoopRun lib node epoch fuel ctx cl dry scheme sk pk
                    (add64 standardFee (ExtraFee body)) ids 0 s2) as HLR.
      cbn zeta in HLR. fold o in HLR. apply LoopRun_inLoop in HLR.
      rewrite Forall_forall in HLR. now apply (HLR e Hin).
    + destruct (res o) as [[x|]| |];
        [destruct Hin | | destruct Hin | destruct Hin].
      destruct Hin as [<-|[<-|[]]]; one_of Hs.
Qed.

(** X15.  One run uses one scheme: whenever a run derives an address, signs,
    serializes or broadcasts a transaction, the scheme it uses and the chain
    identifier of the transaction are the second byte of the generator's
    address of the last block the node returned, which is also the scheme
    the run logs.  A run that did not get that far uses no scheme at all. *)
Theorem one_scheme_per_run lib node epoch interruptAt (fuel : nat) fl s :
  let t := events (evs (run lib node epoch interruptAt fuel fl s)) in
  (forall e, In e t -> schemesOf e = [])
  \/ exists b scheme,
       In (ReqLast (Ok b)) t
       /\ nth_error (Generator b) 1 = Some scheme
       /\ forall e sch, In e t -> In sch (schemesOf e) -> sch = scheme.
Proof.
  cbn zeta.
  pose proof (run_RunTrace lib node epoch interruptAt fuel fl s) as HR.
  cbn zeta in HR.
  destruct HR as [ l r HOK Hl | ne err HOK Hne | cl err HOK
                 | cl b scheme err HOK Hn Hsk
                 | cl b scheme sk err HOK Hn Hsk Haddr
                 | cl b scheme sk err HOK Hn Hsk Hpk Hpk2
                 | cl b scheme sk pk err HOK Hn Hsk Hpk Hpk2 Haddr
                 | cl b scheme sk pk addr tl r HOK Hn Hsk Hc Haddr HT ].
  - left. intros e [<-|[]].
    destruct Hl as [[= -> _]|[[= -> _]|[[= -> _]|[= -> _]]]]; reflexivity.
  - left. intros e Hin.
    destruct Hne as [-> | ->]; in_trace_k Hin ltac:(reflexivity).
  - left. intros e Hin. in_trace_k Hin ltac:(reflexivity).
  - right. exists b, scheme. split; [unfold schemeE, connE, headE; rewrite <- ?app_assoc; find_in|].
    split; [exact Hn|]. intros e sch Hin Hs. in_trace_k Hin ltac:(one_of Hs).
  - right. exists b, scheme. split; [unfold schemeE, connE, headE; rewrite <- ?app_assoc; find_in|].
    split; [exact Hn|]. intros e sch Hin Hs. in_trace_k Hin ltac:(one_of Hs).
  - right. exists b, scheme. split; [unfold schemeE, connE, headE; rewrite <- ?app_assoc; find_in|].
    split; [exact Hn|]. intros e sch Hin Hs. in_trace_k Hin ltac:(one_of Hs).
  - right. exists b, scheme. split; [unfold schemeE, connE, headE; rewrite <- ?app_assoc; find_in|].
    split; [exact Hn|]. intros e sch Hin Hs. in_trace_k Hin ltac:(one_of Hs).
  - right. exists b, scheme. split; [unfold schemeE, connE, headE; rewrite <- ?app_assoc; find_in|].
    split; [exact Hn|]. intros e sch Hin Hs.
    apply in_app_or in Hin. destruct Hin as [Hin|Hin];
      [in_trace_k Hin ltac:(one_of Hs)|].
    apply in_app_or in Hin. destruct Hin as [Hin|Hin];
      [in_trace_k Hin ltac:(one_of Hs)|].
    apply in_app_or in Hin. destruct Hin as [Hin|Hin];
      [in_trace_k Hin ltac:(one_of Hs)|].
    destruct Hin as [<-|[<-|Hin]]; try one_of Hs.
    exact (TailTrace_schemes _ _ _ _ _ _ _ _ _ _ _ _ _ HT _ _ Hin Hs).
Qed.

(** ** The order of the stages *)

Lemma stages_app t1 t2 : stages (t1 ++ t2) = stages t1 ++ stages t2.
Proof. unfold stages. now rewrite filter_app, map_app. Qed.

Lemma stages_optE c l : stages (optE c (Log l)) = [].
Proof. now destruct c. Qed.

Lemma stages_failedE err l : stages (failedE err l) = [].
Proof. unfold failedE. now destruct (is_Canceled err). Qed.

Lemma stages_inLoop scheme t :
  Forall (inLoop scheme) t -> Forall (eq 6%nat) (stages t).
Proof.
  induction 1 as [|e t [He _] _ IH]; [constructor|].
  destruct e; cbn in He |- *; try discriminate He; try exact IH;
    (constructor; [reflexivity | exact IH]).
Qed.

Lemma sorted_sixes l : Forall (eq 6%nat) l -> StronglySorted follows l.
Proof.
  induction 1 as [|n l <- Hl IH]; constructor; [exact IH|].
  refine (Forall_impl _ _ Hl). intros n <-. right. auto.
Qed.

Ltac sorted :=
  repeat first
    [ apply SSorted_nil
    | apply SSorted_cons
    | apply Forall_nil
    | apply Forall_cons; [unfold follows; lia|]
    | apply Forall_app; split
    | assumption
    | match goal with
      | H : Forall _ ?l |- Forall _ ?l =>
          refine (Forall_impl _ _ H);
          let n := fresh in let Hn := fresh in
          intros n Hn; unfold follows; lia
      end ].

Lemma TailTrace_stages lib node epoch (fuel : nat) ctx cl dry scheme sk pk addr tl r :
  TailTrace lib node epoch fuel ctx cl dry scheme sk pk addr tl r ->
  StronglySorted follows (stages tl) /\ Forall (fun n => (4 <= n)%nat) (stages tl).
Proof.
  intros HT.
  destruct HT as [ err | txs Hp | txs ids total fe err HL Hfe
                 | txs ids total req rsp body s2 HL Hst o ].
  - change (ReqActive addr (Err err) :: failedE err (LogLeasingsFailed err))
      with ([ReqActive addr (Err err)] ++ failedE err (LogLeasingsFailed err)).
    rewrite stages_app, stages_failedE. cbn. split; sorted.
  - cbn. split; sorted.
  - change (ReqActive addr (Ok txs) :: Log (LogFound (List.length ids) addr total)
              :: fe ++ failedE err (LogExtraFeeFailed addr err))
      with ([ReqActive addr (Ok txs); Log (LogFound (List.length ids) addr total)]
              ++ fe ++ failedE err (LogExtraFeeFailed addr err)).
    rewrite !stages_app, stages_failedE.
    destruct Hfe as [-> | (req & v & -> & _)]; cbn; split; sorted.
  - pose proof (cancelLoop_LoopRun lib node epoch fuel ctx cl dry scheme sk pk
                  (add64 standardFee (ExtraFee body)) ids 0 s2) as HLR.
    cbn zeta in HLR. fold o in HLR. apply LoopRun_inLoop in HLR.
    apply stages_inLoop in HLR.
    match goal with
    | |- context [?a :: ?b :: ?c :: ?d :: ?l ++ ?p] =>
        change (a :: b :: c :: d :: l ++ p) with ([a; b; c; d] ++ l ++ p);
        assert (Hp : stages p = [])
    end.
    { destruct (res o) as [[x|]| |]; reflexivity. }
    rewrite !stages_app, Hp, app_nil_r. cbn [stages filter map isLog negb stage app].
    pose proof (sorted_sixes _ HLR) as HS.
    split; sorted.
Qed.

(** X16.  A run goes through its stages in order and never goes back: the
    connectivity probe, the last block, the keys and addresses, the active
    leases, the surcharge, then the cancellation loop.  Each of the four
    queries that prepare the loop is made at most once. *)
Theorem run_stages_in_order lib node epoch interruptAt (fuel : nat) fl s :
  StronglySorted follows
    (stages (events (evs (run lib node epoch interruptAt fuel fl s)))).
Proof.
  pose proof (run_RunTrace lib node epoch interruptAt fuel fl s) as HR.
  cbn zeta in HR.
  destruct HR as [ l r HOK Hl | ne err HOK Hne | cl err HOK
                 | cl b scheme err HOK Hn Hsk
                 | cl b scheme sk err HOK Hn Hsk Haddr
                 | cl b scheme sk err HOK Hn Hsk Hpk Hpk2
                 | cl b scheme sk pk err HOK Hn Hsk Hpk Hpk2 Haddr
                 | cl b scheme sk pk addr tl r HOK Hn Hsk Hc Haddr HT ];
    unfold schemeE, connE, headE, keyE;
    try match goal with
        | |- context [?a :: failedE ?e ?l] =>
            change (a :: failedE e l) with ([a] ++ failedE e l)
        end;
    rewrite ?stages_app, ?stages_optE, ?stages_failedE.
  - cbn. sorted.
  - destruct Hne as [-> | ->]; cbn; sorted.
  - cbn. sorted.
  - cbn. sorted.
  - cbn. sorted.
  - cbn. sorted.
  - cbn. sorted.
  - destruct (TailTrace_stages _ _ _ _ _ _ _ _ _ _ _ _ _ HT) as (HS & H4).
    change (Log (LogPublicKey pk) :: Log (LogAddress addr) :: tl)
      with ([Log (LogPublicKey pk); Log (LogAddress addr)] ++ tl).
    rewrite stages_app.
    destruct (accountPK fl =? "")%string; cbn; sorted.
Qed.

(** ** Success and crashes *)

Lemma update_length {A} (l : list A) i x : List.length (update l i x) = List.length l.
Proof.
  revert i. induction l as [|h l IH]; intros [|i]; cbn; auto.
Qed.

Lemma leasingsLoop_length (txs : list LeaseWithSig) :
  forall i amount r ids total,
    leasingsLoop txs i amount r = Val (ids, total) ->
    List.length ids = List.length r.
Proof.
  induction txs as [|tx txs IH]; intros i amount r ids total H; cbn in H.
  - now injection H as <- _.
  - destruct (lease_ID tx); [|discriminate].
    rewrite (IH _ _ _ _ _ H). apply update_length.
Qed.

Lemma leasingsLoop_fails (txs : list LeaseWithSig) :
  forall i amount r,
    (forall ra, leasingsLoop txs i amount r <> Val ra) ->
    In None (map lease_ID txs).
Proof.
  induction txs as [|tx txs IH]; intros i amount r H; cbn in H |- *.
  - now elim (H (r, amount)).
  - destruct (lease_ID tx); [|now left]. right. exact (IH _ _ _ H).
Qed.

Lemma LoopRun_logs lib epoch dry scheme sk pk fee i leasings tr r l :
  LoopRun lib epoch dry scheme sk pk fee i leasings tr r ->
  In (Log l) (events tr) -> isLoopLog l = true.
Proof.
  intros H Hin. apply LoopRun_inLoop in H. rewrite Forall_forall in H.
  exact (proj1 (H _ Hin)).
Qed.

Lemma TailTrace_success lib node epoch (fuel : nat) ctx cl dry scheme sk pk addr tl r :
  TailTrace lib node epoch fuel ctx cl dry scheme sk pk addr tl r ->
  (In (Log LogOK) tl -> r = Val None)
  /\ (r = Val None ->
      exists txs, In (ReqActive addr (Ok txs)) tl
                  /\ endsWith tl [Log (LogCreated (List.length txs)); Log LogOK]).
Proof.
  intros HT.
  destruct HT as [ err | txs Hp | txs ids total fe err HL Hfe
                 | txs ids total req rsp body s2 HL Hst o ].
  - split; [intros Hin; in_trace_k Hin idtac | unfold failedR; discriminate].
  - split; [intros Hin; in_trace_k Hin idtac | discriminate].
  - split; [|unfold failedR; discriminate].
    intros Hin. destruct Hfe as [-> | (req & v & -> & _)]; in_trace_k Hin idtac.
  - split.
    + intros Hin. destruct Hin as [Hin|[Hin|[Hin|[Hin|Hin]]]]; try discriminate.
      { now destruct (negb _). }
      apply in_app_or in Hin. destruct Hin as [Hin|Hin].
      * pose proof (cancelLoop_LoopRun lib node epoch fuel ctx cl dry scheme sk pk
                      (add64 standardFee (ExtraFee body)) ids 0 s2) as HLR.
        cbn zeta in HLR. fold o in HLR.
        now pose proof (LoopRun_logs _ _ _ _ _ _ _ _ _ _ _ _ HLR Hin).
      * destruct (res o) as [[x|]| |]; [destruct Hin | | destruct Hin | destruct Hin].
        reflexivity.
    + intros ->. exists txs. split; [now left|].
      rewrite (leasingsLoop_length _ _ _ _ _ _ HL), repeat_length. ends.
Qed.

(** X17.  The run writes its closing line [OK] exactly when it passed the
    checks of the flags and returns nil; the line before it then reports as
    many cancel transactions as the node listed active leases, and these
    two lines are the last of the trace. *)
Theorem ok_logged_iff_success lib node epoch interruptAt (fuel : nat) fl s :
  let o := run lib node epoch interruptAt fuel fl s in
  (In (Log LogOK) (events (evs o)) <-> paramsOK fl = true /\ res o = Val None)
  /\ (paramsOK fl = true -> res o = Val None ->
      exists addr txs,
        In (ReqActive addr (Ok txs)) (events (evs o))
        /\ endsWith (events (evs o))
             [Log (LogCreated (List.length txs)); Log LogOK]).
Proof.
  cbn zeta.
  pose proof (run_RunTrace lib node epoch interruptAt fuel fl s) as HR.
  cbn zeta in HR.
  assert (Hmain : (In (Log LogOK)
                      (events (evs (run lib node epoch interruptAt fuel fl s)))
                   -> paramsOK fl = true
                      /\ res (run lib node epoch interruptAt fuel fl s) = Val None)
                  /\ (paramsOK fl = true ->
                      res (run lib node epoch interruptAt fuel fl s) = Val None ->
                      exists addr txs,
                        In (ReqActive addr (Ok txs))
                           (events (evs (run lib node epoch interruptAt fuel fl s)))
                        /\ endsWith
                             (events (evs (run lib node epoch interruptAt fuel fl s)))
                             [Log (LogCreated (List.length txs)); Log LogOK])).
  { destruct HR as [ l r HOK Hl | ne err HOK Hne | cl err HOK
                   | cl b scheme err HOK Hn Hsk
                   | cl b scheme sk err HOK Hn Hsk Haddr
                   | cl b scheme sk err HOK Hn Hsk Hpk Hpk2
                   | cl b scheme sk pk err HOK Hn Hsk Hpk Hpk2 Haddr
                   | cl b scheme sk pk addr tl r HOK Hn Hsk Hc Haddr HT ].
    - split; [|congruence]. intros [Hin|[]].
      destruct Hl as [[= -> _]|[[= -> _]|[[= -> _]|[= -> _]]]]; discriminate.
    - split; [|unfold failedR; discriminate]. intros Hin.
      destruct Hne as [-> | ->]; in_trace_k Hin idtac.
    - split; [|unfold failedR; discriminate]. intros Hin. in_trace_k Hin idtac.
    - split; [|discriminate]. intros Hin. in_trace_k Hin idtac.
    - split; [|discriminate]. intros Hin. in_trace_k Hin idtac.
    - split; [|discriminate]. intros Hin. in_trace_k Hin idtac.
    - split; [|discriminate]. intros Hin. in_trace_k Hin idtac.
    - destruct (TailTrace_success _ _ _ _ _ _ _ _ _ _ _ _ _ HT) as (H1 & H2). split.
      + intros Hin. split; [exact HOK|].
        apply in_app_or in Hin. destruct Hin as [Hin|Hin]; [in_trace_k Hin idtac|].
        apply in_app_or in Hin. destruct Hin as [Hin|Hin]; [in_trace_k Hin idtac|].
        apply in_app_or in Hin. destruct Hin as [Hin|Hin]; [in_trace_k Hin idtac|].
        destruct Hin as [Hin|[Hin|Hin]]; try discriminate. exact (H1 Hin).
      + intros _ Hr. destruct (H2 Hr) as (txs & Hin & Hend). exists addr, txs. split.
        * apply in_or_app. right. apply in_or_app. right. apply in_or_app. right.
          right. right. exact Hin.
        * ends. exact Hend. }
  destruct Hmain as (H1 & H2). split; [|exact H2]. split; [exact H1|].
  intros (HOK & Hr). destruct (H2 HOK Hr) as (addr & txs & _ & pre & ->).
  apply in_or_app. right. right. now left.
Qed.

Lemma pollTrace_fatal id l po :
  pollTrace id l po ->
  forall e, In e l -> isFatalReply e -> po = Panic /\ endsWith l [e].
Proof.
  induction 1 as [rsp err Hc Hs | rsp e0 Hc | err Hc | | rsp err t o Hc Hs HP IH];
    intros e Hin He.
  - destruct Hin as [<-|[]]. destruct He.
  - destruct Hin as [<-|[]]. destruct rsp; cbn in He; [destruct He | congruence].
  - destruct Hin as [<-|[]]. split; [reflexivity | ends].
  - destruct Hin.
  - destruct Hin as [<-|[<-|Hin]]; try destruct He.
    destruct (IH e Hin He) as (Hpo & Hend). split; [exact Hpo | ends; exact Hend].
Qed.

Lemma LoopRun_fatal lib epoch dry scheme sk pk fee i leasings tr r :
  LoopRun lib epoch dry scheme sk pk fee i leasings tr r ->
  forall e, In e (events tr) -> isFatalReply e ->
    r = Panic /\ endsWith (events tr) [e].
Proof.
  induction 1 as [ i | i lease rest t e Hs | i lease rest t id proofs e Hd Hs Hj
                  | i lease rest t id proofs b tr r Hd Hs Hj HL IH
                  | i lease rest t id proofs err t' Hd Hs
                  | i lease rest t id proofs t1 ptr po Hd Hs HP Hpo
                  | i lease rest t id proofs t1 ptr tr r Hd Hs HP HL IH ];
    intros e0 Hin He; cbn [events map snd] in Hin |- *.
  - destruct Hin.
  - destruct Hin as [<-|[<-|[]]]; destruct He.
  - destruct Hin as [<-|[<-|[<-|[]]]]; destruct He.
  - destruct Hin as [<-|[<-|[<-|Hin]]]; try destruct He.
    destruct (IH _ Hin He) as (-> & Hend). split; [reflexivity | ends; exact Hend].
  - destruct Hin as [<-|[<-|[<-|Hin]]]; try destruct He.
    destruct (is_Canceled err); [destruct Hin|].
    destruct Hin as [<-|[]]. destruct He.
  - destruct Hin as [<-|[<-|[<-|[<-|Hin]]]]; try destruct He.
    destruct (pollTrace_fatal _ _ _ HP _ Hin He) as (-> & Hend).
    split; [reflexivity | ends; exact Hend].
  - rewrite map_app in Hin |- *.
    destruct Hin as [<-|[<-|[<-|[<-|Hin]]]]; try destruct He.
    apply in_app_or in Hin. destruct Hin as [Hin|Hin].
    + destruct (pollTrace_fatal _ _ _ HP _ Hin He) as ([=] & _).
    + destruct (IH _ Hin He) as (-> & Hend). split; [reflexivity | ends; exact Hend].
Qed.

Lemma TailTrace_crash lib node epoch (fuel : nat) ctx cl dry scheme sk pk addr tl r :
  TailTrace lib node epoch fuel ctx cl dry scheme sk pk addr tl r ->
  (r = Panic -> exists e, endsWith tl [e] /\ isFatalReply e)
  /\ (forall e, In e tl -> isFatalReply e -> r = Panic /\ endsWith tl [e]).
Proof.
  intros HT.
  destruct HT as [ err | txs Hp | txs ids total fe err HL Hfe
                 | txs ids total req rsp body s2 HL Hst o ].
  - split; [unfold failedR; discriminate|]. intros e Hin He.
    in_trace_k Hin ltac:(destruct He).
  - split.
    + intros _. exists (ReqActive addr (Ok txs)). split; [ends|].
      exact (leasingsLoop_fails _ _ _ _ Hp).
    + intros e [<-|[]] _. split; [reflexivity | ends].
  - split; [unfold failedR; discriminate|]. intros e Hin He.
    destruct Hfe as [-> | (req & v & -> & _)]; in_trace_k Hin ltac:(try destruct He);
      cbn in He; rewrite (leasingsLoop_nil_ID _ _ _ _ He) in HL; discriminate.
  - pose proof (cancelLoop_LoopRun lib node epoch fuel ctx cl dry scheme sk pk
                  (add64 standardFee (ExtraFee body)) ids 0 s2) as HLR.
    cbn zeta in HLR. fold o in HLR. split.
    + intros Hr. rewrite Hr.
      destruct (LoopRun_panic _ _ _ _ _ _ _ _ _ _ _ HLR Hr) as (id & err & Hend & Hc).
      exists (ReqInfo id (None, err)). split; [|exact Hc].
      rewrite app_nil_r. ends. exact Hend.
    + intros e Hin He.
      destruct Hin as [<-|[<-|[<-|[<-|Hin]]]]; try (now destruct He).
      { cbn in He. rewrite (leasingsLoop_nil_ID _ _ _ _ He) in HL. discriminate. }
      apply in_app_or in Hin. destruct Hin as [Hin|Hin].
      * destruct (LoopRun_fatal _ _ _ _ _ _ _ _ _ _ _ HLR _ Hin He) as (Hr & Hend).
        rewrite Hr. rewrite app_nil_r. split; [reflexivity | ends; exact Hend].
      * destruct (res o) as [[x|]| |]; [destruct Hin | | destruct Hin | destruct Hin].
        destruct Hin as [<-|[<-|[]]]; destruct He.
Qed.

Ltac fatal He :=
  cbv beta iota delta [isFatalReply] in He; try contradiction; try congruence.

(** X18.  The run crashes (a Go panic, here a nil dereference) exactly on
    two replies: a list of active leases with an entry that has no
    identifier, and a status query that failed, with an error other than
    cancellation, and has no response (a request the client gave up is
    one).  Such a reply is the last event of the run: nothing is logged
    about it. *)
Theorem run_crashes_on_two_replies lib node epoch interruptAt (fuel : nat) fl s :
  let o := run lib node epoch interruptAt fuel fl s in
  (res o = Panic <-> exists e, In e (events (evs o)) /\ isFatalReply e)
  /\ (forall e, In e (events (evs o)) -> isFatalReply e ->
        endsWith (events (evs o)) [e]).
Proof.
  cbn zeta.
  pose proof (run_RunTrace lib node epoch interruptAt fuel fl s) as HR.
  cbn zeta in HR.
  assert (Hmain : (res (run lib node epoch interruptAt fuel fl s) = Panic ->
                   exists e,
                     endsWith (events (evs (run lib node epoch interruptAt fuel fl s))) [e]
                     /\ isFatalReply e)
                  /\ (forall e,
                        In e (events (evs (run lib node epoch interruptAt fuel fl s))) ->
                        isFatalReply e ->
                        res (run lib node epoch interruptAt fuel fl s) = Panic
                        /\ endsWith
                             (events (evs (run lib node epoch interruptAt fuel fl s)))
                             [e])).
  { destruct HR as [ l r HOK Hl | ne err HOK Hne | cl err HOK
                   | cl b scheme err HOK Hn Hsk
                   | cl b scheme sk err HOK Hn Hsk Haddr
                   | cl b scheme sk err HOK Hn Hsk Hpk Hpk2
                   | cl b scheme sk pk err HOK Hn Hsk Hpk Hpk2 Haddr
                   | cl b scheme sk pk addr tl r HOK Hn Hsk Hc Haddr HT ].
    - split; [discriminate|]. intros e [<-|[]] [].
    - split; [unfold failedR; discriminate|]. intros e Hin He.
      destruct Hne as [-> | ->]; in_trace_k Hin ltac:(fatal He).
    - split; [unfold failedR; discriminate|]. intros e Hin He.
      in_trace_k Hin ltac:(fatal He).
    - split; [discriminate|]. intros e Hin He.
      in_trace_k Hin ltac:(fatal He).
    - split; [discriminate|]. intros e Hin He.
      in_trace_k Hin ltac:(fatal He).
    - split; [discriminate|]. intros e Hin He.
      in_trace_k Hin ltac:(fatal He).
    - split; [discriminate|]. intros e Hin He.
      in_trace_k Hin ltac:(fatal He).
    - destruct (TailTrace_crash _ _ _ _ _ _ _ _ _ _ _ _ _ HT) as (H1 & H2). split.
      + intros Hr. destruct (H1 Hr) as (e & Hend & He). exists e.
        split; [ends; exact Hend | exact He].
      + intros e Hin He.
        apply in_app_or in Hin. destruct Hin as [Hin|Hin];
          [in_trace_k Hin ltac:(fatal He)|].
        apply in_app_or in Hin. destruct Hin as [Hin|Hin];
          [in_trace_k Hin ltac:(fatal He)|].
        apply in_app_or in Hin. destruct Hin as [Hin|Hin];
          [in_trace_k Hin ltac:(fatal He)|].
        destruct Hin as [<-|[<-|Hin]]; try destruct He.
        destruct (H2 e Hin He) as (Hr & Hend).
        split; [exact Hr | ends; exact Hend]. }
  destruct Hmain as (H1 & H2). split; [split|].
  - intros Hr. destruct (H1 Hr) as (e & (pre & Hend) & He). exists e.
    split; [|exact He]. rewrite Hend. apply in_or_app. right. now left.
  - intros (e & Hin & He). exact (proj1 (H2 e Hin He)).
  - intros e Hin He. exact (proj2 (H2 e Hin He)).
Qed.

Lemma TailTrace_no_track_failure lib node epoch (fuel : nat) ctx cl dry scheme sk pk
    addr tl r :
  TailTrace lib node epoch fuel ctx cl dry scheme sk pk addr tl r ->
  forall e, In e tl -> isTrackFailure e = false.
Proof.
  intros HT e Hin.
  destruct HT as [ err | txs Hp | txs ids total fe err HL Hfe
                 | txs ids total req rsp body s2 HL Hst o ].
  - in_trace_k Hin ltac:(reflexivity).
  - in_trace_k Hin ltac:(reflexivity).
  - destruct Hfe as [-> | (req & v & -> & _)]; in_trace_k Hin ltac:(reflexivity).
  - destruct Hin as [<-|[<-|[<-|[<-|Hin]]]]; try reflexivity.
    { now destruct (negb _). }
    apply in_app_or in Hin. destruct Hin as [Hin|Hin].
    + pose proof (cancelLoop_LoopRun lib node epoch fuel ctx cl dry scheme sk pk
                    (add64 standardFee (ExtraFee body)) ids 0 s2) as HLR.
      cbn zeta in HLR. fold o in HLR. apply LoopRun_inLoop in HLR.
      rewrite Forall_forall in HLR. destruct (HLR e Hin) as (He & _).
      destruct e as [l| | | | | | | | | | | | |]; try reflexivity.
      destruct l; try reflexivity; discriminate He.
    + destruct (res o) as [[x|]| |];
        [destruct Hin | | destruct Hin | destruct Hin].
      destruct Hin as [<-|[<-|[]]]; reflexivity.
Qed.

(** X19.  No run ever writes "Failed to track lease cancel transaction":
    [track] returns only nil or the cancellation error, and [run] answers
    the latter with [errUserTermination] before it gets to that line
    (canceller.go 192-197). *)
Theorem track_failure_is_never_logged lib node epoch interruptAt (fuel : nat) fl s :
  Forall (fun e => isTrackFailure e = false)
         (events (evs (run lib node epoch interruptAt fuel fl s))).
Proof.
  pose proof (run_RunTrace lib node epoch interruptAt fuel fl s) as HR.
  cbn zeta in HR. apply Forall_forall. intros e Hin.
  destruct HR as [ l r HOK Hl | ne err HOK Hne | cl err HOK
                 | cl b scheme err HOK Hn Hsk
                 | cl b scheme sk err HOK Hn Hsk Haddr
                 | cl b scheme sk err HOK Hn Hsk Hpk Hpk2
                 | cl b scheme sk pk err HOK Hn Hsk Hpk Hpk2 Haddr
                 | cl b scheme sk pk addr tl r HOK Hn Hsk Hc Haddr HT ].
  - destruct Hin as [<-|[]].
    destruct Hl as [[= -> _]|[[= -> _]|[[= -> _]|[= -> _]]]]; reflexivity.
  - destruct Hne as [-> | ->]; in_trace_k Hin ltac:(reflexivity).
  - in_trace_k Hin ltac:(reflexivity).
  - in_trace_k Hin ltac:(reflexivity).
  - in_trace_k Hin ltac:(reflexivity).
  - in_trace_k Hin ltac:(reflexivity).
  - in_trace_k Hin ltac:(reflexivity).
  - apply in_app_or in Hin. destruct Hin as [Hin|Hin];
      [in_trace_k Hin ltac:(reflexivity)|].
    apply in_app_or in Hin. destruct Hin as [Hin|Hin];
      [in_trace_k Hin ltac:(reflexivity)|].
    apply in_app_or in Hin. destruct Hin as [Hin|Hin];
      [in_trace_k Hin ltac:(reflexivity)|].
    destruct Hin as [<-|[<-|Hin]]; try reflexivity.
    exact (TailTrace_no_track_failure _ _ _ _ _ _ _ _ _ _ _ _ _ HT _ Hin).
Qed.

(** ** The further statements at concrete runs *)

Lemma getExtraFee_needs_200_witness :
  res (getExtraFee Demo.lib Demo.node3 Demo.never Demo.cl Demo.addr Demo.start)
  = Val (Ok 0).
Proof.
  apply (proj1 (getExtraFee_needs_200 Demo.lib Demo.node3 Demo.never Demo.cl Demo.addr
                  Demo.start) 0).
  exists {| req_Method := "GET";
            req_URL := "http://localhost:6869/addresses/scriptInfo/Tks" |},
         {| StatusCode := 200 |}, {| ExtraFee := 0 |}.
  repeat split.
Defined.

Lemma loop_transactions_witness :
  let tx := cancelAt Demo.epoch Byte.x54 [] 100000 0 (Demo.bytes_of_string "a") in
  Version tx = 2 /\ Timestamp tx = 1700000000000.
Proof.
  cbv zeta.
  destruct (proj1 (loop_transactions Demo.lib Demo.node3 Demo.epoch 5 Demo.never
                     Demo.cl true Byte.x54 [] [] 100000 0
                     [Demo.bytes_of_string "a"] Demo.start)
                  0 Byte.x54 []
                  (cancelAt Demo.epoch Byte.x54 [] 100000 0 (Demo.bytes_of_string "a"))
                  (Ok (Byte.x54 :: Demo.bytes_of_string "a", [])))
    as (_ & _ & _ & lease & Hin & Htx).
  - vm_compute. pick.
  - rewrite Htx. split; reflexivity.
Defined.

Lemma first_failure_ends_loop_witness :
  let o := cancelLoop Demo.lib (Demo.rejecting Demo.node3 (errorString "rejected"))
             Demo.epoch 5 Demo.never Demo.cl false Byte.x54 [] [] 100000 0
             [Demo.bytes_of_string "a"; Demo.bytes_of_string "b"] Demo.start in
  res o = Val (Some errFailure) /\ List.length (builtTxs (evs o)) = 1%nat.
Proof.
  cbv zeta. split; [|reflexivity].
  refine (proj1 (proj2 (proj2 (first_failure_ends_loop Demo.lib
                                 (Demo.rejecting Demo.node3 (errorString "rejected"))
                                 Demo.epoch 5 Demo.never Demo.cl false Byte.x54 [] []
                                 100000 0
                                 [Demo.bytes_of_string "a"; Demo.bytes_of_string "b"]
                                 Demo.start))
                       0
                       (signedWith
                          (cancelAt Demo.epoch Byte.x54 [] 100000 0
                             (Demo.bytes_of_string "a"))
                          (Byte.x54 :: Demo.bytes_of_string "a") [])
                       (errorString "rejected") _)).
  vm_compute. pick.
Defined.

Lemma one_scheme_per_run_witness :
  let t := events (evs (run Demo.lib Demo.node3 Demo.epoch None 5
                            (Demo.flags "sk" "" false) Demo.start)) in
  exists b, In (ReqLast (Ok b)) t /\ nth_error (Generator b) 1 = Some Byte.x54.
Proof.
  cbv zeta.
  assert (Hlog : In (Log (LogScheme Byte.x54))
                    (events (evs (run Demo.lib Demo.node3 Demo.epoch None 5
                                      (Demo.flags "sk" "" false) Demo.start))))
    by (vm_compute; pick).
  destruct (one_scheme_per_run Demo.lib Demo.node3 Demo.epoch None 5
              (Demo.flags "sk" "" false) Demo.start)
    as [Hnone | (b & scheme & Hb & Hn & H)].
  - discriminate (Hnone _ Hlog).
  - exists b. split; [exact Hb|]. rewrite Hn. f_equal.
    symmetry. apply (H _ _ Hlog). now left.
Defined.

(** A node URL of one word, followed by a space and a no-break space. *)
Lemma ok_logged_iff_success_witness :
  let fl := {| nodeURL := "http://localhost:6869/x " ++ Demo.nbsp;
               accountSK := "sk"; accountPK := ""; dryRun := false;
               showHelp := false; showVersion := false |} in
  strings_Fields (nodeURL fl) = ["http://localhost:6869/x"]%string
  /\ In (Log LogOK)
        (events (evs (run Demo.lib Demo.node3 Demo.epoch None 5 fl Demo.start))).
Proof.
  cbv zeta. split; [reflexivity|].
  apply (proj1 (ok_logged_iff_success Demo.lib Demo.node3 Demo.epoch None 5
                  {| nodeURL := "http://localhost:6869/x " ++ Demo.nbsp;
                     accountSK := "sk"; accountPK := ""; dryRun := false;
                     showHelp := false; showVersion := false |} Demo.start)).
  split; reflexivity.
Defined.

Lemma run_crashes_on_two_replies_witness :
  res (run Demo.lib Demo.nodeGone Demo.epoch None 5 (Demo.flags "sk" "" false)
           Demo.start) = Panic.
Proof.
  apply (proj1 (run_crashes_on_two_replies Demo.lib Demo.nodeGone Demo.epoch None 5
                  (Demo.flags "sk" "" false) Demo.start)).
  exists (ReqInfo (Byte.x54 :: Demo.bytes_of_string "a")
                  (None, Some (errorString "connection refused"))).
  split; [vm_compute; pick | reflexivity].
Defined.
